(** * tvm-web-viewer: stack-effect parser, stack decoder, opcode classifier
      and transaction-link resolver

    Shallow embedding of
      - [parseOpcodeStackDiff], [countStackItems], [findOpcodeInfo],
        [findRelatedOpcodes], [loadOpcodesJson], [handleOpcodeClick],
        [prevStep], [nextStep],
        [determineStackHighlightElements], the rows of the stack table,
        [shortStep], [parseMarkdown]                                 (src/App.tsx)
      - [parseStackElement], [parseStack]                            (src/runner/stack.ts)
      - [fetchTransactions], [mcSeqnoByShard], [linkToTx],
        [txToLinks]                                                  (src/runner/utils.ts)

    JavaScript strings are lists of 8-bit characters ([str]); every text the
    program handles here (stack dumps, mnemonics, links) is ASCII.  The
    string methods of the language used by the sources are modelled in
    [Module JS]. *)

From Stdlib Require Import Strings.Ascii Strings.String Strings.Byte.
From Stdlib Require Import Numbers.DecimalString Numbers.DecimalPos Numbers.DecimalN Numbers.DecimalZ.
From Stdlib Require Numbers.HexadecimalString.
From Stdlib Require Import List Bool Arith ZArith Lia.
Import ListNotations.

Set Warnings "-register-all".

(* ------------------------------------------------------------------ *)
(** ** JavaScript string primitives *)

Module JS.

Definition str := list ascii.

(** A literal of the source text. *)
Definition lit (s : string) : str := list_ascii_of_string s.

Definition isEmpty (s : str) : bool :=
  match s with [] => true | _ :: _ => false end.

Fixpoint str_eqb (a b : str) : bool :=
  match a, b with
  | [], [] => true
  | c :: a', d :: b' => Ascii.eqb c d && str_eqb a' b'
  | _, _ => false
  end.

(** [s.startsWith(p)] *)
Fixpoint startsWith (s p : str) {struct p} : bool :=
  match p, s with
  | [], _ => true
  | _ :: _, [] => false
  | c :: p', d :: s' => Ascii.eqb c d && startsWith s' p'
  end.

(** [s.endsWith(p)] *)
Definition endsWith (s p : str) : bool := startsWith (rev s) (rev p).

(** [s.includes(p)] *)
Fixpoint includes (s p : str) : bool :=
  startsWith s p || match s with [] => false | _ :: s' => includes s' p end.

(** The characters matched by [\s] (and removed by [trim]) among the
    8-bit code units: TAB, LF, VT, FF, CR, space and NBSP. *)
Definition is_space (c : ascii) : bool :=
  let n := nat_of_ascii c in
  ((9 <=? n) && (n <=? 13)) || (n =? 32) || (n =? 160).

Definition is_digit (c : ascii) : bool :=
  let n := nat_of_ascii c in (48 <=? n) && (n <=? 57).

(** The characters matched by [\w]: [A-Za-z0-9_]. *)
Definition is_word (c : ascii) : bool :=
  let n := nat_of_ascii c in
  ((65 <=? n) && (n <=? 90)) || ((97 <=? n) && (n <=? 122))
  || is_digit c || (n =? 95).

Fixpoint dropWhile (p : ascii -> bool) (s : str) : str :=
  match s with
  | [] => []
  | c :: s' => if p c then dropWhile p s' else s
  end.

Fixpoint takeWhile (p : ascii -> bool) (s : str) : str :=
  match s with
  | [] => []
  | c :: s' => if p c then c :: takeWhile p s' else []
  end.

(** [s.trim()] *)
Definition trim (s : str) : str :=
  rev (dropWhile is_space (rev (dropWhile is_space s))).

(** [s.split(sep)] for a non-empty string separator: the pieces between the
    successive leftmost occurrences of [sep].  [skip] counts the characters
    of a separator occurrence still to be passed over, [cur] is the piece
    being collected (reversed). *)
Fixpoint split_loop (sep s : str) (skip : nat) (cur : str) : list str :=
  match s with
  | [] => [rev cur]
  | c :: s' =>
      match skip with
      | S k => split_loop sep s' k cur
      | O =>
          if startsWith s sep
          then rev cur :: split_loop sep s' (length sep - 1) []
          else split_loop sep s' 0 (c :: cur)
      end
  end.

Definition split (s sep : str) : list str := split_loop sep s 0 [].

(** [s.split(/\s+/)] when [comma = false] and [s.split(/\s+|,/)] when
    [comma = true]: a separator is a maximal run of white space or, in the
    second form, a single comma.  [inws] says that the previous character
    belonged to a white-space separator. *)
Fixpoint splitRe_loop (comma : bool) (s : str) (inws : bool) (cur : str)
  : list str :=
  match s with
  | [] => [rev cur]
  | c :: s' =>
      if is_space c then
        if inws then splitRe_loop comma s' true []
        else rev cur :: splitRe_loop comma s' true []
      else if comma && Ascii.eqb c ","%char then
        rev cur :: splitRe_loop comma s' false []
      else splitRe_loop comma s' false (c :: cur)
  end.

Definition splitWs (s : str) : list str := splitRe_loop false s false [].
Definition splitWsComma (s : str) : list str := splitRe_loop true s false [].

(** [s.toUpperCase()] on ASCII text. *)
Definition upper (c : ascii) : ascii :=
  let n := nat_of_ascii c in
  if (97 <=? n) && (n <=? 122) then ascii_of_nat (n - 32) else c.

Definition toUpperCase (s : str) : str := map upper s.

(** One match of [/\w+\s+kw\s+\w+/] anchored at the head of [s]: the number
    of characters matched.  Every quantified run is followed by a character
    outside its class, so the greedy match is the only one. *)
Definition matchCompound (kw s : str) : option nat :=
  let w1 := takeWhile is_word s in
  let r1 := dropWhile is_word s in
  let s1 := takeWhile is_space r1 in
  let r2 := dropWhile is_space r1 in
  let r3 := skipn (length kw) r2 in
  let s2 := takeWhile is_space r3 in
  let r4 := dropWhile is_space r3 in
  let w2 := takeWhile is_word r4 in
  if isEmpty w1 || isEmpty s1 || negb (startsWith r2 kw)
     || isEmpty s2 || isEmpty w2
  then None
  else Some (length w1 + length s1 + length kw + length s2 + length w2).

(** [s.replace(/\w+\s+kw\s+\w+/g, 'X')]: leftmost matches, left to right,
    the search resuming after each match. *)
Fixpoint replaceCompound_loop (kw s : str) (skip : nat) : str :=
  match s with
  | [] => []
  | c :: s' =>
      match skip with
      | S k => replaceCompound_loop kw s' k
      | O =>
          match matchCompound kw s with
          | Some n => "X"%char :: replaceCompound_loop kw s' (n - 1)
          | None => c :: replaceCompound_loop kw s' 0
          end
      end
  end.

Definition replaceCompound (kw s : str) : str := replaceCompound_loop kw s 0.


(** *** Numbers *)

(** Value of a digit character in a radix up to 36. *)
Definition digitVal (c : ascii) : option Z :=
  let n := nat_of_ascii c in
  if (48 <=? n) && (n <=? 57) then Some (Z.of_nat (n - 48))
  else if (97 <=? n) && (n <=? 122) then Some (Z.of_nat (n - 87))
  else if (65 <=? n) && (n <=? 90) then Some (Z.of_nat (n - 55))
  else None.

Definition isDigitIn (base : Z) (c : ascii) : bool :=
  match digitVal c with
  | Some d => (d <? base)%Z
  | None => false
  end.

Fixpoint digits (base : Z) (s : str) (acc : Z) : option Z :=
  match s with
  | [] => Some acc
  | c :: s' =>
      match digitVal c with
      | Some d => if (d <? base)%Z then digits base s' (acc * base + d)%Z
                  else None
      | None => None
      end
  end.

(** A non-empty numeral of the given radix. *)
Definition numeral (base : Z) (s : str) : option Z :=
  if isEmpty s then None else digits base s 0%Z.

(** [BigInt(s)] for a string argument (StringToBigInt): surrounding white
    space is dropped, the empty text is [0n], a radix prefix [0x], [0o] or
    [0b] takes no sign, a decimal numeral takes an optional sign.  [None] is
    the SyntaxError. *)
Definition BigInt (s : str) : option Z :=
  let t := trim s in
  match t with
  | [] => Some 0%Z
  | "0"%char :: "x"%char :: r | "0"%char :: "X"%char :: r => numeral 16 r
  | "0"%char :: "o"%char :: r | "0"%char :: "O"%char :: r => numeral 8 r
  | "0"%char :: "b"%char :: r | "0"%char :: "B"%char :: r => numeral 2 r
  | "-"%char :: r => option_map Z.opp (numeral 10 r)
  | "+"%char :: r => numeral 10 r
  | _ => numeral 10 t
  end.

(** [parseInt(s)] with no radix argument: leading white space, an optional
    sign, an optional [0x] prefix, then the longest run of digits; [None]
    is [NaN].  The result is kept as an exact integer: the source only
    compares it with [0], [1], [2], [15] and another such result under a
    bound of 15, which rounding to a double does not change. *)
Definition parseInt (s : str) : option Z :=
  let t := dropWhile is_space s in
  let neg := match t with "-"%char :: _ => true | _ => false end in
  let t1 := match t with
            | "-"%char :: r | "+"%char :: r => r
            | _ => t
            end in
  let base := match t1 with
              | "0"%char :: "x"%char :: _ | "0"%char :: "X"%char :: _ => 16%Z
              | _ => 10%Z
              end in
  let t2 := match t1 with
            | "0"%char :: "x"%char :: r | "0"%char :: "X"%char :: r => r
            | _ => t1
            end in
  let ds := takeWhile (isDigitIn base) t2 in
  option_map (fun v => if neg then Z.opp v else v) (numeral base ds).

(** The characters of a decimal numeral. *)
Definition isNumeralChar (c : ascii) : bool :=
  is_digit c || Ascii.eqb c "-"%char.

(** [`${n}`] for a bigint [n]: its decimal numeral. *)
Definition BigInt_toString (n : Z) : str :=
  lit (NilZero.string_of_int (Z.to_int n)).

(** [a.join(sep)] *)
Fixpoint join (sep : str) (a : list str) : str :=
  match a with
  | [] => []
  | [x] => x
  | x :: a' => x ++ sep ++ join sep a'
  end.

(** [s.replace(/\[.*?\]/g, '*')]: each [[] is matched with the nearest
    following []] of its line ([.] matches no line terminator).
    [closes s] is the length of the text up to and including that []]. *)
Fixpoint closes (s : str) : option nat :=
  match s with
  | [] => None
  | c :: s' =>
      if Ascii.eqb c "]"%char then Some 1
      else if (nat_of_ascii c =? 10) || (nat_of_ascii c =? 13) then None
      else option_map S (closes s')
  end.

Fixpoint replaceBracketed_loop (s : str) (skip : nat) : str :=
  match s with
  | [] => []
  | c :: s' =>
      match skip with
      | S k => replaceBracketed_loop s' k
      | O =>
          if Ascii.eqb c "["%char then
            match closes s' with
            | Some n => "*"%char :: replaceBracketed_loop s' n
            | None => c :: replaceBracketed_loop s' 0
            end
          else c :: replaceBracketed_loop s' 0
      end
  end.

Definition replaceBracketed (s : str) : str := replaceBracketed_loop s 0.

(** [s.replace(/c/g, r)] for a single character [c]. *)
Definition replaceChar (c : ascii) (r : str) (s : str) : str :=
  flat_map (fun d => if Ascii.eqb d c then r else [d]) s.

End JS.

Import JS.

(* ------------------------------------------------------------------ *)
(** ** Stack-effect notation: [parseOpcodeStackDiff], [countStackItems] *)

Module StackDiff.

(** [countStackItems] *)
Definition countStackItems (stackPart : str) : nat :=
  if isEmpty (trim stackPart) then 0
  else
    let normalized :=
      replaceCompound (lit "xor") (replaceCompound (lit "mod") stackPart) in
    let tokens := split (trim normalized) (lit " ") in
    length tokens.

(** [parseOpcodeStackDiff]; [None] is the source's [null]. *)
Definition parseOpcodeStackDiff (text : str) : option (nat * nat) :=
  if length text =? 0 then None
  else if str_eqb text (lit "-") then None
  else if includes text (lit "or") && negb (includes text (lit "xor")) then None
  else if includes text (lit "...") then None
  else if startsWith text (lit "- ") then
    let afterPart := skipn 2 text in
    Some (0, countStackItems afterPart)
  else if endsWith text (lit " -") then
    let beforePart := firstn (length text - 2) text in
    Some (countStackItems beforePart, 0)
  else
    match split text (lit " - ") with
    | [p0; p1] => Some (countStackItems p0, countStackItems p1)
    | _ => None
    end.

End StackDiff.

(* ------------------------------------------------------------------ *)
(** ** Buffers: the text encodings of a byte sequence *)

Module Buffer.

Definition hexChar (n : nat) : ascii :=
  if n <? 10 then ascii_of_nat (48 + n) else ascii_of_nat (87 + n).

Definition hexVal (c : ascii) : option nat :=
  let n := nat_of_ascii c in
  if (48 <=? n) && (n <=? 57) then Some (n - 48)
  else if (97 <=? n) && (n <=? 102) then Some (n - 87)
  else if (65 <=? n) && (n <=? 70) then Some (n - 55)
  else None.

(** [buf.toString('hex')]: two lower-case digits per byte. *)
Fixpoint toHex (buf : list byte) : str :=
  match buf with
  | [] => []
  | b :: buf' =>
      let x := Byte.to_nat b in
      hexChar (x / 16) :: hexChar (x mod 16) :: toHex buf'
  end.

(** Reading back a text made of pairs of hexadecimal digits. *)
Fixpoint ofHex (s : str) : option (list byte) :=
  match s with
  | [] => Some []
  | [_] => None
  | c1 :: c2 :: s' =>
      match hexVal c1, hexVal c2, ofHex s' with
      | Some h, Some l, Some buf' =>
          option_map (fun b => b :: buf') (Byte.of_nat (h * 16 + l))
      | _, _, _ => None
      end
  end.

Definition b64Char (n : nat) : ascii :=
  if n <? 26 then ascii_of_nat (65 + n)
  else if n <? 52 then ascii_of_nat (71 + n)
  else if n <? 62 then ascii_of_nat (n - 4)
  else if n =? 62 then "+"%char
  else "/"%char.

Definition b64Val (c : ascii) : option nat :=
  let n := nat_of_ascii c in
  if (65 <=? n) && (n <=? 90) then Some (n - 65)
  else if (97 <=? n) && (n <=? 122) then Some (n - 71)
  else if (48 <=? n) && (n <=? 57) then Some (n + 4)
  else if n =? 43 then Some 62
  else if n =? 47 then Some 63
  else None.

(** [buf.toString('base64')]: four characters per group of three bytes,
    the last group padded with [=]. *)
Fixpoint toBase64 (buf : list byte) : str :=
  match buf with
  | [] => []
  | [a] =>
      let x := Byte.to_nat a in
      [b64Char (x / 4); b64Char (x mod 4 * 16); "="%char; "="%char]
  | [a; b] =>
      let x := Byte.to_nat a in
      let y := Byte.to_nat b in
      [b64Char (x / 4); b64Char (x mod 4 * 16 + y / 16);
       b64Char (y mod 16 * 4); "="%char]
  | a :: b :: c :: buf' =>
      let x := Byte.to_nat a in
      let y := Byte.to_nat b in
      let z := Byte.to_nat c in
      b64Char (x / 4) :: b64Char (x mod 4 * 16 + y / 16)
      :: b64Char (y mod 16 * 4 + z / 64) :: b64Char (z mod 64)
      :: toBase64 buf'
  end.

Definition byte3 (s1 s2 s3 s4 : nat) : option (list byte) :=
  match Byte.of_nat (s1 * 4 + s2 / 16),
        Byte.of_nat (s2 mod 16 * 16 + s3 / 4),
        Byte.of_nat (s3 mod 4 * 64 + s4) with
  | Some a, Some b, Some c => Some [a; b; c]
  | _, _, _ => None
  end.

(** Reading back a padded base64 text. *)
Fixpoint ofBase64 (s : str) : option (list byte) :=
  match s with
  | [] => Some []
  | c1 :: c2 :: c3 :: c4 :: s' =>
      match b64Val c1, b64Val c2 with
      | Some s1, Some s2 =>
          match b64Val c3, b64Val c4 with
          | Some s3, Some s4 =>
              match byte3 s1 s2 s3 s4, ofBase64 s' with
              | Some g, Some buf' => Some (g ++ buf')
              | _, _ => None
              end
          | Some s3, None =>
              if Ascii.eqb c4 "="%char && isEmpty s'
              then option_map (firstn 2) (byte3 s1 s2 s3 0)
              else None
          | None, _ =>
              if Ascii.eqb c3 "="%char && Ascii.eqb c4 "="%char && isEmpty s'
              then option_map (firstn 1) (byte3 s1 s2 0 0)
              else None
          end
      | _, _ => None
      end
  | _ => None
  end.

End Buffer.

(* ------------------------------------------------------------------ *)
(** ** The libraries and the platform the program runs on

    [@ton/core] (cells, slices, builders, addresses), the platform's
    [Buffer.from] decoders and [URL] are used through this interface.  A
    result [None] stands for a call that throws. *)

Inductive Fault : Type :=
| BadBigInt (text : str)        (* SyntaxError of [BigInt] *)
| BadArgument                   (* TypeError: [undefined] where a string is needed *)
| BadAddress (text : str)       (* [Address.parse], [Address.parseRaw] *)
| BadURL (text : str)           (* TypeError of [new URL] *)
| UndefinedProperty.            (* TypeError: property of [undefined] *)

Class Platform := {
  Cell : Type;
  Slice : Type;
  Builder : Type;
  Address : Type;
  (** [Cell.fromBoc(buf)]: the root cells of a serialized bag of cells *)
  Cell_fromBoc : list byte -> option (list Cell);
  asSlice : Cell -> Slice;
  asBuilder : Cell -> Builder;
  remainingBits : Slice -> nat;
  remainingRefs : Slice -> nat;
  loadAddress : Slice -> option Address;
  (** [Address.parse], [Address.parseRaw], [addr.toString()] *)
  Address_parse : str -> option Address;
  Address_parseRaw : str -> option Address;
  Address_toString : Address -> str;
  (** [Buffer.from(s, 'hex')], [Buffer.from(s, 'base64')] on a string *)
  Buffer_from_hex : str -> list byte;
  Buffer_from_base64 : str -> list byte;
  (** [new URL(link).searchParams.get(key)]; the outer [None] is a link the
      [URL] constructor refuses, the inner one an absent parameter *)
  URL_searchParam : str -> str -> option (option str);
  (** the message of the Error object an engine or library call throws *)
  faultMessage : Fault -> str;
}.

(* ------------------------------------------------------------------ *)
(** ** Stack dump decoder: [parseStackElement], [parseStack] *)

Module Stack.

Section Decoder.
Context {P : Platform}.

(** The values of the source's [StackElement] (declared in [./types], not
    among the sources), as [parseStackElement] builds them: [null], an array, a cell
    (also for a continuation), a slice, an address, a builder, a bigint, the
    token itself when nothing else fits, and [undefined] (a bag of cells
    with no root). *)
Inductive StackElement : Type :=
| ENull
| ETuple (items : list StackElement)
| ECell (c : Cell)
| ESlice (s : Slice)
| EAddress (a : Address)
| EBuilder (b : Builder)
| EInteger (n : Z)
| EText (word : str)
| EUndefined.

Definition isUndefined (e : StackElement) : bool :=
  match e with EUndefined => true | _ => false end.

(** [word.slice(k, -1)] *)
Definition slice_to_last (k : nat) (word : str) : str :=
  removelast (skipn k word).

(** [Cell.fromBoc(Buffer.from(word.slice(k, -1), 'hex'))[0]]: [None] when
    the call throws, [Some None] when the array of roots is empty. *)
Definition firstRoot (k : nat) (word : str) : option (option Cell) :=
  option_map (fun roots => nth_error roots 0)
             (Cell_fromBoc (Buffer_from_hex (slice_to_last k word))).

(** [parseStackElement]; the recursion on [word.slice(1, -1)] is on a
    shorter text, [fuel] bounds its depth. *)
Fixpoint parseStackElement_rec (fuel : nat) (word : str) : StackElement :=
  if str_eqb word (lit "()") then ENull
  else if startsWith word (lit "(") && endsWith word (lit ")") then
    match fuel with
    | S fuel' => ETuple [parseStackElement_rec fuel' (slice_to_last 1 word)]
    | O => EText word
    end
  else if startsWith word (lit "C{") then
    match firstRoot 2 word with
    | Some (Some cell) => ECell cell
    | Some None => EUndefined
    | None => EText word
    end
  else if startsWith word (lit "Cont{") then
    match firstRoot 5 word with
    | Some (Some cell) => ECell cell
    | Some None => EUndefined
    | None => EText word
    end
  else if startsWith word (lit "CS{") then
    match firstRoot 3 word with
    | Some (Some cell) =>
        let slice := asSlice cell in
        if (remainingBits slice =? 267) && (remainingRefs slice =? 0) then
          match loadAddress slice with
          | Some a => EAddress a
          | None => EText word
          end
        else ESlice slice
    | _ => EText word
    end
  else if startsWith word (lit "BC{") then
    match firstRoot 3 word with
    | Some (Some cell) => EBuilder (asBuilder cell)
    | _ => EText word
    end
  else
    match BigInt word with
    | Some n => EInteger n
    | None => EText word
    end.

Definition parseStackElement (word : str) : StackElement :=
  parseStackElement_rec (length word) word.


(** How a call of [parseStack] ends. *)
Inductive StackError : Type :=
| TupleEndedWithoutStart   (* Error('Something unexpected. Tuple ended without start.') *)
| PushOnUndefined.         (* TypeError: stackStack[-1] is undefined *)

Inductive Completion : Type :=
| Returns (value : option (list StackElement))   (* [None]: [undefined] *)
| Throws (e : StackError).

(** [stackStack[0]] for a stack kept with its last frame first; [None] is
    [undefined]. *)
Definition bottom (st : list (list StackElement))
  : option (list StackElement) :=
  match rev st with [] => None | f :: _ => Some f end.

(** The loop of [parseStack] over the words.  [stackStack] is kept with its
    last frame first: the head is [stackStack[stackStack.length - 1]] and
    the last element is [stackStack[0]]. *)
Fixpoint parseStack_loop (words : list str)
    (stackStack : list (list StackElement)) : Completion :=
  match words with
  | [] => Returns (bottom stackStack)
  | w :: words' =>
      let word := trim w in
      if str_eqb word (lit "stack:") || str_eqb word [] then
        parseStack_loop words' stackStack
      else if str_eqb word (lit "[") then
        parseStack_loop words' ([] :: stackStack)
      else if str_eqb word (lit "]") then
        match stackStack with
        | [] => Throws TupleEndedWithoutStart
        | tuple :: [] => Returns (Some tuple)
        | tuple :: parent :: outer =>
            parseStack_loop words' ((parent ++ [ETuple tuple]) :: outer)
        end
      else
        let stackElement := parseStackElement word in
        if isUndefined stackElement then parseStack_loop words' stackStack
        else
          match stackStack with
          | [] => Throws PushOnUndefined
          | top :: outer =>
              parseStack_loop words' ((top ++ [stackElement]) :: outer)
          end
  end.

(** The words of a line: brackets set apart by spaces, then the cut at
    white space. *)
Definition wordsOfLine (line : str) : list str :=
  let line := replaceChar "["%char (lit " [ ") line in
  let line := replaceChar "]"%char (lit " ] ") line in
  splitWs line.

(** [parseStack] *)
Definition parseStack (line : str) : Completion :=
  let words := wordsOfLine line in
  parseStack_loop words [].

(** *** The shape of a run of words

    A run of words is made of labels the loop skips, scalar tokens and
    bracketed groups; [wordsOf] spells a shape out, [valuesOf] gives the
    element each of its tokens stands for. *)
Inductive Items : Type :=
| INil
| ISkip (w : str) (rest : Items)
| IScalar (w : str) (rest : Items)
| IGroup (inner rest : Items).

Definition isSkipped (w : str) : bool :=
  str_eqb (trim w) (lit "stack:") || str_eqb (trim w) [].

Definition isScalar (w : str) : bool :=
  negb (isSkipped w) && negb (str_eqb (trim w) (lit "["))
  && negb (str_eqb (trim w) (lit "]")).

Fixpoint wordsOf (it : Items) : list str :=
  match it with
  | INil => []
  | ISkip w rest => w :: wordsOf rest
  | IScalar w rest => w :: wordsOf rest
  | IGroup inner rest => lit "[" :: wordsOf inner ++ lit "]" :: wordsOf rest
  end.

Fixpoint wellFormed (it : Items) : bool :=
  match it with
  | INil => true
  | ISkip w rest => isSkipped w && wellFormed rest
  | IScalar w rest => isScalar w && wellFormed rest
  | IGroup inner rest => wellFormed inner && wellFormed rest
  end.

Fixpoint onlySkips (it : Items) : bool :=
  match it with
  | INil => true
  | ISkip w rest => isSkipped w && onlySkips rest
  | _ => false
  end.

Fixpoint valuesOf (it : Items) : list StackElement :=
  match it with
  | INil => []
  | ISkip _ rest => valuesOf rest
  | IScalar w rest =>
      let v := parseStackElement (trim w) in
      if isUndefined v then valuesOf rest else v :: valuesOf rest
  | IGroup inner rest => ETuple (valuesOf inner) :: valuesOf rest
  end.

(** A line that stops inside brackets: the groups still open after the
    outermost one. *)
Definition openGroups (deeper : list Items) : list str :=
  flat_map (fun it => lit "[" :: wordsOf it) deeper.

End Decoder.

End Stack.

(* ------------------------------------------------------------------ *)
(** ** Opcode classifier: [findOpcodeInfo] *)

Module Classifier.

(** [interface Opcode] *)
Record Opcode : Type := {
  name : str;
  alias_of : str;
  tlb : str;
  doc_category : str;
  doc_opcode : str;
  doc_fift : str;
  doc_stack : str;
  doc_gas : str;
  doc_description : str;
}.

(** [opcodes.find((op) => op.name === n)] *)
Definition findByName (opcodes : list Opcode) (n : str) : option Opcode :=
  find (fun op => str_eqb (name op) n) opcodes.

(** The block guarded by [commandName === 'XCHG'].  [Some r] is a
    [return r] of the source ([r = None] being [null]); [None] means that
    control leaves the block and reaches the code after it. *)
Definition xchgTier (opcodes : list Opcode) (parts : list str)
  : option (option Opcode) :=
  let params := filter (fun p => startsWith p (lit "s")) (tl parts) in
  if 2 <=? length params then
    match parseInt (skipn 1 (nth 0 params [])),
          parseInt (skipn 1 (nth 1 params [])) with
    | Some i, Some j =>
        if (i =? 0)%Z then
          Some (findByName opcodes (lit "XCHG_0I"))
        else if (i =? 1)%Z then
          if (2 <=? j)%Z then Some (findByName opcodes (lit "XCHG_1I"))
          else None
        else
          if (1 <=? i)%Z && (i <? j)%Z && (j <=? 15)%Z
          then Some (findByName opcodes (lit "XCHG_IJ"))
          else None
    | _, _ => None
    end
  else None.

(** The test of the [for (const op of opcodes)] loop. *)
Definition templateMatches (commandName : str) (op : Opcode) : bool :=
  includes (doc_fift op) (lit "[") && includes (doc_fift op) (lit "]") &&
  (let fiftParts := splitWs (doc_fift op) in
   let fiftCommand := toUpperCase (nth 0 fiftParts []) in
   str_eqb fiftCommand commandName &&
   (let paramPattern := join (lit " ") (tl fiftParts) in
    includes (replaceBracketed paramPattern) (lit "*"))).

(** The code after the XCHG block: template loop, description filter,
    name and alias filter. *)
Definition laterTiers (opcodes : list Opcode) (commandName : str)
  : option Opcode :=
  match find (templateMatches commandName) opcodes with
  | Some op => Some op
  | None =>
      let matchingByDescription :=
        filter (fun op =>
                  includes (toUpperCase (doc_description op)) commandName)
               opcodes in
      match matchingByDescription with
      | op :: _ => Some op
      | [] =>
          let partialMatches :=
            filter (fun op =>
                      includes (toUpperCase (name op)) commandName
                      || (negb (isEmpty (alias_of op))
                          && includes (toUpperCase (alias_of op)) commandName))
                   opcodes in
          match partialMatches with
          | op :: _ => Some op
          | [] => None
          end
      end
  end.

(** The selection among the three exchange records in the words of the
    specification, its ranges read in the order it gives them: slot 0
    paired form, slot 1 with a second index of at least 2, ordered pair
    with 1 <= i < j <= 15, else nothing from this tier. *)
Definition xchgSelection (i j : Z) : option str :=
  if (i =? 0)%Z then Some (lit "XCHG_0I")
  else if (i =? 1)%Z && (2 <=? j)%Z then Some (lit "XCHG_1I")
  else if (1 <=? i)%Z && (i <? j)%Z && (j <=? 15)%Z then Some (lit "XCHG_IJ")
  else None.

(** The command name and the parts the source computes from the text. *)
Definition normalize (opcodeStr : str) : str :=
  let normalizedStr := trim opcodeStr in
  if startsWith normalizedStr (lit "implicit ")
  then trim (skipn 9 normalizedStr)
  else normalizedStr.

Definition partsOf (opcodeStr : str) : list str :=
  splitWsComma (normalize opcodeStr).

Definition commandNameOf (opcodeStr : str) : str :=
  toUpperCase (nth 0 (partsOf opcodeStr) []).

(** [findOpcodeInfo], over the catalog [opcodes] it closes over. *)
Definition findOpcodeInfo (opcodes : list Opcode) (opcodeStr : str)
  : option Opcode :=
  if isEmpty opcodeStr || (length opcodes =? 0) then None
  else
    let parts := partsOf opcodeStr in
    let commandName := commandNameOf opcodeStr in
    let exactMatch :=
      find (fun op => str_eqb (toUpperCase (name op)) commandName) opcodes in
    match exactMatch with
    | Some op => Some op
    | None =>
        match (if str_eqb commandName (lit "XCHG")
               then xchgTier opcodes parts else None) with
        | Some r => r
        | None => laterTiers opcodes commandName
        end
    end.

End Classifier.

(* ------------------------------------------------------------------ *)
(** ** Transaction links: [fetchTransactions], [linkToTx], [txToLinks] *)

Module Resolver.

(** [TransactionIndexed] (declared in [./types], not among the sources):
    the properties the resolver reads. *)
Module Indexed.
Record t : Type := { account : str; lt : str; hash : str }.
End Indexed.

(** A thrown value: an [Error] object with its message, or anything else. *)
Inductive Exn : Type :=
| Error (message : str)
| Foreign.

(** What the transaction index answers to one request. *)
Inductive Response : Type :=
| Found (transactions : list Indexed.t)
| Failed (e : Exn).

(** The calls that leave the program, in the order they are made. *)
Inductive Event : Type :=
| Fetch (hash : str) (testnet : bool)   (* GET .../api/v3/transactions *)
| RateLimitWait.                        (* [await waitForRateLimit()] *)

(** The index: its answer to a request may depend on what was asked
    before. *)
Definition Index := list Event -> str -> bool -> Response.

(** The state a call of [linkToTx] threads: the calls made so far and the
    array [triedFormats]. *)
Record State : Type := {
  trace : list Event;
  triedFormats : list str;
}.

Inductive Result (A : Type) : Type :=
| Ok (a : A)
| Throw (e : Exn).
Arguments Ok {A} a.
Arguments Throw {A} e.

Definition M (A : Type) : Type := State -> State * Result A.

Definition ret {A} (a : A) : M A := fun st => (st, Ok a).

Definition throw {A} (e : Exn) : M A := fun st => (st, Throw e).

Definition bind {A B} (m : M A) (k : A -> M B) : M B :=
  fun st =>
    match m st with
    | (st', Ok a) => k a st'
    | (st', Throw e) => (st', Throw e)
    end.

(** [try { m } catch (e) { h e }]: the state changes of [m] are kept. *)
Definition tryCatch {A} (m : M A) (h : Exn -> M A) : M A :=
  fun st =>
    match m st with
    | (st', Ok a) => (st', Ok a)
    | (st', Throw e) => h e st'
    end.

Declare Scope resolver_scope.
Delimit Scope resolver_scope with resolver.
Notation "x <- m ;; k" := (bind m (fun x => k))
  (at level 61, m at next level, right associativity) : resolver_scope.
Notation "m ;;; k" := (bind m (fun _ => k))
  (at level 61, right associativity) : resolver_scope.
Open Scope resolver_scope.

(** [triedFormats.push(f)] *)
Definition pushFormat (f : str) : M unit :=
  fun st => ({| trace := trace st; triedFormats := triedFormats st ++ [f] |},
             Ok tt).

Definition getFormats : M (list str) :=
  fun st => (st, Ok (triedFormats st)).

Definition setFormats (fs : list str) : M unit :=
  fun st => ({| trace := trace st; triedFormats := fs |}, Ok tt).

(** Modelled from the spec: [waitForRateLimit] of module [./runner], which
    is not among the sources.  It is the shared rate-limit gate: the caller
    waits until the minimum interval since the previous outbound call has
    elapsed.  The call is recorded in the trace; it returns nothing and does
    not throw. *)
Definition waitForRateLimit : M unit :=
  fun st => ({| trace := trace st ++ [RateLimitWait];
                triedFormats := triedFormats st |}, Ok tt).

(** [BaseTxInfo], the result of [linkToTx] and [TxLinks] (declared in
    [./types], not among the sources): the properties the code writes and
    reads. *)
Record BaseTxInfo {P : Platform} : Type := {
  lt : Z;
  hash : list byte;
  addr : Address;
}.

Record Resolved {P : Platform} : Type := {
  tx : BaseTxInfo;
  testnet : bool;
}.

Record TxLinks : Type := {
  toncx : str;
  tonviewer : str;
  tonscan : str;
  toncoin : str;
  dton : str;
}.

Section Links.
Context {P : Platform}.
Variable index : Index.

(** [fetchTransactions({ hash, limit: 1 }, testnet)] *)
Definition fetchTransactions (hash : str) (testnet : bool)
  : M (list Indexed.t) :=
  fun st =>
    let st' := {| trace := trace st ++ [Fetch hash testnet];
                  triedFormats := triedFormats st |} in
    match index (trace st) hash testnet with
    | Found transactions => (st', Ok transactions)
    | Failed (Error message) =>
        (st', Throw (Error (lit "Get transactions on Toncenter V3: "
                            ++ message)))
    | Failed Foreign => (st', Throw Foreign)
    end.

Definition fault {A} (f : Fault) : M A := throw (Error (faultMessage f)).

(** [BigInt(s)] for a string [s] *)
Definition toBigInt (s : str) : M Z :=
  match BigInt s with
  | Some n => ret n
  | None => fault (BadBigInt s)
  end.

(** [Buffer.from(s, enc)] where [s] may be [undefined] *)
Definition bufferFrom (decode : str -> list byte) (s : option str)
  : M (list byte) :=
  match s with
  | Some t => ret (decode t)
  | None => fault BadArgument
  end.

Definition addressParse (s : option str) : M Address :=
  match s with
  | Some t =>
      match Address_parse t with
      | Some a => ret a
      | None => fault (BadAddress t)
      end
  | None => fault BadArgument
  end.

Definition addressParseRaw (s : str) : M Address :=
  match Address_parseRaw s with
  | Some a => ret a
  | None => fault (BadAddress s)
  end.

(** [res.transactions[0]], read for one of its properties *)
Definition first (transactions : list Indexed.t) : M Indexed.t :=
  match transactions with
  | t :: _ => ret t
  | [] => fault UndefinedProperty
  end.

(** [forcedTestnet || b] *)
Definition orElse (forcedTestnet : option bool) (b : bool) : bool :=
  match forcedTestnet with
  | Some true => true
  | _ => b
  end.

(** [v || d] for a search parameter *)
Definition orDefault (v : option str) (d : str) : str :=
  match v with
  | Some (c :: t) => c :: t
  | _ => d
  end.

(** The explorer shapes that carry a bare hash: one lookup on the network
    the link names. *)
Definition byHashLink (txLink : str) (forcedTestnet : option bool)
    (marker : str) (cutTest cutMain : nat) (decode : str -> list byte)
  : M Resolved :=
  let testnet := orElse forcedTestnet (includes txLink marker) in
  let infoPart := if testnet then skipn cutTest txLink
                  else skipn cutMain txLink in
  res <- fetchTransactions infoPart testnet ;;
  let hash := decode infoPart in
  t <- first res ;;
  addr <- addressParseRaw (Indexed.account t) ;;
  lt <- toBigInt (Indexed.lt t) ;;
  ret {| tx := {| lt := lt; hash := hash; addr := addr |};
         testnet := testnet |}.

(** The mainnet attempt followed, when it fails, by the testnet attempt;
    [tier] is ["lt:hash"] or ["bare hash"]. *)
Definition mainnetThenTestnet (tier : str) (hash : str)
  : M (list Indexed.t * bool) :=
  tryCatch
    (res <- fetchTransactions hash false ;;
     if length res =? 0 then
       pushFormat (tier ++ lit " mainnet") ;;; throw (Error (lit "nope"))
     else ret (res, false))
    (fun _ =>
       waitForRateLimit ;;;
       res <- fetchTransactions hash true ;;
       if length res =? 0 then
         pushFormat (tier ++ lit " testnet") ;;; throw (Error (lit "nope"))
       else ret (res, true)).

(** The lookup of both bare formats: forced testnet, or mainnet first. *)
Definition lookup (tier : str) (hash : str) (forcedTestnet : option bool)
  : M (list Indexed.t * bool) :=
  match forcedTestnet with
  | Some true => res <- fetchTransactions hash true ;; ret (res, true)
  | _ => mainnetThenTestnet tier hash
  end.

Definition lengthError : str :=
  lit "Seems like hash, but not of length 64. Probably missing letters".

(** The [lt:hash] format (first [try] block of the last branch). *)
Definition ltHashFormat (txLink : str) (forcedTestnet : option bool)
  : M Resolved :=
  let pieces := split txLink (lit ":") in
  let ltStr := nth 0 pieces [] in
  let hashStr := nth_error pieces 1 in
  lt <- toBigInt ltStr ;;
  hash <- bufferFrom Buffer_from_hex hashStr ;;
  r <- lookup (lit "lt:hash") (match hashStr with Some h => h | None => [] end)
         forcedTestnet ;;
  t <- first (fst r) ;;
  addr <- addressParseRaw (Indexed.account t) ;;
  ret {| tx := {| lt := lt; hash := hash; addr := addr |};
         testnet := snd r |}.

(** The text the bare hash formats look up: [txLink], turned from base64
    into hexadecimal when it ends with [=]. *)
Definition hashText (txLink : str) : str :=
  if endsWith txLink (lit "=")
  then Buffer.toHex (Buffer_from_base64 txLink)
  else txLink.

(** The bare hash formats (the [catch] block of the [lt:hash] format). *)
Definition bareHashFormat (txLink : str) (forcedTestnet : option bool)
  : M Resolved :=
  tryCatch
    (let txLink := hashText txLink in
     (if negb (length txLink =? 64) then throw (Error lengthError)
      else ret tt) ;;;
     waitForRateLimit ;;;
     r <- lookup (lit "bare hash") txLink forcedTestnet ;;
     t <- first (fst r) ;;
     let hash := Buffer_from_base64 (Indexed.hash t) in
     lt <- toBigInt (Indexed.lt t) ;;
     addr <- addressParseRaw (Indexed.account t) ;;
     ret {| tx := {| lt := lt; hash := hash; addr := addr |};
            testnet := snd r |})
    (fun e =>
       let maybeMsg :=
         match e with
         | Error message =>
             if negb (str_eqb message (lit "nope"))
             then lit "Got strange error: " ++ message
             else []
         | Foreign => []
         end in
       formats <- getFormats ;;
       let formatsStr := join (lit ", ") formats in
       throw (Error (lit "Coudn't recognize such link, tried all formats: "
                     ++ formatsStr ++ lit ". " ++ maybeMsg))).

Definition knownFormats : list str :=
  [lit "ton.cx"; lit "tonviewer"; lit "tonscan"; lit "toncoin.org";
   lit "dton"].

(** The prefixes of the five explorer shapes. *)
Definition isExplorerLink (txLink : str) : bool :=
  (startsWith txLink (lit "https://ton.cx/tx/")
   || startsWith txLink (lit "https://testnet.ton.cx/tx/"))
  || (startsWith txLink (lit "https://tonviewer.com/")
      || startsWith txLink (lit "https://testnet.tonviewer.com/"))
  || (startsWith txLink (lit "https://tonscan.org/tx/")
      || startsWith txLink (lit "https://testnet.tonscan.org/tx/"))
  || (startsWith txLink (lit "https://explorer.toncoin.org/transaction")
      || startsWith txLink (lit "https://test-explorer.toncoin.org/transaction"))
  || (startsWith txLink (lit "https://dton.io/tx")
      || startsWith txLink (lit "https://testnet.dton.io/tx")).

(** [linkToTx] *)
Definition linkToTx (txLink : str) (forcedTestnet : option bool)
  : M Resolved :=
  if startsWith txLink (lit "https://ton.cx/tx/")
     || startsWith txLink (lit "https://testnet.ton.cx/tx/") then
    let testnet := orElse forcedTestnet (includes txLink (lit "testnet.")) in
    let infoPart := if testnet then skipn 26 txLink else skipn 18 txLink in
    let pieces := split infoPart (lit ":") in
    lt <- toBigInt (nth 0 pieces []) ;;
    hash <- bufferFrom Buffer_from_base64 (nth_error pieces 1) ;;
    addr <- addressParse (nth_error pieces 2) ;;
    ret {| tx := {| lt := lt; hash := hash; addr := addr |};
           testnet := testnet |}
  else if startsWith txLink (lit "https://tonviewer.com/")
     || startsWith txLink (lit "https://testnet.tonviewer.com/") then
    byHashLink txLink forcedTestnet (lit "testnet.") 42 34 Buffer_from_hex
  else if startsWith txLink (lit "https://tonscan.org/tx/")
     || startsWith txLink (lit "https://testnet.tonscan.org/tx/") then
    byHashLink txLink forcedTestnet (lit "testnet.") 31 23 Buffer_from_base64
  else if startsWith txLink (lit "https://explorer.toncoin.org/transaction")
     || startsWith txLink (lit "https://test-explorer.toncoin.org/transaction")
  then
    let testnet := orElse forcedTestnet (includes txLink (lit "test-")) in
    match URL_searchParam txLink (lit "lt"),
          URL_searchParam txLink (lit "hash"),
          URL_searchParam txLink (lit "account") with
    | Some ltP, Some hashP, Some accountP =>
        lt <- toBigInt (orDefault ltP (lit "0")) ;;
        let hash := Buffer_from_hex (orDefault hashP []) in
        addr <- addressParse (Some (orDefault accountP [])) ;;
        ret {| tx := {| lt := lt; hash := hash; addr := addr |};
               testnet := testnet |}
    | _, _, _ => fault (BadURL txLink)
    end
  else if startsWith txLink (lit "https://dton.io/tx")
     || startsWith txLink (lit "https://testnet.dton.io/tx") then
    byHashLink txLink forcedTestnet (lit "testnet.") 27 19 Buffer_from_hex
  else
    setFormats knownFormats ;;;
    tryCatch (ltHashFormat txLink forcedTestnet)
             (fun _ => bareHashFormat txLink forcedTestnet).

(** A call of [linkToTx]: the calls it makes and how it ends. *)
Definition run {A} (m : M A) : list Event * Result A :=
  let r := m {| trace := []; triedFormats := [] |} in
  (trace (fst r), snd r).

(** A result with its address shown as text. *)
Definition shown (r : Result Resolved) : Result (Z * list byte * str * bool) :=
  match r with
  | Ok res =>
      Ok (lt (tx res), hash (tx res), Address_toString (addr (tx res)),
          testnet res)
  | Throw e => Throw e
  end.

(** [testnet ? a : b] inside a link *)
Definition host (testnet : bool) (a : string) : str :=
  if testnet then lit a else [].

(** [txToLinks] *)
Definition txToLinks (opts : BaseTxInfo) (testnet : bool) : TxLinks :=
  {| toncx :=
       lit "https://" ++ host testnet "testnet." ++ lit "ton.cx/tx/"
       ++ BigInt_toString (lt opts) ++ lit ":"
       ++ Buffer.toBase64 (hash opts) ++ lit ":"
       ++ Address_toString (addr opts);
     tonviewer :=
       lit "https://" ++ host testnet "testnet."
       ++ lit "tonviewer.com/transaction/" ++ Buffer.toHex (hash opts);
     tonscan :=
       lit "https://" ++ host testnet "testnet." ++ lit "tonscan.org/tx/"
       ++ Buffer.toBase64 (hash opts);
     toncoin :=
       lit "https://" ++ host testnet "test-"
       ++ lit "explorer.toncoin.org/transaction?account="
       ++ Address_toString (addr opts) ++ lit "&lt="
       ++ BigInt_toString (lt opts) ++ lit "&hash="
       ++ Buffer.toHex (hash opts);
     dton :=
       lit "https://" ++ host testnet "testnet." ++ lit "dton.io/tx/"
       ++ lit "F64C6A3CDF3FAD1D786AACF9A6130F18F3F76EEB71294F53BBD812AD3703E70A"
  |}.

End Links.

End Resolver.

(* ------------------------------------------------------------------ *)
(** ** A sample platform and sample indexes

    Concrete stand-ins on which the definitions can be run: a cell is the
    byte text that follows the magic number [b5ee9c72] of a bag of cells, an
    address is its text.  The properties below are proved for every
    platform and every index; the samples only serve to evaluate them. *)

Module Sample.

Import Resolver.

(** Pairs of hexadecimal digits up to the first text that is not one. *)
Fixpoint hexPrefix (s : str) : list byte :=
  match s with
  | c1 :: c2 :: s' =>
      match Buffer.hexVal c1, Buffer.hexVal c2 with
      | Some h, Some l =>
          match Byte.of_nat (h * 16 + l) with
          | Some b => b :: hexPrefix s'
          | None => []
          end
      | _, _ => []
      end
  | _ => []
  end.

Definition base64OrEmpty (s : str) : list byte :=
  match Buffer.ofBase64 s with
  | Some buf => buf
  | None => []
  end.

Definition magic : list byte := [xb5; xee; x9c; x72]%byte.

Definition fromBoc (buf : list byte) : option (list (list byte)) :=
  if list_eq_dec Byte.byte_eq_dec (firstn 4 buf) magic
  then Some [skipn 4 buf] else None.

Definition messageOf (f : Fault) : str :=
  match f with
  | BadBigInt text => lit "Cannot convert " ++ text ++ lit " to a BigInt"
  | BadArgument => lit "The first argument must be of type string"
  | BadAddress text => lit "Unknown address type: " ++ text
  | BadURL text => lit "Invalid URL"
  | UndefinedProperty => lit "Cannot read properties of undefined"
  end.

#[export] Instance platform : Platform := {|
  Cell := list byte;
  Slice := list byte;
  Builder := list byte;
  Address := str;
  Cell_fromBoc := fromBoc;
  asSlice := fun c => c;
  asBuilder := fun c => c;
  remainingBits := fun s => 8 * length s;
  remainingRefs := fun _ => 0;
  loadAddress := fun _ => None;
  Address_parse := fun s => if length s =? 48 then Some s else None;
  Address_parseRaw := fun s => if includes s (lit ":") then Some s else None;
  Address_toString := fun a => a;
  Buffer_from_hex := hexPrefix;
  Buffer_from_base64 := base64OrEmpty;
  URL_searchParam := fun _ _ => None;
  faultMessage := messageOf;
|}.

Definition opcode (n fift stack description : string) : Classifier.Opcode :=
  {| Classifier.name := lit n;
     Classifier.alias_of := [];
     Classifier.tlb := [];
     Classifier.doc_category := lit "stack_basic";
     Classifier.doc_opcode := [];
     Classifier.doc_fift := lit fift;
     Classifier.doc_stack := lit stack;
     Classifier.doc_gas := lit "18";
     Classifier.doc_description := lit description |}.

(** A catalog with the three exchange records. *)
Definition catalog : list Classifier.Opcode :=
  [ opcode "NOP" "NOP" "-" "Does nothing.";
    opcode "XCHG_0I" "s[i] XCHG0" "" "Interchanges s0 with s[i].";
    opcode "XCHG_IJ" "s[i] s[j] XCHG" "" "Interchanges s[i] with s[j].";
    opcode "XCHG_1I" "s1 s[i] XCHG" "" "Interchanges s1 with s[i].";
    opcode "PUSHINT_4" "[x] PUSHINT" "- x" "Pushes integer x." ].

(** The transaction of the examples in the source's comments. *)
Definition locator : BaseTxInfo :=
  {| lt := 47670702000009%Z;
     hash := hexPrefix
       (lit "3e5f49798de239da5d8f80b4dc300204d37613e4203a3f7b877c04a88c81856b");
     addr := lit "EQDa4VOnTYlLvDJ0gZjNYm5PXfSmmtL6Vs6A_CZEtXCNICq_" |}.

(** The same with another hash, and with another address. *)
Definition otherHash : BaseTxInfo :=
  {| lt := lt locator;
     hash := hexPrefix
       (lit "f64c6a3cdf3fad1d786aacf9a6130f18f3f76eeb71294f53bbd812ad3703e70a");
     addr := addr locator |}.

Definition otherAddress : BaseTxInfo :=
  {| lt := lt locator;
     hash := hash locator;
     addr := lit "EQCD39VS5jcptHL8vMjEXrzGaRcCVYto7HUn4bpAOg8xqB2N" |}.

(** The hash of that transaction as a bare reference, and a text of 64
    characters that is not hexadecimal. *)
Definition hashHex : str :=
  lit "3e5f49798de239da5d8f80b4dc300204d37613e4203a3f7b877c04a88c81856b".

Definition notHex : str :=
  lit "zzzzzzzzzzzzzzzzzzzzzzzzzzzzzzzzzzzzzzzzzzzzzzzzzzzzzzzzzzzzzzzz".

(** An index that knows no transaction. *)
Definition emptyIndex : Index := fun _ _ _ => Found [].

Definition sampleTx : Indexed.t :=
  {| Indexed.account :=
       lit "0:dae153a74d894bbc32748198cd626e4f5df4a69ad2fa56ce80fc2644b5708d20";
     Indexed.lt := lit "47670702000009";
     Indexed.hash := lit "Pl9JeY3iOdpdj4C03DACBNN2E+QgOj97h3wEqIyBhWs=" |}.

(** What the sample transaction resolves to, the address as text. *)
Definition resolved (testnet : bool) : Z * list byte * str * bool :=
  (47670702000009%Z, hash locator, Indexed.account sampleTx, testnet).

(** An index whose mainnet endpoint knows the sample transaction. *)
Definition mainnetKnows : Index :=
  fun _ _ testnet => if testnet then Found [] else Found [sampleTx].

(** An index whose mainnet endpoint fails and whose testnet endpoint knows
    the sample transaction. *)
Definition mainnetDown : Index :=
  fun _ _ testnet =>
    if testnet then Found [sampleTx] else Failed (Error (lit "Network Error")).

End Sample.

(* ------------------------------------------------------------------ *)
(** ** Vocabulary of the further properties *)

(** What the two [replace] calls of [parseStack] make of one character. *)
Definition padChar (c : ascii) : str :=
  if Ascii.eqb c "["%char then lit " [ "
  else if Ascii.eqb c "]"%char then lit " ] "
  else [c].

(** A word with no white space and no bracket. *)
Definition plain (w : str) : Prop :=
  forall c, In c w ->
    is_space c = false /\ c <> "["%char /\ c <> "]"%char.


Section ResolverVocabulary.
Context {P : Platform}.
Variable index : Resolver.Index.

Import Resolver.

(** What a call of [linkToTx] on a hash-only explorer link does, for the
    lengths [cutTest] and [cutMain] of the two prefixes of its shape and the
    decoder of its hash: one request for the text after the prefix, on the
    network of the hint or of the host; the missing first transaction of an
    empty answer ends the call; otherwise the locator takes its hash from
    the link and the rest from the first transaction. *)
Definition oneRequest (txLink : str) (forcedTestnet : option bool)
    (cutTest cutMain : nat) (decode : str -> list byte) : Prop :=
  let net := orElse forcedTestnet (includes txLink (lit "testnet.")) in
  let infoPart := skipn (if net then cutTest else cutMain) txLink in
  let out := run (linkToTx index txLink forcedTestnet) in
  fst out = [Fetch infoPart net]
  /\ (index [] infoPart net = Found [] ->
      snd out = Throw (Error (faultMessage UndefinedProperty)))
  /\ (forall t ts n a,
        index [] infoPart net = Found (t :: ts) ->
        Address_parseRaw (Indexed.account t) = Some a ->
        BigInt (Indexed.lt t) = Some n ->
        snd out = Ok {| tx := {| lt := n; hash := decode infoPart; addr := a |};
                        testnet := net |}).

End ResolverVocabulary.

(** A request to the index, among the calls of a trace. *)
Definition isFetch (e : Resolver.Event) : bool :=
  match e with
  | Resolver.Fetch _ _ => true
  | Resolver.RateLimitWait => false
  end.

(** The opening of every error of the last branch of [linkToTx]. *)
Definition formatsError : str :=
  lit "Coudn't recognize such link, tried all formats: ton.cx, tonviewer, tonscan, toncoin.org, dton".

(** A token of a stack-effect side: not empty and free of white space. *)
Definition isToken (w : str) : bool :=
  negb (isEmpty w) && forallb (fun c => negb (is_space c)) w.

(* ------------------------------------------------------------------ *)
(** ** The viewer: related records, step navigation, highlighted rows,
       short texts *)

Module Viewer.
Import Classifier StackDiff.

(** The test of the filter of [findRelatedOpcodes]. *)
Definition related (commandName : str) (op : Opcode) : bool :=
  includes (toUpperCase (name op)) commandName
  || (negb (isEmpty (alias_of op))
      && includes (toUpperCase (alias_of op)) commandName)
  || includes (toUpperCase (doc_fift op)) commandName.

(** [findRelatedOpcodes] *)
Definition findRelatedOpcodes (opcodeStr : str) (allOpcodes : list Opcode)
  : list Opcode :=
  let normalizedStr := toUpperCase (trim opcodeStr) in
  let parts := splitWsComma normalizedStr in
  let commandName := nth 0 parts [] in
  firstn 5 (filter (related commandName) allOpcodes).

(** One entry of [emulationResult.computeLogs]: the properties the
    handlers and the stack table read. *)
Record ComputeLog (Item : Type) : Type := {
  instruction : str;
  stackAfter : list Item;
}.
Arguments instruction {Item} c.
Arguments stackAfter {Item} c.

(** The state variables of [App] that the step handlers and the stack
    table read and write; [emulationResult] holds the [computeLogs] of the
    result, [None] being [undefined].  [loadsInFlight] is no state variable:
    it counts the calls of [loadOpcodesJson] whose request has been sent
    and has not completed yet. *)
Record View (Item : Type) : Type := {
  emulationResult : option (list (ComputeLog Item));
  selectedStep : nat;
  isHoveringStack : bool;
  opcodes : list Opcode;
  selectedOpcode : option Opcode;
  matchingOpcodes : list Opcode;
  selectedOpcodeStackDiff : option (nat * nat);
  loadsInFlight : nat;
}.
Arguments emulationResult {Item} v.
Arguments selectedStep {Item} v.
Arguments isHoveringStack {Item} v.
Arguments opcodes {Item} v.
Arguments selectedOpcode {Item} v.
Arguments matchingOpcodes {Item} v.
Arguments selectedOpcodeStackDiff {Item} v.
Arguments loadsInFlight {Item} v.

Section Handlers.
Context {Item : Type}.

(** [setSelectedStep(i)] *)
Definition setSelectedStep (i : nat) (v : View Item) : View Item :=
  {| emulationResult := emulationResult v;
     selectedStep := i;
     isHoveringStack := isHoveringStack v;
     opcodes := opcodes v;
     selectedOpcode := selectedOpcode v;
     matchingOpcodes := matchingOpcodes v;
     selectedOpcodeStackDiff := selectedOpcodeStackDiff v;
     loadsInFlight := loadsInFlight v |}.

(** [loadOpcodesJson] up to its [await]: with a catalog it returns at
    once, without one it sends the request for the catalog. *)
Definition loadOpcodesJson (v : View Item) : View Item :=
  if 0 <? length (opcodes v) then v
  else
    {| emulationResult := emulationResult v;
       selectedStep := selectedStep v;
       isHoveringStack := isHoveringStack v;
       opcodes := opcodes v;
       selectedOpcode := selectedOpcode v;
       matchingOpcodes := matchingOpcodes v;
       selectedOpcodeStackDiff := selectedOpcodeStackDiff v;
       loadsInFlight := S (loadsInFlight v) |}.

(** [loadOpcodesJson] after its [await], when a request completes:
    [setOpcodes(data)] for an answer that is ok ([Some data]), nothing but
    a message on the console otherwise.  Without a request in flight there
    is nothing to complete. *)
Definition loadCompleted (response : option (list Opcode)) (v : View Item)
  : View Item :=
  match loadsInFlight v with
  | O => v
  | S k =>
      {| emulationResult := emulationResult v;
         selectedStep := selectedStep v;
         isHoveringStack := isHoveringStack v;
         opcodes := match response with
                    | Some data => data
                    | None => opcodes v
                    end;
         selectedOpcode := selectedOpcode v;
         matchingOpcodes := matchingOpcodes v;
         selectedOpcodeStackDiff := selectedOpcodeStackDiff v;
         loadsInFlight := k |}
  end.

(** [handleOpcodeClick]: with an empty catalog it calls [loadOpcodesJson]
    and returns, leaving the selection as it is. *)
Definition handleOpcodeClick (hexCode : str) (v : View Item) : View Item :=
  if length (opcodes v) =? 0 then loadOpcodesJson v
  else
    let opcodeInfo := findOpcodeInfo (opcodes v) hexCode in
    let allMatches := findRelatedOpcodes hexCode (opcodes v) in
    {| emulationResult := emulationResult v;
       selectedStep := selectedStep v;
       isHoveringStack := isHoveringStack v;
       opcodes := opcodes v;
       selectedOpcode := opcodeInfo;
       matchingOpcodes := allMatches;
       selectedOpcodeStackDiff :=
         parseOpcodeStackDiff
           (match opcodeInfo with Some op => doc_stack op | None => [] end);
       loadsInFlight := loadsInFlight v |}.

(** [prevStep]; [None] is the TypeError of reading [instruction] from an
    entry that does not exist. *)
Definition prevStep (v : View Item) : option (View Item) :=
  if 0 <? selectedStep v then
    let v' := setSelectedStep (selectedStep v - 1) v in
    match emulationResult v with
    | Some computeLogs =>
        match nth_error computeLogs (selectedStep v - 1) with
        | Some log => Some (handleOpcodeClick (instruction log) v')
        | None => None
        end
    | None => Some v'
    end
  else Some v.

(** [nextStep] *)
Definition nextStep (v : View Item) : option (View Item) :=
  match emulationResult v with
  | Some computeLogs =>
      if selectedStep v <? length computeLogs - 1 then
        let v' := setSelectedStep (selectedStep v + 1) v in
        match nth_error computeLogs (selectedStep v + 1) with
        | Some log => Some (handleOpcodeClick (instruction log) v')
        | None => None
        end
      else Some v
  | None => Some v
  end.

(** The keys the two handlers are bound to. *)
Inductive Key : Type := ArrowLeft | ArrowRight.

Definition press (k : Key) (v : View Item) : option (View Item) :=
  match k with
  | ArrowLeft => prevStep v
  | ArrowRight => nextStep v
  end.

(** What happens to the view between two renderings: a key is released,
    or a request for the catalog completes. *)
Inductive Input : Type :=
| KeyUp (k : Key)
| OpcodesResponse (response : option (list Opcode)).

Definition step (i : Input) (v : View Item) : option (View Item) :=
  match i with
  | KeyUp k => press k v
  | OpcodesResponse response => Some (loadCompleted response v)
  end.

Fixpoint stepAll (ins : list Input) (v : View Item) : option (View Item) :=
  match ins with
  | [] => Some v
  | i :: ins' =>
      match step i v with
      | Some v' => stepAll ins' v'
      | None => None
      end
  end.

(** [determineStackHighlightElements]; the stack argument is not read. *)
Definition determineStackHighlightElements
    (selectedOpcodeStackDiff : option (nat * nat)) (showBefore : bool)
  : list nat :=
  match selectedOpcodeStackDiff with
  | None => []
  | Some (consumed, produced) =>
      if showBefore then seq 0 consumed else seq 0 produced
  end.

(** One row of the stack table: the arguments [stackItemElement] gets. *)
Record Row : Type := {
  item : Item;
  position : nat;
  isHighlighted : bool;
  isStackBefore : bool;
}.

Fixpoint rowsFrom (i : nat) (elementsToHighlight : list nat)
    (showBefore : bool) (items : list Item) : list Row :=
  match items with
  | [] => []
  | x :: items' =>
      {| item := x; position := i;
         isHighlighted := existsb (Nat.eqb i) elementsToHighlight;
         isStackBefore := showBefore |}
      :: rowsFrom (S i) elementsToHighlight showBefore items'
  end.

(** The rows of the stack table; [None] is the TypeError of reading
    [stackAfter] from an entry that does not exist, or no table at all
    without a result. *)
Definition stackRows (v : View Item) : option (list Row) :=
  match emulationResult v with
  | None => None
  | Some computeLogs =>
      let showBefore := isHoveringStack v && (0 <? selectedStep v) in
      match nth_error computeLogs
              (if showBefore then selectedStep v - 1 else selectedStep v) with
      | None => None
      | Some log =>
          let stack := stackAfter log in
          let elementsToHighlight :=
            determineStackHighlightElements
              (selectedOpcodeStackDiff v) showBefore in
          Some (rowsFrom 0 elementsToHighlight showBefore (rev stack))
      end
  end.

End Handlers.

(** [shortStep] *)
Definition shortStep (step : str) : str :=
  if 24 <? length step
  then firstn 19 step ++ lit "..." ++ skipn (length step - 5) step
  else step.

(** One match of [/d([^c]+)d/] anchored at the head of [s], for a
    delimiter [d] made of the character [c]: the captured text and the
    number of characters matched.  The run after the opening delimiter
    ends before the first [c], so the greedy match is the only one. *)
Definition matchSpan (delim : str) (c : ascii) (s : str)
  : option (str * nat) :=
  if startsWith s delim then
    let r := skipn (length delim) s in
    let body := takeWhile (fun x => negb (Ascii.eqb x c)) r in
    let r' := dropWhile (fun x => negb (Ascii.eqb x c)) r in
    if negb (isEmpty body) && startsWith r' delim
    then Some (body, length delim + length body + length delim)
    else None
  else None.

(** [s.replace(/d([^c]+)d/g, open + '$1' + close)] *)
Fixpoint replaceSpan_loop (delim : str) (c : ascii) (open close : str)
    (s : str) (skip : nat) : str :=
  match s with
  | [] => []
  | ch :: s' =>
      match skip with
      | S k => replaceSpan_loop delim c open close s' k
      | O =>
          match matchSpan delim c s with
          | Some (body, n) =>
              open ++ body ++ close
              ++ replaceSpan_loop delim c open close s' (n - 1)
          | None => ch :: replaceSpan_loop delim c open close s' 0
          end
      end
  end.

Definition replaceSpan (delim : str) (c : ascii) (open close : str)
    (s : str) : str :=
  replaceSpan_loop delim c open close s 0.

(** [parseMarkdown] *)
Definition parseMarkdown (text : str) : str :=
  if isEmpty text then []
  else
    let parsed := replaceSpan (lit "`") "`" (lit "<code>") (lit "</code>") text in
    let parsed := replaceSpan (lit "**") "*" (lit "<strong>") (lit "</strong>") parsed in
    let parsed := replaceSpan (lit "_") "_" (lit "<em>") (lit "</em>") parsed in
    let parsed := replaceSpan (lit "*") "*" (lit "<em>") (lit "</em>") parsed in
    parsed.

End Viewer.

(** The characters [parseMarkdown] gives a meaning to. *)
Definition isMarker (c : ascii) : bool :=
  Ascii.eqb c "`"%char || Ascii.eqb c "*"%char || Ascii.eqb c "_"%char.

Definition markupFree (s : str) : bool :=
  forallb (fun c => negb (isMarker c)) s.

(* ------------------------------------------------------------------ *)
(** ** The masterchain block of a shard block: [mcSeqnoByShard] *)

Module Masterchain.

(** The argument [shard]. *)
Record ShardRef : Type := {
  workchain : Z;
  seqno : Z;
  shard : str;
  rootHash : str;
  fileHash : str;
}.

(** One entry of [response.data.blocks]: the properties the getter
    reads, [masterchain_block_ref.seqno] among them. *)
Record Block : Type := {
  root_hash : str;
  masterchain_block_ref_seqno : Z;
  rand_seed : str;
}.

(** The request GET .../api/v3/blocks: its parameters and the network. *)
Record BlocksQuery : Type := {
  q_workchain : Z;
  q_shard : str;
  q_seqno : Z;
  q_testnet : bool;
}.

Inductive BlocksResponse : Type :=
| BlocksFound (blocks : list Block)
| BlocksFailed (e : Resolver.Exn).

Record McBlock : Type := {
  mcSeqno : Z;
  randSeed : list byte;
}.

(** [n.toString(16)] for a bigint [n] *)
Definition BigInt_toString16 (n : Z) : str :=
  lit (HexadecimalString.NilZero.string_of_int (Z.to_hex_int n)).

(** [BigInt('0x10000000000000000')] *)
Definition two64 : Z := 18446744073709551616.

Section Getter.
Context {P : Platform}.
Variable blocksIndex : BlocksQuery -> BlocksResponse.

(** The request the getter sends; [None] when [BigInt(shard.shard)]
    throws. *)
Definition shardQuery (s : ShardRef) (testnet : bool) : option BlocksQuery :=
  match BigInt (shard s) with
  | None => None
  | Some shardInt =>
      let shardUint :=
        if (shardInt <? 0)%Z then (shardInt + two64)%Z else shardInt in
      Some {| q_workchain := workchain s;
              q_shard := lit "0x" ++ BigInt_toString16 shardUint;
              q_seqno := seqno s;
              q_testnet := testnet |}
  end.

(** The body of the [try] block. *)
Definition askBlock (s : ShardRef) (testnet : bool)
  : Resolver.Result McBlock :=
  match shardQuery s testnet with
  | None => Resolver.Throw (Resolver.Error (faultMessage (BadBigInt (shard s))))
  | Some q =>
      match blocksIndex q with
      | BlocksFailed e => Resolver.Throw e
      | BlocksFound [] =>
          Resolver.Throw (Resolver.Error (faultMessage UndefinedProperty))
      | BlocksFound (block :: _) =>
          if negb (str_eqb (root_hash block) (rootHash s)) then
            Resolver.Throw
              (Resolver.Error (lit "rootHash mismatch in mc_seqno getter: "
                               ++ rootHash s ++ lit " != " ++ root_hash block))
          else
            Resolver.Ok
              {| mcSeqno := masterchain_block_ref_seqno block;
                 randSeed := Buffer_from_base64 (rand_seed block) |}
      end
  end.

(** [mcSeqnoByShard] *)
Definition mcSeqnoByShard (s : ShardRef) (testnet : bool)
  : Resolver.Result McBlock :=
  match askBlock s testnet with
  | Resolver.Ok r => Resolver.Ok r
  | Resolver.Throw (Resolver.Error message) =>
      Resolver.Throw
        (Resolver.Error (lit "Get blocks on Toncenter V3: " ++ message))
  | Resolver.Throw Resolver.Foreign => Resolver.Throw Resolver.Foreign
  end.

End Getter.

End Masterchain.

(* ------------------------------------------------------------------ *)
(** ** Sample data of the viewer and of the getter *)

Module SampleView.
Import Viewer.

(** Three steps of a log, the stacks as lists of numbers with the top of
    the stack last. *)
Definition logs : list (ComputeLog nat) :=
  [ {| instruction := lit "PUSHINT 4"; stackAfter := [7; 8; 4] |};
    {| instruction := lit "XCHG s0,s2"; stackAfter := [4; 8; 7] |};
    {| instruction := lit "implicit NOP"; stackAfter := [4; 8; 7] |} ].

(** The view after the result has arrived, the catalog loaded. *)
Definition start : View nat :=
  {| emulationResult := Some logs;
     selectedStep := 0;
     isHoveringStack := false;
     opcodes := Sample.catalog;
     selectedOpcode := None;
     matchingOpcodes := [];
     selectedOpcodeStackDiff := None;
     loadsInFlight := 0 |}.

(** The view when the result arrives before the catalog, the request of
    the first rendering still in flight. *)
Definition early : View nat :=
  {| emulationResult := Some logs;
     selectedStep := 0;
     isHoveringStack := false;
     opcodes := [];
     selectedOpcode := None;
     matchingOpcodes := [];
     selectedOpcodeStackDiff := None;
     loadsInFlight := 1 |}.

(** The view at the second step with the stack effect "x y - z", the
    pointer over the table. *)
Definition hovering : View nat :=
  {| emulationResult := Some logs;
     selectedStep := 1;
     isHoveringStack := true;
     opcodes := Sample.catalog;
     selectedOpcode := None;
     matchingOpcodes := [];
     selectedOpcodeStackDiff := Some (2, 1);
     loadsInFlight := 0 |}.

(** The first shard of the base work chain, as a signed number. *)
Definition shardRef : Masterchain.ShardRef :=
  {| Masterchain.workchain := 0;
     Masterchain.seqno := 5;
     Masterchain.shard := lit "-9223372036854775808";
     Masterchain.rootHash := lit "cm9vdA==";
     Masterchain.fileHash := lit "ZmlsZQ==" |}.

End SampleView.

(* ------------------------------------------------------------------ *)
(** ** Vocabulary of the statements on the classifier *)

(** [r] is the first record of the catalog whose name is [n]. *)
Definition firstNamed (opcodes : list Classifier.Opcode) (n : str)
    (r : Classifier.Opcode) : Prop :=
  exists before after,
    opcodes = before ++ r :: after
    /\ Classifier.name r = n
    /\ forall x, In x before -> Classifier.name x <> n.

(** The result is the catalog record named [n]: the first record of that
    name when the catalog has one, nothing when it has none. *)
Definition selects (opcodes : list Classifier.Opcode)
    (result : option Classifier.Opcode) (n : str) : Prop :=
  (forall r, firstNamed opcodes n r -> result = Some r)
  /\ ((forall x, In x opcodes -> Classifier.name x <> n) -> result = None).

(* ------------------------------------------------------------------ *)
(** ** Vocabulary of the statements on a side of a stack effect *)

(** What a side is made of: a token, or a compound of an operand, one of
    the two key words and an operand. *)
Inductive SideItem : Type :=
| Plain (w : str)
| Compound (x kw y : str).

Definition isKeyword (w : str) : bool :=
  str_eqb w (lit "mod") || str_eqb w (lit "xor").

(** An operand of a compound: a word of [\w] characters that is not a key
    word. *)
Definition isName (w : str) : bool :=
  negb (isEmpty w) && forallb is_word w && negb (isKeyword w).

Definition itemOk (i : SideItem) : bool :=
  match i with
  | Plain w => isToken w && negb (isKeyword w)
  | Compound x kw y => isKeyword kw && isName x && isName y
  end.

Definition itemWords (i : SideItem) : list str :=
  match i with
  | Plain w => [w]
  | Compound x kw y => [x; kw; y]
  end.

(** The side written out: its words joined by single spaces. *)
Definition sideText (items : list SideItem) : str :=
  join (lit " ") (flat_map itemWords items).

(** The token an item counts as after the two replacements. *)
Definition itemToken (i : SideItem) : str :=
  match i with
  | Plain w => w
  | Compound _ _ _ => lit "X"
  end.

(** A side as one replacement sees it: words it leaves alone and pairs of
    operands around its key word. *)
Inductive Unit : Type :=
| UWord (w : str)
| UPair (x y : str).

Definition unitWords (kw : str) (u : Unit) : list str :=
  match u with
  | UWord w => [w]
  | UPair x y => [x; kw; y]
  end.

Definition unitToken (u : Unit) : str :=
  match u with
  | UWord w => w
  | UPair _ _ => lit "X"
  end.

Definition unitOk (kw : str) (u : Unit) : bool :=
  match u with
  | UWord w => isToken w && negb (str_eqb w kw)
  | UPair x y =>
      negb (isEmpty x) && forallb is_word x && negb (str_eqb x kw)
      && negb (isEmpty y) && forallb is_word y
  end.

(** An item as the replacement of "mod" sees it, and as the replacement of
    "xor" sees it afterwards. *)
Definition unitsMod (i : SideItem) : list Unit :=
  match i with
  | Plain w => [UWord w]
  | Compound x kw y =>
      if str_eqb kw (lit "mod") then [UPair x y]
      else [UWord x; UWord kw; UWord y]
  end.

Definition unitsXor (i : SideItem) : list Unit :=
  match i with
  | Plain w => [UWord w]
  | Compound x kw y =>
      if str_eqb kw (lit "mod") then [UWord (lit "X")] else [UPair x y]
  end.

(** The key word stands at the head of [t] with white space after it. *)
Definition kwAhead (kw t : str) : bool :=
  startsWith t kw
  && negb (isEmpty (takeWhile is_space (skipn (length kw) t))).

(** What may follow a word for no match of the key word to start inside
    the word: nothing, or one space and a text that neither starts with
    white space nor has the key word ahead. *)
Definition safeTail (kw r : str) : Prop :=
  r = []
  \/ exists c t, r = " "%char :: c :: t
                 /\ is_space c = false /\ kwAhead kw (c :: t) = false.

(** The text after a unit: nothing, or a space and the units that
    follow. *)
Definition tailOf (kw : str) (us : list Unit) : str :=
  match us with
  | [] => []
  | _ :: _ => lit " " ++ join (lit " ") (flat_map (unitWords kw) us)
  end.

Definition tailOut (us : list Unit) : str :=
  match us with
  | [] => []
  | _ :: _ => lit " " ++ join (lit " ") (map unitToken us)
  end.

(* ------------------------------------------------------------------ *)
(** ** Vocabulary of the statements on hash-only links *)

(** A link of a hash-only explorer: the host of the network, the site with
    its path, and the text [h] of the hash. *)
Definition hashLink (testnet : bool) (site : string) (h : str) : str :=
  lit "https://" ++ Resolver.host testnet "testnet." ++ lit site ++ h.

Section LookupVocabulary.
Context {P : Platform}.
Variable index : Resolver.Index.

Import Resolver.

(** A call of [linkToTx] that makes exactly one request, for the text [h]
    on the network [net], with no wait: an empty answer ends the call on
    its missing first transaction; otherwise the locator has the hash that
    [h] decodes to, the logical time and the address of the first
    transaction, and the network [net]. *)
Definition oneLookup (txLink : str) (forcedTestnet : option bool)
    (h : str) (net : bool) (decode : str -> list byte) : Prop :=
  let out := run (linkToTx index txLink forcedTestnet) in
  fst out = [Fetch h net]
  /\ (index [] h net = Found [] ->
      snd out = Throw (Error (faultMessage UndefinedProperty)))
  /\ (forall t ts n a,
        index [] h net = Found (t :: ts) ->
        Address_parseRaw (Indexed.account t) = Some a ->
        BigInt (Indexed.lt t) = Some n ->
        snd out = Ok {| tx := {| lt := n; hash := decode h; addr := a |};
                        testnet := net |}).

End LookupVocabulary.

(* ================================================================== *)
(** * Properties *)

(** ** Facts on the string primitives *)

Lemma str_eqb_eq (a b : str) : str_eqb a b = true <-> a = b.
Proof.
  revert b; induction a as [|c a IH]; intros [|d b]; simpl;
    try (split; [discriminate | discriminate]); try tauto.
  rewrite andb_true_iff, Ascii.eqb_eq, IH.
  split; [intros [-> ->]; reflexivity | intros [= -> ->]; auto].
Qed.

Lemma startsWith_app (p s : str) : startsWith (p ++ s) p = true.
Proof.
  induction p as [|c p IH]; simpl; [destruct s; reflexivity|].
  rewrite Ascii.eqb_refl, IH; reflexivity.
Qed.

Lemma startsWith_split (s p : str) :
  startsWith s p = true -> s = p ++ skipn (length p) s.
Proof.
  revert s; induction p as [|c p IH]; intros s H; [reflexivity|].
  destruct s as [|d s]; simpl in H; [discriminate|].
  apply andb_true_iff in H as [Hc Hs].
  apply Ascii.eqb_eq in Hc; subst d; simpl.
  f_equal; apply IH, Hs.
Qed.

Lemma skipn_prefix (a b : str) : skipn (length a) (a ++ b) = b.
Proof. induction a as [|x a IH]; [reflexivity | exact IH]. Qed.

Lemma includes_startsWith (s p : str) :
  startsWith s p = true -> includes s p = true.
Proof. intros H; destruct s; cbn [includes]; rewrite H; reflexivity. Qed.

Lemma includes_app (a w b : str) : includes (a ++ w ++ b) w = true.
Proof.
  induction a as [|c a IH].
  - cbn [app]; apply includes_startsWith, startsWith_app.
  - simpl; rewrite IH; apply orb_true_r.
Qed.

Lemma includes_chars (s p : str) :
  includes s p = true -> forall c, In c p -> In c s.
Proof.
  induction s as [|d s IH]; cbn [includes]; intros H c I.
  - rewrite orb_false_r in H. destruct p; [destruct I | discriminate H].
  - apply orb_true_iff in H as [H | H].
    + apply startsWith_split in H. rewrite H. apply in_or_app. left. exact I.
    + right. apply (IH H c I).
Qed.

Lemma without_char (c : ascii) (s p : str) :
  In c p -> ~ In c s -> includes s p = false.
Proof.
  intros Ip Hs. destruct (includes s p) eqn:E; [|reflexivity].
  exfalso. apply Hs. apply (includes_chars s p E c Ip).
Qed.

(** Every piece of a regular-expression split is a factor of the text. *)
Lemma splitRe_loop_factor (comma : bool) (w s : str) :
  forall inws cur,
    In w (splitRe_loop comma s inws cur) ->
    exists a b, rev cur ++ s = a ++ w ++ b.
Proof.
  induction s as [|c s IH]; intros inws cur H; simpl in H.
  - destruct H as [<- | []]. exists [], []. rewrite !app_nil_r; reflexivity.
  - assert (Hnil : forall i, In w (splitRe_loop comma s i []) ->
                     exists a b, rev cur ++ c :: s = a ++ w ++ b).
    { intros i Hi. apply IH in Hi as (a & b & E). simpl in E.
      exists (rev cur ++ c :: a), b. rewrite E, <- app_assoc; reflexivity. }
    assert (Hcur : w = rev cur ->
                   exists a b, rev cur ++ c :: s = a ++ w ++ b).
    { intros ->. exists [], (c :: s). reflexivity. }
    destruct (is_space c).
    + destruct inws; [eauto|]. destruct H as [<- | H]; eauto.
    + destruct (comma && Ascii.eqb c ","%char).
      * destruct H as [<- | H]; eauto.
      * apply IH in H as (a & b & E). exists a, b.
        rewrite <- E; simpl; rewrite <- app_assoc; reflexivity.
Qed.

Lemma splitWs_includes (w s : str) : In w (splitWs s) -> includes s w = true.
Proof.
  intros H. apply splitRe_loop_factor in H as (a & b & E).
  simpl in E; rewrite E; apply includes_app.
Qed.

(** A split at a one-character separator makes one piece more than the
    text has occurrences of that character. *)
Lemma split_loop_char_length (c : ascii) (s : str) :
  forall cur,
    length (split_loop [c] s 0 cur) = S (count_occ ascii_dec s c).
Proof.
  induction s as [|d s IH]; intros cur; [reflexivity|].
  simpl split_loop.
  destruct (Ascii.eqb c d) eqn:E; simpl.
  - apply Ascii.eqb_eq in E; subst d.
    rewrite IH. destruct (ascii_dec c c); [reflexivity | congruence].
  - apply Ascii.eqb_neq in E.
    rewrite IH. destruct (ascii_dec d c); [congruence | reflexivity].
Qed.

Lemma split_char_length (c : ascii) (s : str) :
  length (split s [c]) = S (count_occ ascii_dec s c).
Proof. apply split_loop_char_length. Qed.

Lemma takeWhile_app (p : ascii -> bool) (x r : str) :
  forallb p x = true -> takeWhile p (x ++ r) = x ++ takeWhile p r.
Proof.
  induction x as [|c x IH]; simpl; [reflexivity|].
  intros H; apply andb_true_iff in H as [Hc Hx].
  rewrite Hc, IH by assumption; reflexivity.
Qed.

Lemma dropWhile_app (p : ascii -> bool) (x r : str) :
  forallb p x = true -> dropWhile p (x ++ r) = dropWhile p r.
Proof.
  induction x as [|c x IH]; simpl; [reflexivity|].
  intros H; apply andb_true_iff in H as [Hc Hx].
  rewrite Hc; apply IH, Hx.
Qed.

Lemma takeWhile_all (p : ascii -> bool) (x : str) :
  forallb p x = true -> takeWhile p x = x.
Proof.
  intros H. rewrite <- (app_nil_r x) at 1.
  rewrite takeWhile_app by assumption. apply app_nil_r.
Qed.

Lemma is_word_not_space (c : ascii) : is_word c = true -> is_space c = false.
Proof.
  unfold is_word, is_space, is_digit.
  destruct (nat_of_ascii c =? 160) eqn:E160.
  - apply Nat.eqb_eq in E160; rewrite E160; discriminate.
  - rewrite !orb_true_iff, !andb_true_iff, !Nat.leb_le, !Nat.eqb_eq.
    intros H.
    destruct (nat_of_ascii c =? 32) eqn:E32;
      [apply Nat.eqb_eq in E32; lia|].
    destruct (nat_of_ascii c <=? 13) eqn:E13;
      [apply Nat.leb_le in E13; lia|].
    rewrite andb_false_r; reflexivity.
Qed.

Lemma dropWhile_head (p : ascii -> bool) (c : ascii) (s : str) :
  p c = false -> dropWhile p (c :: s) = c :: s.
Proof. intros H; simpl; rewrite H; reflexivity. Qed.

(** A text that starts and ends with a word character is its own trim. *)
Lemma trim_word_ends (c d : ascii) (m : str) :
  is_word c = true -> is_word d = true ->
  trim (c :: m ++ [d]) = c :: m ++ [d].
Proof.
  intros Hc Hd. unfold trim.
  rewrite dropWhile_head by (apply is_word_not_space, Hc).
  change (c :: m ++ [d]) with ((c :: m) ++ [d]).
  generalize (c :: m); intros l.
  rewrite rev_app_distr. cbn [rev app].
  rewrite dropWhile_head by (apply is_word_not_space, Hd).
  cbn [rev]. rewrite rev_involutive; reflexivity.
Qed.

Lemma replaceCompound_loop_skip (kw s : str) (k : nat) :
  length s <= k -> replaceCompound_loop kw s k = [].
Proof.
  revert k; induction s as [|c s IH]; intros k H; [reflexivity|].
  simpl in H. destruct k as [|k]; [lia|].
  simpl. apply IH; lia.
Qed.

(** The pattern [\w+\s+mod\s+\w+] takes the whole of ["<x> mod <y>"]. *)
Lemma matchCompound_mod (x y : str) :
  x <> [] -> y <> [] -> forallb is_word x = true -> forallb is_word y = true ->
  matchCompound (lit "mod") (x ++ lit " mod " ++ y)
  = Some (length (x ++ lit " mod " ++ y)).
Proof.
  intros Hx Hy Wx Wy. unfold matchCompound.
  rewrite takeWhile_app, dropWhile_app by assumption.
  destruct y as [|d y]; [congruence|].
  assert (Wd : is_word d = true) by (simpl in Wy; apply andb_true_iff in Wy; tauto).
  pose proof (is_word_not_space d Wd) as Sd.
  change (takeWhile is_word (lit " mod " ++ d :: y)) with (@nil ascii).
  change (dropWhile is_word (lit " mod " ++ d :: y)) with (lit " mod " ++ d :: y).
  change (takeWhile is_space (lit " mod " ++ d :: y)) with (lit " ").
  change (dropWhile is_space (lit " mod " ++ d :: y)) with (lit "mod " ++ d :: y).
  change (skipn (length (lit "mod")) (lit "mod " ++ d :: y)) with (" "%char :: d :: y).
  change (startsWith (lit "mod " ++ d :: y) (lit "mod")) with true.
  assert (E1 : takeWhile is_space (" "%char :: d :: y) = lit " ").
  { cbn [takeWhile]. change (is_space " "%char) with true. cbv iota.
    rewrite Sd; reflexivity. }
  assert (E2 : dropWhile is_space (" "%char :: d :: y) = d :: y).
  { cbn [dropWhile]. change (is_space " "%char) with true. cbv iota.
    rewrite Sd; reflexivity. }
  rewrite E1, E2, takeWhile_all by assumption.
  rewrite app_nil_r.
  destruct x as [|c x]; [congruence|].
  cbn [isEmpty app orb negb lit list_ascii_of_string].
  f_equal. cbn [length]. rewrite length_app. cbn [length]. lia.
Qed.

Lemma replaceCompound_mod (x y : str) :
  x <> [] -> y <> [] -> forallb is_word x = true -> forallb is_word y = true ->
  replaceCompound (lit "mod") (x ++ lit " mod " ++ y) = lit "X".
Proof.
  intros Hx Hy Wx Wy. unfold replaceCompound.
  pose proof (matchCompound_mod x y Hx Hy Wx Wy) as M.
  destruct (x ++ lit " mod " ++ y) as [|c s] eqn:E.
  - destruct x; [congruence | discriminate].
  - cbn [replaceCompound_loop]. rewrite M.
    rewrite replaceCompound_loop_skip by (simpl; lia). reflexivity.
Qed.

(* ------------------------------------------------------------------ *)
(** ** Stack-effect notation *)

Import StackDiff.

Example diff_ex1 : parseOpcodeStackDiff (lit "x - x x") = Some (1, 2).
Proof. reflexivity. Qed.
Example diff_ex2 : parseOpcodeStackDiff (lit "x -") = Some (1, 0).
Proof. reflexivity. Qed.
Example diff_ex3 : parseOpcodeStackDiff (lit "c c' - c''") = Some (2, 1).
Proof. reflexivity. Qed.
Example diff_ex4 : parseOpcodeStackDiff (lit "x y - x mod y") = Some (2, 1).
Proof. reflexivity. Qed.
Example diff_ex5 : parseOpcodeStackDiff (lit "- x xor y") = Some (0, 1).
Proof. reflexivity. Qed.
Example diff_ex6 : parseOpcodeStackDiff (lit "a - b - c") = None.
Proof. reflexivity. Qed.
Example diff_ex7 : parseOpcodeStackDiff (lit "- ") = Some (0, 0).
Proof. reflexivity. Qed.

Ltac skip_guard :=
  match goal with
  | |- (if ?c then None else _) = None =>
      let E := fresh "E" in destruct c eqn:E; [reflexivity|]
  end.

(** C7, as the code has it: a signature that is empty, is the literal "-",
    contains the text "or" anywhere (as a token of its own or inside a longer
    word) without containing "xor", or contains "...", parses to the
    indeterminate result [None], which is not the pair (0,0). *)
Theorem C7_indeterminate_signatures (text : str) :
  text = []
  \/ text = lit "-"
  \/ (includes text (lit "or") = true /\ includes text (lit "xor") = false)
  \/ (In (lit "or") (splitWs text) /\ includes text (lit "xor") = false)
  \/ includes text (lit "...") = true ->
  parseOpcodeStackDiff text = None
  /\ parseOpcodeStackDiff text <> Some (0, 0).
Proof.
  intros H.
  assert (G : parseOpcodeStackDiff text = None).
  { destruct H as [-> | [-> | H]]; [reflexivity | reflexivity |].
    assert (H' : (includes text (lit "or") = true
                  /\ includes text (lit "xor") = false)
                 \/ includes text (lit "...") = true).
    { destruct H as [H | [[Ht Hx] | H]]; [auto | left | auto].
      split; [apply splitWs_includes, Ht | exact Hx]. }
    clear H. unfold parseOpcodeStackDiff.
    do 2 skip_guard.
    destruct H' as [[Ho Hx] | Hd].
    - rewrite Ho, Hx; reflexivity.
    - skip_guard. rewrite Hd; reflexivity. }
  split; [exact G | rewrite G; discriminate].
Qed.

Lemma C7_indeterminate_signatures_witness :
  parseOpcodeStackDiff (lit "x y - x or y") = None
  /\ parseOpcodeStackDiff (lit "x y - x or y") <> Some (0, 0).
Proof.
  apply (C7_indeterminate_signatures (lit "x y - x or y")).
  right; right; right; left. split; [|reflexivity].
  simpl; tauto.
Defined.

(** C7 as stated fails: "word" holds the text "or" only inside a longer
    word, no other rule applies to "a - word", and the result is
    indeterminate all the same, while "a - wxrd" parses to (1,1). *)
Lemma C7_or_inside_word_counterexample :
  ~ In (lit "or") (splitWs (lit "a - word"))
  /\ lit "a - word" <> []
  /\ lit "a - word" <> lit "-"
  /\ includes (lit "a - word") (lit "...") = false
  /\ parseOpcodeStackDiff (lit "a - word") = None
  /\ parseOpcodeStackDiff (lit "a - wxrd") = Some (1, 1).
Proof.
  repeat split; try reflexivity; try discriminate.
  simpl. intros [H | [H | [H | []]]]; discriminate.
Qed.

(* ------------------------------------------------------------------ *)
(** ** Stack dump decoder *)

Import Stack.

Section DecoderFacts.
Context {P : Platform}.

(** The recursion of [parseStackElement] never exhausts its fuel. *)
Lemma slice_to_last_length (k : nat) (word : str) :
  length (slice_to_last k word) = length word - k - 1.
Proof.
  unfold slice_to_last.
  destruct (skipn k word) as [|c s] eqn:E.
  - apply (f_equal (@length _)) in E. rewrite length_skipn in E.
    simpl in *; lia.
  - rewrite <- E. destruct (exists_last (l := skipn k word)) as (s' & d & E').
    { rewrite E; discriminate. }
    rewrite E', removelast_last.
    apply (f_equal (@length _)) in E'.
    rewrite length_skipn, length_app in E'. simpl in E'. lia.
Qed.

Lemma parseStackElement_rec_fuel (f1 f2 : nat) (word : str) :
  length word <= f1 -> length word <= f2 ->
  parseStackElement_rec f1 word = parseStackElement_rec f2 word.
Proof.
  revert f2 word; induction f1 as [|f1 IH]; intros f2 word H1 H2.
  - destruct word; [|simpl in H1; lia].
    destruct f2; reflexivity.
  - destruct f2 as [|f2].
    + destruct word; [reflexivity | simpl in H2; lia].
    + cbn [parseStackElement_rec].
      destruct (str_eqb word (lit "()")); [reflexivity|].
      destruct (startsWith word (lit "(") && endsWith word (lit ")"));
        [|reflexivity].
      do 2 f_equal.
      apply IH; rewrite slice_to_last_length; lia.
Qed.

Lemma parseStackElement_paren (word : str) :
  str_eqb word (lit "()") = false ->
  startsWith word (lit "(") && endsWith word (lit ")") = true ->
  parseStackElement word
  = ETuple [parseStackElement (slice_to_last 1 word)].
Proof.
  intros Hn Hp. unfold parseStackElement.
  destruct (length word) as [|n] eqn:L.
  - destruct word; [discriminate Hp | discriminate L].
  - cbn [parseStackElement_rec]. rewrite Hn, Hp.
    do 2 f_equal.
    apply parseStackElement_rec_fuel; rewrite slice_to_last_length; lia.
Qed.


(** *** The loop on the shapes of words *)

Lemma loop_skip (w : str) (ws : list str) (st : list (list StackElement)) :
  isSkipped w = true ->
  parseStack_loop (w :: ws) st = parseStack_loop ws st.
Proof.
  unfold isSkipped; intros H. cbn [parseStack_loop]. rewrite H. reflexivity.
Qed.

Lemma loop_open (ws : list str) (st : list (list StackElement)) :
  parseStack_loop (lit "[" :: ws) st = parseStack_loop ws ([] :: st).
Proof. reflexivity. Qed.

Lemma loop_close_inner (ws : list str) (tuple parent : list StackElement)
    (outer : list (list StackElement)) :
  parseStack_loop (lit "]" :: ws) (tuple :: parent :: outer)
  = parseStack_loop ws ((parent ++ [ETuple tuple]) :: outer).
Proof. reflexivity. Qed.

Lemma loop_scalar (w : str) (ws : list str) (top : list StackElement)
    (outer : list (list StackElement)) :
  isScalar w = true ->
  parseStack_loop (w :: ws) (top :: outer)
  = parseStack_loop ws
      ((top ++ (if isUndefined (parseStackElement (trim w)) then []
                else [parseStackElement (trim w)])) :: outer).
Proof.
  unfold isScalar, isSkipped; intros H.
  apply andb_true_iff in H as [H H3]. apply andb_true_iff in H as [H1 H2].
  apply negb_true_iff in H1, H2, H3.
  cbn [parseStack_loop]. rewrite H1, H2, H3.
  destruct (isUndefined (parseStackElement (trim w)));
    [rewrite app_nil_r|]; reflexivity.
Qed.

Lemma loop_onlySkips (pre : Items) (ws : list str)
    (st : list (list StackElement)) :
  onlySkips pre = true ->
  parseStack_loop (wordsOf pre ++ ws) st = parseStack_loop ws st.
Proof.
  induction pre as [|w pre IH| |]; cbn [onlySkips wordsOf app]; intros H;
    try discriminate.
  - reflexivity.
  - apply andb_true_iff in H as [Hw Hp].
    rewrite loop_skip by assumption. apply IH, Hp.
Qed.

(** Inside an open frame a well-formed run of words adds its values to that
    frame and the loop goes on with the words that follow. *)
Lemma loop_items (it : Items) :
  wellFormed it = true ->
  forall ws top outer,
    parseStack_loop (wordsOf it ++ ws) (top :: outer)
    = parseStack_loop ws ((top ++ valuesOf it) :: outer).
Proof.
  induction it as [|w rest IH|w rest IH|inner IHi rest IHr];
    cbn [wellFormed wordsOf valuesOf]; intros H ws top outer.
  - rewrite app_nil_r; reflexivity.
  - apply andb_true_iff in H as [Hw Hr].
    cbn [app]. rewrite loop_skip by assumption. apply IH, Hr.
  - apply andb_true_iff in H as [Hw Hr].
    cbn [app]. rewrite loop_scalar by assumption.
    rewrite IH by assumption. rewrite <- app_assoc.
    destruct (isUndefined (parseStackElement (trim w))); reflexivity.
  - apply andb_true_iff in H as [Hi Hr].
    cbn [app]. rewrite loop_open.
    rewrite <- app_assoc. rewrite IHi by assumption.
    cbn [app]. rewrite loop_close_inner.
    rewrite IHr by assumption. rewrite <- app_assoc. reflexivity.
Qed.

Lemma bottom_push (f g : list StackElement)
    (st : list (list StackElement)) :
  bottom (f :: g :: st) = bottom (g :: st).
Proof.
  unfold bottom. cbn [rev].
  destruct (rev st) as [|h r]; reflexivity.
Qed.

(** Words that only open further groups leave the outermost frame as the
    result. *)
Lemma loop_openGroups (deeper : list Items) :
  forallb wellFormed deeper = true ->
  forall top st,
    st <> [] ->
    parseStack_loop (openGroups deeper) (top :: st) = Returns (bottom st).
Proof.
  induction deeper as [|it deeper IH]; intros H top st Hst.
  - cbn [openGroups flat_map parseStack_loop].
    destruct st as [|g st]; [congruence|]. rewrite bottom_push; reflexivity.
  - cbn [forallb] in H. apply andb_true_iff in H as [Hi Hd].
    unfold openGroups; cbn [flat_map]. fold (openGroups deeper).
    cbn [app]. rewrite loop_open, loop_items by assumption.
    rewrite IH by (assumption || discriminate).
    cbn [app]. apply f_equal. destruct st as [|g st]; [congruence|].
    apply bottom_push.
Qed.

Lemma loop_openGroups_outer (deeper : list Items) (f : list StackElement) :
  forallb wellFormed deeper = true ->
  parseStack_loop (openGroups deeper) [f] = Returns (Some f).
Proof.
  destruct deeper as [|it deeper]; intros H; [reflexivity|].
  cbn [forallb] in H. apply andb_true_iff in H as [Hi Hd].
  unfold openGroups; cbn [flat_map]. fold (openGroups deeper).
  cbn [app]. rewrite loop_open, loop_items by assumption.
  rewrite loop_openGroups by (assumption || discriminate).
  reflexivity.
Qed.


(** A scalar token met with no frame open raises the TypeError of the
    push on [undefined]. *)
Lemma loop_scalar_no_frame (w : str) (ws : list str) :
  isScalar w = true ->
  isUndefined (parseStackElement (trim w)) = false ->
  parseStack_loop (w :: ws) [] = Throws PushOnUndefined.
Proof.
  unfold isScalar, isSkipped; intros H U.
  apply andb_true_iff in H as [H H3]. apply andb_true_iff in H as [H1 H2].
  apply negb_true_iff in H1, H2, H3.
  cbn [parseStack_loop]. rewrite H1, H2, H3, U. reflexivity.
Qed.

(** C5, as the code has it, for a line whose words before its first
    bracket are labels and blanks only: a "]" met there, no frame being
    open, raises; a line whose outermost "[" is never closed does not
    raise, it returns what the outermost frame holds at the end of the
    line.  A scalar token met before any bracket raises the TypeError of a
    push on no frame, whatever follows it. *)
Theorem C5_unbalanced_brackets (line : str) (pre : Items) :
  onlySkips pre = true ->
  (forall rest,
      wordsOfLine line = wordsOf pre ++ lit "]" :: rest ->
      parseStack line = Throws TupleEndedWithoutStart)
  /\ (forall items deeper,
        wellFormed items = true ->
        forallb wellFormed deeper = true ->
        wordsOfLine line
        = wordsOf pre ++ lit "[" :: wordsOf items ++ openGroups deeper ->
        parseStack line = Returns (Some (valuesOf items)))
  /\ (forall w rest,
        isScalar w = true ->
        isUndefined (parseStackElement (trim w)) = false ->
        wordsOfLine line = wordsOf pre ++ w :: rest ->
        parseStack line = Throws PushOnUndefined).
Proof.
  intros Hp. split; [|split].
  - intros rest Hw. unfold parseStack. rewrite Hw.
    rewrite loop_onlySkips by assumption. reflexivity.
  - intros items deeper Hi Hd Hw. unfold parseStack. rewrite Hw.
    rewrite loop_onlySkips by assumption.
    rewrite loop_open, loop_items by assumption.
    apply loop_openGroups_outer, Hd.
  - intros w rest Hs Hu Hw. unfold parseStack. rewrite Hw.
    rewrite loop_onlySkips by assumption.
    apply loop_scalar_no_frame; assumption.
Qed.

(** C6, as the code has it: the token "()" is null, the token "(5)" a tuple
    of the one integer 5, and the line "[ 1 2 [ 3 ] ]" decodes to the three
    elements 1, 2 and the tuple of 3: the outer brackets are the returned
    sequence itself. *)
Theorem C6_decoding_examples :
  parseStackElement (lit "()") = ENull
  /\ parseStackElement (lit "(5)") = ETuple [EInteger 5]
  /\ parseStack (lit "[ 1 2 [ 3 ] ]")
     = Returns (Some [EInteger 1; EInteger 2; ETuple [EInteger 3]]).
Proof. repeat split; reflexivity. Qed.

End DecoderFacts.



Lemma C5_unbalanced_brackets_witness :
  parseStack (P := Sample.platform) (lit "] 1")
  = Throws TupleEndedWithoutStart
  /\ parseStack (P := Sample.platform) (lit "[ 1 [ 2")
     = Returns (Some [EInteger 1])
  /\ parseStack (P := Sample.platform) (lit "7 [ 1 2")
     = Throws PushOnUndefined.
Proof.
  split; [|split].
  - apply (proj1 (C5_unbalanced_brackets (P := Sample.platform)
                    (lit "] 1") (ISkip [] INil) eq_refl)
                 [lit "1"]).
    reflexivity.
  - apply (proj1 (proj2 (C5_unbalanced_brackets (P := Sample.platform)
                    (lit "[ 1 [ 2") (ISkip [] INil) eq_refl))
                 (IScalar (lit "1") INil) [IScalar (lit "2") INil]);
      reflexivity.
  - apply (proj2 (proj2 (C5_unbalanced_brackets (P := Sample.platform)
                    (lit "7 [ 1 2") INil eq_refl))
                 (lit "7") [lit "["; lit "1"; lit "2"]);
      reflexivity.
Defined.

(** C5 as stated fails: the line "[ 1 2" lacks its closing bracket and
    decoding returns the two integers instead of raising. *)
Lemma C5_missing_close_counterexample :
  parseStack (P := Sample.platform) (lit "[ 1 2")
  = Returns (Some [EInteger 1; EInteger 2]).
Proof. reflexivity. Qed.

(** C6 as stated fails: the result for "[ 1 2 [ 3 ] ]" is not a sequence
    of one element holding the tuple. *)
Lemma C6_top_level_counterexample :
  parseStack (P := Sample.platform) (lit "[ 1 2 [ 3 ] ]")
  <> Returns (Some [ETuple [EInteger 1; EInteger 2; ETuple [EInteger 3]]]).
Proof. discriminate. Qed.

(* ------------------------------------------------------------------ *)
(** ** Opcode classifier *)

Import Classifier.

Lemma isEmpty_false (s : str) : s <> [] -> isEmpty s = false.
Proof. destruct s; [congruence | reflexivity]. Qed.

Section ClassifierFacts.
Variable opcodes : list Opcode.
Variable opcodeStr : str.

Hypothesis text_given : opcodeStr <> [].
Hypothesis catalog_loaded : opcodes <> [].
Hypothesis command_is_XCHG : commandNameOf opcodeStr = lit "XCHG".
Hypothesis no_exact_match :
  find (fun op => str_eqb (toUpperCase (name op)) (lit "XCHG")) opcodes = None.

(** With the command XCHG and no record of that name, the result is what
    the XCHG block returns or, when control leaves it, the later tiers. *)
Lemma findOpcodeInfo_XCHG :
  findOpcodeInfo opcodes opcodeStr
  = match xchgTier opcodes (partsOf opcodeStr) with
    | Some r => r
    | None => laterTiers opcodes (lit "XCHG")
    end.
Proof.
  unfold findOpcodeInfo.
  rewrite (isEmpty_false opcodeStr text_given).
  assert (L : (length opcodes =? 0) = false).
  { apply Nat.eqb_neq. intros L. apply length_zero_iff_nil in L.
    exact (catalog_loaded L). }
  rewrite L. cbn [orb].
  rewrite command_is_XCHG, no_exact_match. reflexivity.
Qed.

Variables (p0 p1 : str) (more : list str) (i j : Z).

Hypothesis slot_operands :
  filter (fun p => startsWith p (lit "s")) (tl (partsOf opcodeStr))
  = p0 :: p1 :: more.
Hypothesis first_index : parseInt (skipn 1 p0) = Some i.
Hypothesis second_index : parseInt (skipn 1 p1) = Some j.

Lemma xchgTier_indices :
  xchgTier opcodes (partsOf opcodeStr)
  = if (i =? 0)%Z then Some (findByName opcodes (lit "XCHG_0I"))
    else if (i =? 1)%Z then
      if (2 <=? j)%Z then Some (findByName opcodes (lit "XCHG_1I")) else None
    else if (1 <=? i)%Z && (i <? j)%Z && (j <=? 15)%Z
      then Some (findByName opcodes (lit "XCHG_IJ")) else None.
Proof.
  unfold xchgTier. rewrite slot_operands.
  cbn [length Nat.leb nth]. rewrite first_index, second_index. reflexivity.
Qed.

(** The lookup by name gives the first record of that name, or nothing
    when no record has it. *)
Lemma findByName_selects (ops : list Opcode) (n : str) :
  selects ops (findByName ops n) n.
Proof.
  unfold selects, firstNamed, findByName. split.
  - intros r (before & after & -> & Hn & Hb).
    induction before as [|x before IH]; cbn [app find].
    + replace (str_eqb (name r) n) with true
        by (symmetry; apply str_eqb_eq, Hn).
      reflexivity.
    + destruct (str_eqb (name x) n) eqn:E.
      * apply str_eqb_eq in E. exfalso. apply (Hb x); [left; reflexivity | exact E].
      * apply IH. intros y I. apply Hb. right. exact I.
  - intros Hnone.
    destruct (find (fun op => str_eqb (name op) n) ops) as [r|] eqn:F;
      [|reflexivity].
    apply find_some in F as [I E]. apply str_eqb_eq in E.
    exfalso. exact (Hnone r I E).
Qed.

(** C9: for the command XCHG with slot operands s<i>, s<j> and no record
    named XCHG, the result is the catalog record the ranges select, read in
    their order (XCHG_0I for i = 0, XCHG_1I for i = 1 and j >= 2, XCHG_IJ
    for 1 <= i < j <= 15 otherwise): the first record of the catalog that
    has that name, and nothing when the catalog has no such record.
    Outside these ranges the tier gives nothing and the later tiers
    decide. *)
Theorem C9_register_exchange_tier :
  match xchgSelection i j with
  | Some n => selects opcodes (findOpcodeInfo opcodes opcodeStr) n
  | None => findOpcodeInfo opcodes opcodeStr = laterTiers opcodes (lit "XCHG")
  end.
Proof.
  rewrite findOpcodeInfo_XCHG, xchgTier_indices. unfold xchgSelection.
  destruct (Z.eqb_spec i 0); [apply findByName_selects|].
  destruct (Z.eqb_spec i 1) as [Hi|Hi]; cbn [andb].
  - destruct (Z.leb_spec 2 j) as [Hj|Hj]; [apply findByName_selects|].
    replace (i <? j)%Z with false by (symmetry; apply Z.ltb_ge; lia).
    rewrite andb_false_r. reflexivity.
  - destruct ((1 <=? i)%Z && (i <? j)%Z && (j <=? 15)%Z);
      [apply findByName_selects | reflexivity].
Qed.

(** C10: when the first slot index is 0 the result is the XCHG_0I record
    of the catalog (the first record of that name, nothing when there is
    none) whatever number the second operand gives; no range of [j] is
    tested. *)
Theorem C10_slot_zero_unconditional :
  i = 0%Z -> selects opcodes (findOpcodeInfo opcodes opcodeStr) (lit "XCHG_0I").
Proof.
  intros Hi. rewrite findOpcodeInfo_XCHG, xchgTier_indices, Hi.
  apply findByName_selects.
Qed.

End ClassifierFacts.

(** The records of the sample catalog are the first of their names. *)
Lemma sample_first_0I :
  firstNamed Sample.catalog (lit "XCHG_0I")
    (Sample.opcode "XCHG_0I" "s[i] XCHG0" "" "Interchanges s0 with s[i].").
Proof.
  exists [Sample.opcode "NOP" "NOP" "-" "Does nothing."],
         (skipn 2 Sample.catalog).
  split; [reflexivity|]. split; [reflexivity|].
  intros x [<- | []]. discriminate.
Qed.

Lemma sample_first_IJ :
  firstNamed Sample.catalog (lit "XCHG_IJ")
    (Sample.opcode "XCHG_IJ" "s[i] s[j] XCHG" "" "Interchanges s[i] with s[j].").
Proof.
  exists (firstn 2 Sample.catalog), (skipn 3 Sample.catalog).
  split; [reflexivity|]. split; [reflexivity|].
  intros x [<- | [<- | []]]; discriminate.
Qed.

Lemma sample_first_1I :
  firstNamed Sample.catalog (lit "XCHG_1I")
    (Sample.opcode "XCHG_1I" "s1 s[i] XCHG" "" "Interchanges s1 with s[i].").
Proof.
  exists (firstn 3 Sample.catalog), (skipn 4 Sample.catalog).
  split; [reflexivity|]. split; [reflexivity|].
  intros x [<- | [<- | [<- | []]]]; discriminate.
Qed.

Lemma C9_register_exchange_tier_witness :
  findOpcodeInfo Sample.catalog (lit "XCHG s0,s3")
  = Some (Sample.opcode "XCHG_0I" "s[i] XCHG0" "" "Interchanges s0 with s[i].")
  /\ findOpcodeInfo Sample.catalog (lit "implicit XCHG s1, s5")
     = Some (Sample.opcode "XCHG_1I" "s1 s[i] XCHG" "" "Interchanges s1 with s[i].")
  /\ findOpcodeInfo Sample.catalog (lit "xchg s2,s3")
     = Some (Sample.opcode "XCHG_IJ" "s[i] s[j] XCHG" "" "Interchanges s[i] with s[j].")
  /\ findOpcodeInfo Sample.catalog (lit "XCHG s5,s2")
     = laterTiers Sample.catalog (lit "XCHG")
  /\ findOpcodeInfo [Sample.opcode "NOP" "NOP" "-" "Does nothing."]
       (lit "XCHG s0,s3") = None.
Proof.
  split; [|split; [|split; [|split]]].
  - apply (proj1 (C9_register_exchange_tier Sample.catalog (lit "XCHG s0,s3")
             ltac:(discriminate) ltac:(discriminate) eq_refl eq_refl
             (lit "s0") (lit "s3") [] 0%Z 3%Z eq_refl eq_refl eq_refl)).
    exact sample_first_0I.
  - apply (proj1 (C9_register_exchange_tier Sample.catalog
             (lit "implicit XCHG s1, s5")
             ltac:(discriminate) ltac:(discriminate) eq_refl eq_refl
             (lit "s1") (lit "s5") [] 1%Z 5%Z eq_refl eq_refl eq_refl)).
    exact sample_first_1I.
  - apply (proj1 (C9_register_exchange_tier Sample.catalog (lit "xchg s2,s3")
             ltac:(discriminate) ltac:(discriminate) eq_refl eq_refl
             (lit "s2") (lit "s3") [] 2%Z 3%Z eq_refl eq_refl eq_refl)).
    exact sample_first_IJ.
  - apply (C9_register_exchange_tier Sample.catalog (lit "XCHG s5,s2")
             ltac:(discriminate) ltac:(discriminate) eq_refl eq_refl
             (lit "s5") (lit "s2") [] 5%Z 2%Z eq_refl eq_refl eq_refl).
  - apply (proj2 (C9_register_exchange_tier
             [Sample.opcode "NOP" "NOP" "-" "Does nothing."]
             (lit "XCHG s0,s3")
             ltac:(discriminate) ltac:(discriminate) eq_refl eq_refl
             (lit "s0") (lit "s3") [] 0%Z 3%Z eq_refl eq_refl eq_refl)).
    intros x [<- | []]. discriminate.
Defined.

Lemma C10_slot_zero_unconditional_witness :
  findOpcodeInfo Sample.catalog (lit "XCHG s0,s99")
  = Some (Sample.opcode "XCHG_0I" "s[i] XCHG0" "" "Interchanges s0 with s[i].")
  /\ findOpcodeInfo Sample.catalog (lit "XCHG s0,s0")
     = Some (Sample.opcode "XCHG_0I" "s[i] XCHG0" "" "Interchanges s0 with s[i].").
Proof.
  split.
  - apply (proj1 (C10_slot_zero_unconditional Sample.catalog (lit "XCHG s0,s99")
             ltac:(discriminate) ltac:(discriminate) eq_refl eq_refl
             (lit "s0") (lit "s99") [] 0%Z 99%Z eq_refl eq_refl eq_refl
             eq_refl)).
    exact sample_first_0I.
  - apply (proj1 (C10_slot_zero_unconditional Sample.catalog (lit "XCHG s0,s0")
             ltac:(discriminate) ltac:(discriminate) eq_refl eq_refl
             (lit "s0") (lit "s0") [] 0%Z 0%Z eq_refl eq_refl eq_refl
             eq_refl)).
    exact sample_first_0I.
Defined.

(* ------------------------------------------------------------------ *)
(** ** Text encodings of a buffer *)

Import Buffer.

Lemma hex_byte (b : byte) :
  match hexVal (hexChar (Byte.to_nat b / 16)),
        hexVal (hexChar (Byte.to_nat b mod 16)) with
  | Some h, Some l => Byte.of_nat (h * 16 + l)
  | _, _ => None
  end = Some b.
Proof. destruct b; vm_compute; reflexivity. Qed.

(** Reading the hexadecimal text of a buffer gives the buffer back. *)
Lemma ofHex_toHex (buf : list byte) : ofHex (toHex buf) = Some buf.
Proof.
  induction buf as [|b buf IH]; [reflexivity|].
  cbn [toHex ofHex]. rewrite IH.
  pose proof (hex_byte b) as H.
  destruct (hexVal (hexChar (Byte.to_nat b / 16))); [|discriminate].
  destruct (hexVal (hexChar (Byte.to_nat b mod 16))); [|discriminate].
  rewrite H. reflexivity.
Qed.

Lemma toHex_inj (a b : list byte) : toHex a = toHex b -> a = b.
Proof.
  intros H. apply (f_equal ofHex) in H.
  rewrite !ofHex_toHex in H. congruence.
Qed.

Lemma toHex_length (buf : list byte) : length (toHex buf) = 2 * length buf.
Proof. induction buf; simpl in *; lia. Qed.

Lemma b64Val_b64Char (n : nat) : n < 64 -> b64Val (b64Char n) = Some n.
Proof.
  intros H.
  do 64 (destruct n as [|n]; [reflexivity|]). lia.
Qed.

Lemma b64Val_pad : b64Val "="%char = None.
Proof. reflexivity. Qed.

Lemma byte3_sextets (a b c : byte) :
  let x := Byte.to_nat a in
  let y := Byte.to_nat b in
  let z := Byte.to_nat c in
  byte3 (x / 4) (x mod 4 * 16 + y / 16) (y mod 16 * 4 + z / 64) (z mod 64)
  = Some [a; b; c].
Proof.
  intros x y z. unfold byte3.
  pose proof (Byte.to_nat_bounded a). pose proof (Byte.to_nat_bounded b).
  pose proof (Byte.to_nat_bounded c). fold x y z in H, H0, H1.
  replace (x / 4 * 4 + (x mod 4 * 16 + y / 16) / 16) with x.
  2:{ pose proof (Nat.div_mod_eq x 4).
      assert ((x mod 4 * 16 + y / 16) / 16 = x mod 4).
      { rewrite Nat.div_add_l by lia. rewrite (Nat.div_small (y / 16)).
        - lia.
        - apply Nat.Div0.div_lt_upper_bound; lia. }
      lia. }
  replace ((x mod 4 * 16 + y / 16) mod 16 * 16 + (y mod 16 * 4 + z / 64) / 4)
    with y.
  2:{ pose proof (Nat.div_mod_eq y 16).
      assert ((x mod 4 * 16 + y / 16) mod 16 = y / 16).
      { rewrite Nat.add_comm, Nat.Div0.mod_add. apply Nat.mod_small.
        apply Nat.Div0.div_lt_upper_bound; lia. }
      assert ((y mod 16 * 4 + z / 64) / 4 = y mod 16).
      { rewrite Nat.div_add_l by lia. rewrite (Nat.div_small (z / 64)).
        - lia.
        - apply Nat.Div0.div_lt_upper_bound; lia. }
      lia. }
  replace ((y mod 16 * 4 + z / 64) mod 4 * 64 + z mod 64) with z.
  2:{ pose proof (Nat.div_mod_eq z 64).
      assert ((y mod 16 * 4 + z / 64) mod 4 = z / 64).
      { rewrite Nat.add_comm, Nat.Div0.mod_add. apply Nat.mod_small.
        apply Nat.Div0.div_lt_upper_bound; lia. }
      lia. }
  unfold x, y, z. rewrite !Byte.of_to_nat. reflexivity.
Qed.

Lemma list_ind3 (A : Type) (Q : list A -> Prop) :
  Q [] -> (forall a, Q [a]) -> (forall a b, Q [a; b]) ->
  (forall a b c l, Q l -> Q (a :: b :: c :: l)) ->
  forall l, Q l.
Proof.
  intros H0 H1 H2 H3.
  fix IH 1. intros [|a [|b [|c l]]];
    [exact H0 | apply H1 | apply H2 | apply H3, IH].
Qed.

Lemma sextet_bounds (x y : nat) :
  x <= 255 -> y <= 255 ->
  x / 4 < 64 /\ x mod 4 * 16 + y / 16 < 64 /\ x mod 16 * 4 + y / 64 < 64
  /\ x mod 64 < 64 /\ x mod 4 * 16 < 64 /\ x mod 16 * 4 < 64.
Proof.
  intros Hx Hy.
  pose proof (Nat.mod_upper_bound x 4). pose proof (Nat.mod_upper_bound x 16).
  pose proof (Nat.mod_upper_bound x 64).
  assert (x / 4 < 64) by (apply Nat.Div0.div_lt_upper_bound; lia).
  assert (y / 16 < 16) by (apply Nat.Div0.div_lt_upper_bound; lia).
  assert (y / 64 < 4) by (apply Nat.Div0.div_lt_upper_bound; lia).
  lia.
Qed.

(** Reading the base64 text of a buffer gives the buffer back. *)
Lemma ofBase64_toBase64 (buf : list byte) :
  ofBase64 (toBase64 buf) = Some buf.
Proof.
  induction buf as [|a|a b|a b c buf IH] using list_ind3.
  - reflexivity.
  - cbn [toBase64 ofBase64].
    pose proof (Byte.to_nat_bounded a) as Ba.
    destruct (sextet_bounds (Byte.to_nat a) 0 Ba ltac:(lia))
      as (B1 & _ & _ & _ & B2 & _).
    rewrite !b64Val_b64Char by assumption. rewrite b64Val_pad.
    cbn [Ascii.eqb Bool.eqb andb isEmpty].
    pose proof (byte3_sextets a x00 x00) as H. cbv zeta in H.
    change (Byte.to_nat x00) with 0 in H.
    change (0 / 16) with 0 in H. change (0 mod 16 * 4 + 0 / 64) with 0 in H.
    change (0 mod 64) with 0 in H. rewrite Nat.add_0_r in H.
    rewrite H. reflexivity.
  - cbn [toBase64 ofBase64].
    pose proof (Byte.to_nat_bounded a) as Ba.
    pose proof (Byte.to_nat_bounded b) as Bb.
    destruct (sextet_bounds (Byte.to_nat a) (Byte.to_nat b) Ba Bb)
      as (B1 & B2 & _).
    destruct (sextet_bounds (Byte.to_nat b) 0 Bb ltac:(lia))
      as (_ & _ & _ & _ & _ & B3).
    rewrite !b64Val_b64Char by assumption. rewrite b64Val_pad.
    cbn [Ascii.eqb Bool.eqb andb isEmpty].
    pose proof (byte3_sextets a b x00) as H. cbv zeta in H.
    change (Byte.to_nat x00) with 0 in H.
    change (0 / 64) with 0 in H. change (0 mod 64) with 0 in H.
    rewrite Nat.add_0_r in H.
    rewrite H. reflexivity.
  - cbn [toBase64 ofBase64].
    pose proof (Byte.to_nat_bounded a) as Ba.
    pose proof (Byte.to_nat_bounded b) as Bb.
    pose proof (Byte.to_nat_bounded c) as Bc.
    destruct (sextet_bounds (Byte.to_nat a) (Byte.to_nat b) Ba Bb)
      as (B1 & B2 & _).
    destruct (sextet_bounds (Byte.to_nat b) (Byte.to_nat c) Bb Bc)
      as (_ & _ & B3 & _).
    destruct (sextet_bounds (Byte.to_nat c) 0 Bc ltac:(lia))
      as (_ & _ & _ & B4 & _).
    rewrite !b64Val_b64Char by assumption.
    rewrite (byte3_sextets a b c), IH. reflexivity.
Qed.

Lemma toBase64_inj (a b : list byte) : toBase64 a = toBase64 b -> a = b.
Proof.
  intros H. apply (f_equal ofBase64) in H.
  rewrite !ofBase64_toBase64 in H. congruence.
Qed.

Lemma toBase64_length (buf : list byte) :
  length (toBase64 buf) = 4 * ((length buf + 2) / 3).
Proof.
  induction buf as [|a|a b|a b c buf IH] using list_ind3; try reflexivity.
  cbn [toBase64 length]. rewrite IH.
  replace (S (S (S (length buf))) + 2) with ((length buf + 2) + 1 * 3) by lia.
  rewrite Nat.div_add by lia. lia.
Qed.

(* ------------------------------------------------------------------ *)
(** ** Cutting texts *)

Lemma cut_at_first (c : ascii) (x1 x2 r1 r2 : str) :
  ~ In c x1 -> ~ In c x2 ->
  x1 ++ c :: r1 = x2 ++ c :: r2 -> x1 = x2 /\ r1 = r2.
Proof.
  revert x2; induction x1 as [|a x1 IH]; intros [|b x2] H1 H2 E;
    cbn [app] in E.
  - injection E as E; auto.
  - injection E as E _. subst b. exfalso; apply H2; left; reflexivity.
  - injection E as E _. subst a. exfalso; apply H1; left; reflexivity.
  - injection E as Eab E. subst b.
    destruct (IH x2) as [-> ->]; auto.
    + intros H; apply H1; right; exact H.
    + intros H; apply H2; right; exact H.
Qed.

Lemma cut_at_last (c : ascii) (l1 l2 d1 d2 : str) :
  ~ In c d1 -> ~ In c d2 ->
  l1 ++ c :: d1 = l2 ++ c :: d2 -> l1 = l2 /\ d1 = d2.
Proof.
  intros H1 H2 E. apply (f_equal (@rev ascii)) in E.
  rewrite !rev_app_distr in E. cbn [rev] in E. rewrite <- !app_assoc in E.
  cbn [app] in E.
  apply cut_at_first in E; try (rewrite <- in_rev; assumption).
  destruct E as [Ed El].
  apply (f_equal (@rev ascii)) in Ed, El.
  rewrite !rev_involutive in Ed, El. auto.
Qed.

Lemma app_inj_prefix (x1 x2 y1 y2 : str) :
  length x1 = length x2 -> x1 ++ y1 = x2 ++ y2 -> x1 = x2 /\ y1 = y2.
Proof.
  revert x2; induction x1 as [|a x1 IH]; intros [|b x2] L E;
    try discriminate L; cbn [app] in E.
  - auto.
  - injection E as -> E. simpl in L.
    destruct (IH x2) as [-> ->]; auto.
Qed.

Lemma app_inj_suffix (x1 x2 y1 y2 : str) :
  length y1 = length y2 -> x1 ++ y1 = x2 ++ y2 -> x1 = x2 /\ y1 = y2.
Proof.
  intros L E. apply app_inj_prefix; [|exact E].
  apply (f_equal (@length ascii)) in E. rewrite !length_app in E. lia.
Qed.

(** *** Decimal numerals *)

Lemma uint_chars (u : Decimal.uint) :
  forallb isNumeralChar (lit (NilEmpty.string_of_uint u)) = true.
Proof. induction u; cbn; auto. Qed.

Lemma BigInt_toString_chars (n : Z) :
  forallb isNumeralChar (BigInt_toString n) = true.
Proof.
  unfold BigInt_toString, NilZero.string_of_int, NilZero.string_of_uint.
  destruct (Z.to_int n) as [u|u]; destruct u;
    try reflexivity; cbn; try apply uint_chars.
Qed.

Lemma BigInt_toString_without (c : ascii) (n : Z) :
  isNumeralChar c = false -> ~ In c (BigInt_toString n).
Proof.
  intros Hc Hin.
  pose proof (BigInt_toString_chars n) as H.
  rewrite forallb_forall in H. apply H in Hin. congruence.
Qed.

Lemma to_int_proper (n : Z) :
  Z.to_int n <> Decimal.Pos Decimal.Nil /\ Z.to_int n <> Decimal.Neg Decimal.Nil.
Proof.
  destruct n; cbn; split; try discriminate;
    intros [= H]; exact (DecimalPos.Unsigned.to_uint_nonnil _ H).
Qed.

Lemma BigInt_toString_inj (a b : Z) :
  BigInt_toString a = BigInt_toString b -> a = b.
Proof.
  unfold BigInt_toString, lit. intros H.
  apply (f_equal string_of_list_ascii) in H.
  rewrite !string_of_list_ascii_of_string in H.
  apply (f_equal NilZero.int_of_string) in H.
  destruct (to_int_proper a), (to_int_proper b).
  rewrite !NilZero.isi in H by assumption.
  injection H as H. apply DecimalZ.to_int_inj, H.
Qed.

(* ------------------------------------------------------------------ *)
(** ** Links made from a transaction *)

Import Resolver.

Lemma split_loop_absent (c : ascii) (s : str) :
  ~ In c s -> forall cur, split_loop [c] s 0 cur = [rev cur ++ s].
Proof.
  induction s as [|d s IH]; intros H cur.
  - cbn. rewrite app_nil_r. reflexivity.
  - cbn [split_loop startsWith].
    destruct (Ascii.eqb_spec c d) as [->|N].
    + exfalso; apply H; left; reflexivity.
    + cbn [andb]. rewrite IH by (intros I; apply H; right; exact I).
      cbn [rev]. rewrite <- app_assoc. reflexivity.
Qed.

Lemma split_absent (c : ascii) (s : str) : ~ In c s -> split s [c] = [s].
Proof. intros H. unfold split. rewrite split_loop_absent by exact H. reflexivity. Qed.

Section ResolverFacts.
Context {P : Platform}.
Variable index : Index.

Lemma linkToTx_bare (txLink : str) (forcedTestnet : option bool) :
  isExplorerLink txLink = false ->
  linkToTx index txLink forcedTestnet
  = (setFormats knownFormats ;;;
     tryCatch (ltHashFormat index txLink forcedTestnet)
              (fun _ => bareHashFormat index txLink forcedTestnet)).
Proof.
  unfold isExplorerLink. intros H.
  repeat (apply orb_false_iff in H; destruct H as [H ?]).
  unfold linkToTx.
  repeat match goal with
         | E : _ = false |- _ => rewrite E; clear E
         end.
  reflexivity.
Qed.

(** Without a colon the [lt:hash] format throws before any call. *)
Lemma ltHashFormat_no_colon (txLink : str) (forcedTestnet : option bool)
    (st : State) :
  ~ In ":"%char txLink ->
  exists e, ltHashFormat index txLink forcedTestnet st = (st, Throw e).
Proof.
  intros H. unfold ltHashFormat.
  change (lit ":") with [":"%char]. rewrite split_absent by exact H.
  cbn [nth nth_error]. unfold bind, toBigInt, bufferFrom, fault, throw, ret.
  destruct (BigInt txLink); eexists; reflexivity.
Qed.

Lemma linkToTx_bare_hash (txLink : str) (forcedTestnet : option bool) :
  isExplorerLink txLink = false ->
  ~ In ":"%char txLink ->
  run (linkToTx index txLink forcedTestnet)
  = run (setFormats knownFormats ;;;
         bareHashFormat index txLink forcedTestnet).
Proof.
  intros He Hc. rewrite linkToTx_bare by exact He.
  unfold run, bind, tryCatch, setFormats. cbn [trace triedFormats].
  destruct (ltHashFormat_no_colon txLink forcedTestnet
              {| trace := []; triedFormats := knownFormats |} Hc) as [e E].
  rewrite E. reflexivity.
Qed.

Ltac run_bare :=
  unfold run, bareHashFormat, lookup, mainnetThenTestnet, bind, tryCatch,
    setFormats, getFormats, pushFormat, waitForRateLimit, fetchTransactions,
    first, toBigInt, addressParseRaw, fault, throw, ret;
  cbn [trace triedFormats fst snd app].

(** One case analysis on what the code branches on: the hint, an answer of
    the index, a conversion of what the index returned. *)
Ltac branch :=
  match goal with
  | |- context [match ?x with _ => _ end] =>
      lazymatch x with
      | index _ _ _ => destruct x as [[|? ?]|[?|]] eqn:?
      | BigInt _ => destruct x eqn:?
      | Address_parseRaw _ => destruct x eqn:?
      | _ => is_var x; destruct x
      end
  end;
  cbn [trace triedFormats fst snd app length Nat.eqb].

(** C2, as the code has it: a bare reference (no explorer prefix, no colon)
    that does not end in "=" is tested for its length only.  When the length
    is not 64 the call fails at once with the error that lists the five
    explorer formats, and no call leaves the program; when it is 64 the
    text is looked up, whatever its characters: the first calls are the
    rate-limit wait and the request for that text. *)
Theorem C2_bare_reference_length_test (txLink : str)
    (forcedTestnet : option bool) :
  isExplorerLink txLink = false ->
  ~ In ":"%char txLink ->
  endsWith txLink (lit "=") = false ->
  (length txLink <> 64 ->
   run (linkToTx index txLink forcedTestnet)
   = ([], Throw (Error (lit "Coudn't recognize such link, tried all formats: ton.cx, tonviewer, tonscan, toncoin.org, dton. Got strange error: Seems like hash, but not of length 64. Probably missing letters"))))
  /\ (length txLink = 64 ->
      firstn 2 (fst (run (linkToTx index txLink forcedTestnet)))
      = [RateLimitWait; Fetch txLink (orElse forcedTestnet false)]).
Proof.
  intros He Hc Heq. split; intros L.
  - rewrite linkToTx_bare_hash by assumption.
    run_bare. unfold hashText. rewrite Heq.
    apply Nat.eqb_neq in L. rewrite L. reflexivity.
  - rewrite linkToTx_bare_hash by assumption.
    run_bare. unfold hashText. rewrite Heq, L. cbn [Nat.eqb negb].
    repeat branch; reflexivity.
Qed.


End ResolverFacts.

Lemma not_In_by_eval (c : ascii) (s : str) :
  existsb (Ascii.eqb c) s = false -> ~ In c s.
Proof.
  intros H I. assert (E : existsb (Ascii.eqb c) s = true).
  { apply existsb_exists. exists c. split; [exact I | apply Ascii.eqb_refl]. }
  congruence.
Qed.

Lemma C2_bare_reference_length_test_witness :
  run (linkToTx (P := Sample.platform) Sample.emptyIndex
         (lit "3e5f4979") None)
  = ([], Throw (Error (lit "Coudn't recognize such link, tried all formats: ton.cx, tonviewer, tonscan, toncoin.org, dton. Got strange error: Seems like hash, but not of length 64. Probably missing letters")))
  /\ firstn 2 (fst (run (linkToTx (P := Sample.platform) Sample.emptyIndex
                            Sample.notHex None)))
     = [RateLimitWait; Fetch Sample.notHex false].
Proof.
  split.
  - apply (proj1 (C2_bare_reference_length_test (P := Sample.platform)
                    Sample.emptyIndex (lit "3e5f4979") None
                    ltac:(vm_compute; reflexivity)
                    ltac:(apply not_In_by_eval; vm_compute; reflexivity)
                    ltac:(vm_compute; reflexivity))).
    vm_compute; discriminate.
  - apply (proj2 (C2_bare_reference_length_test (P := Sample.platform)
                    Sample.emptyIndex Sample.notHex None
                    ltac:(vm_compute; reflexivity)
                    ltac:(apply not_In_by_eval; vm_compute; reflexivity)
                    ltac:(vm_compute; reflexivity))).
    vm_compute; reflexivity.
Defined.

(** C2 as stated fails: a text of 64 characters that is not hexadecimal
    and does not end in "=" is sent to the index, on mainnet and then on
    testnet, before the call fails. *)
Lemma C2_not_hex_is_looked_up_counterexample :
  length Sample.notHex = 64
  /\ Buffer.ofHex Sample.notHex = None
  /\ endsWith Sample.notHex (lit "=") = false
  /\ fst (run (linkToTx (P := Sample.platform) Sample.emptyIndex
                 Sample.notHex None))
     = [RateLimitWait; Fetch Sample.notHex false;
        RateLimitWait; Fetch Sample.notHex true].
Proof. repeat apply conj; vm_compute; reflexivity. Qed.



(* ================================================================== *)
(** * Further properties of the code *)

(** ** Decimal numerals read back *)

Lemma dropWhile_id (p : ascii -> bool) (s : str) :
  (forall c, In c s -> p c = false) -> dropWhile p s = s.
Proof.
  destruct s as [|c s]; [reflexivity|]. intros H.
  apply dropWhile_head, H. left; reflexivity.
Qed.

(** A text without white space is its own trim. *)
Lemma trim_id (s : str) :
  (forall c, In c s -> is_space c = false) -> trim s = s.
Proof.
  intros H. unfold trim. rewrite (dropWhile_id is_space s H).
  rewrite dropWhile_id; [apply rev_involutive|].
  intros c I. apply H, in_rev, I.
Qed.

Lemma digits_acc (d : Decimal.uint) (acc : positive) :
  digits 10 (lit (NilEmpty.string_of_uint d)) (Zpos acc)
  = Some (Zpos (Pos.of_uint_acc d acc)).
Proof.
  revert acc; induction d; intros acc; [reflexivity | ..];
    cbn [NilEmpty.string_of_uint lit list_ascii_of_string digits
         Pos.of_uint_acc];
    match goal with
    | |- context [digitVal ?c] =>
        let v := eval vm_compute in (digitVal c) in
        change (digitVal c) with v
    end;
    cbv iota;
    match goal with
    | |- context [(?k <? 10)%Z] => change (k <? 10)%Z with true
    end;
    cbv iota; rewrite <- IHd; f_equal; lia.
Qed.

Lemma digits_uint (d : Decimal.uint) :
  digits 10 (lit (NilEmpty.string_of_uint d)) 0
  = Some (Z.of_N (Pos.of_uint d)).
Proof.
  induction d; [reflexivity | ..];
    cbn [NilEmpty.string_of_uint lit list_ascii_of_string digits Pos.of_uint];
    match goal with
    | |- context [digitVal ?c] =>
        let v := eval vm_compute in (digitVal c) in
        change (digitVal c) with v
    end;
    cbv iota;
    match goal with
    | |- context [(?k <? 10)%Z] => change (k <? 10)%Z with true
    end;
    cbv iota; [exact IHd | ..];
    cbn [Z.mul Z.add Z.of_nat Pos.of_succ_nat Pos.succ];
    apply digits_acc.
Qed.

Lemma uint_digits_only (d : Decimal.uint) :
  forallb is_digit (lit (NilEmpty.string_of_uint d)) = true.
Proof. induction d; cbn; auto. Qed.

Lemma is_digit_not_space (c : ascii) : is_digit c = true -> is_space c = false.
Proof.
  intros H. apply is_word_not_space. unfold is_word. rewrite H.
  rewrite orb_true_r. reflexivity.
Qed.

Lemma is_digit_cases (c : ascii) :
  is_digit c = true ->
  In c (lit "0123456789").
Proof.
  destruct c as [[|] [|] [|] [|] [|] [|] [|] [|]]; intros H;
    try discriminate H; cbn; tauto.
Qed.

(** On a non-empty text of decimal digits [BigInt] reads the numeral in
    radix 10: no such text has a radix prefix. *)
Lemma BigInt_digits (t : str) :
  t <> [] -> forallb is_digit t = true -> BigInt t = digits 10 t 0.
Proof.
  intros Hne Hd. unfold BigInt.
  rewrite trim_id.
  2:{ intros c I. apply is_digit_not_space.
      rewrite forallb_forall in Hd. apply Hd, I. }
  destruct t as [|c1 t]; [congruence|].
  cbn [forallb] in Hd. apply andb_true_iff in Hd as [H1 Hd].
  apply is_digit_cases in H1. cbn in H1.
  destruct t as [|c2 t].
  - repeat (destruct H1 as [<- | H1]; [reflexivity|]). destruct H1.
  - cbn [forallb] in Hd. apply andb_true_iff in Hd as [H2 Hd].
    apply is_digit_cases in H2. cbn in H2.
    destruct H1 as [<- | H1].
    + repeat (destruct H2 as [<- | H2]; [reflexivity|]). destruct H2.
    + repeat (destruct H1 as [<- | H1]; [reflexivity|]). destruct H1.
Qed.

Lemma uint_text_nonempty (d : Decimal.uint) :
  d <> Decimal.Nil -> lit (NilEmpty.string_of_uint d) <> [].
Proof. destruct d; [congruence | ..]; discriminate. Qed.

(** [BigInt] reads the decimal text of a bigint back. *)
Lemma BigInt_of_toString (n : Z) : BigInt (BigInt_toString n) = Some n.
Proof.
  unfold BigInt_toString.
  destruct n as [|p|p]; cbn [Z.to_int NilZero.string_of_int].
  - reflexivity.
  - pose proof (DecimalPos.Unsigned.to_uint_nonnil p) as Hn.
    replace (NilZero.string_of_uint (Pos.to_uint p))
      with (NilEmpty.string_of_uint (Pos.to_uint p))
      by (destruct (Pos.to_uint p); [congruence | reflexivity ..]).
    rewrite BigInt_digits by (apply uint_text_nonempty, Hn || apply uint_digits_only).
    rewrite digits_uint.
    change (Pos.of_uint (Pos.to_uint p)) with (N.of_uint (N.to_uint (Npos p))).
    rewrite DecimalN.Unsigned.of_to. reflexivity.
  - pose proof (DecimalPos.Unsigned.to_uint_nonnil p) as Hn.
    replace (NilZero.string_of_uint (Pos.to_uint p))
      with (NilEmpty.string_of_uint (Pos.to_uint p))
      by (destruct (Pos.to_uint p); [congruence | reflexivity ..]).
    unfold BigInt.
    rewrite trim_id.
    2:{ cbn [lit list_ascii_of_string]. intros c [<- | I]; [reflexivity|].
        apply is_digit_not_space.
        pose proof (uint_digits_only (Pos.to_uint p)) as Hd.
        rewrite forallb_forall in Hd. apply Hd, I. }
    cbn [lit list_ascii_of_string].
    change (list_ascii_of_string (NilEmpty.string_of_uint (Pos.to_uint p)))
      with (lit (NilEmpty.string_of_uint (Pos.to_uint p))).
    unfold numeral.
    rewrite (isEmpty_false _ (uint_text_nonempty _ Hn)).
    rewrite digits_uint.
    change (Pos.of_uint (Pos.to_uint p)) with (N.of_uint (N.to_uint (Npos p))).
    rewrite DecimalN.Unsigned.of_to. reflexivity.
Qed.

(* ------------------------------------------------------------------ *)
(** ** More on the stack dump decoder *)

Lemma padded_line (line : str) :
  replaceChar "]"%char (lit " ] ") (replaceChar "["%char (lit " [ ") line)
  = flat_map padChar line.
Proof.
  unfold replaceChar. induction line as [|c line IH]; [reflexivity|].
  cbn [flat_map]. rewrite flat_map_app, IH. f_equal.
  unfold padChar.
  destruct (Ascii.eqb c "["%char) eqn:E1; [reflexivity|].
  cbn [flat_map app]. rewrite app_nil_r.
  destruct (Ascii.eqb c "]"%char); reflexivity.
Qed.

Lemma plain_nil : plain [].
Proof. intros c []. Qed.

Lemma plain_rev (w : str) : plain w -> plain (rev w).
Proof. intros H c I. apply H, in_rev, I. Qed.

Lemma splitWs_padded (w : str) (line : str) :
  forall inws cur,
    plain cur ->
    In w (splitRe_loop false (flat_map padChar line) inws cur) ->
    w = lit "[" \/ w = lit "]" \/ plain w.
Proof.
  induction line as [|c line IH]; intros inws cur Hc H.
  - cbn in H. destruct H as [<- | []]. right; right. apply plain_rev, Hc.
  - cbn [flat_map] in H. unfold padChar at 1 in H.
    destruct (Ascii.eqb_spec c "["%char) as [->|N1].
    { cbn in H. destruct inws.
      - destruct H as [<- | H]; [auto|]. apply IH in H; auto using plain_nil.
      - destruct H as [<- | [<- | H]];
          [right; right; apply plain_rev, Hc | auto |].
        apply IH in H; auto using plain_nil. }
    destruct (Ascii.eqb_spec c "]"%char) as [->|N2].
    { cbn in H. destruct inws.
      - destruct H as [<- | H]; [auto|]. apply IH in H; auto using plain_nil.
      - destruct H as [<- | [<- | H]];
          [right; right; apply plain_rev, Hc | auto |].
        apply IH in H; auto using plain_nil. }
    cbn [app splitRe_loop andb] in H.
    destruct (is_space c) eqn:Es.
    + destruct inws.
      * apply IH in H; auto using plain_nil.
      * destruct H as [<- | H]; [right; right; apply plain_rev, Hc|].
        apply IH in H; auto using plain_nil.
    + apply IH in H; [exact H|].
      intros d [<- | I]; [auto | apply Hc, I].
Qed.

Section DecoderMore.
Context {P : Platform}.

(** X1: brackets are words of their own.  Whatever the line, each of its
    words is "[", is "]", or holds neither a bracket nor white space. *)
Theorem wordsOfLine_brackets_alone (line w : str) :
  In w (wordsOfLine line) ->
  w = lit "[" \/ w = lit "]" \/ plain w.
Proof.
  unfold wordsOfLine, splitWs. rewrite padded_line.
  apply splitWs_padded, plain_nil.
Qed.

(** X2: a parenthesised token is a tuple of the one element its inside
    decodes to, to any depth: the recursion always reaches the inside. *)
Theorem parseStackElement_parenthesised (w : str) :
  w <> [] ->
  parseStackElement (lit "(" ++ w ++ lit ")")
  = ETuple [parseStackElement w].
Proof.
  intros Hw.
  rewrite parseStackElement_paren.
  - unfold slice_to_last. cbn [lit list_ascii_of_string app skipn].
    rewrite removelast_last. reflexivity.
  - destruct w as [|c w]; [congruence|].
    cbn [lit list_ascii_of_string app str_eqb].
    destruct (w ++ [")"%char]) eqn:E; [destruct w; discriminate E|].
    cbn. apply andb_false_r.
  - unfold endsWith. cbn [lit list_ascii_of_string app].
    change ("("%char :: w ++ [")"%char]) with (("("%char :: w) ++ [")"%char]).
    rewrite rev_app_distr. reflexivity.
Qed.

(** X3: the decimal text of any integer, negative ones included, decodes to
    that integer. *)
Theorem parseStackElement_integer (n : Z) :
  parseStackElement (BigInt_toString n) = EInteger n.
Proof.
  pose proof (BigInt_of_toString n) as Hb.
  pose proof (BigInt_toString_chars n) as Hc.
  unfold parseStackElement.
  destruct (BigInt_toString n) as [|c t] eqn:E.
  - unfold BigInt_toString, lit in E.
    destruct (to_int_proper n) as [H1 H2].
    destruct (Z.to_int n) as [[]|[]]; try discriminate E; congruence.
  - cbn [forallb] in Hc. apply andb_true_iff in Hc as [Hc _].
    assert (Hin : In c (lit "0123456789-")).
    { unfold isNumeralChar in Hc. apply orb_true_iff in Hc as [Hc | Hc].
      - apply is_digit_cases in Hc. cbn in *. tauto.
      - apply Ascii.eqb_eq in Hc. subst c. cbn. tauto. }
    cbn [length parseStackElement_rec].
    cbn in Hin.
    repeat (destruct Hin as [<- | Hin];
            [cbn [lit list_ascii_of_string str_eqb startsWith Ascii.eqb
                  Bool.eqb andb];
             rewrite Hb; reflexivity|]).
    destruct Hin.
Qed.

(** X4: a line with nothing but labels and blanks returns [undefined]. *)
Theorem parseStack_labels_only (line : str) (pre : Items) :
  onlySkips pre = true ->
  wordsOfLine line = wordsOf pre ->
  parseStack line = Returns None.
Proof.
  intros Hp Hw. unfold parseStack. rewrite Hw.
  rewrite <- (app_nil_r (wordsOf pre)).
  rewrite loop_onlySkips by assumption. reflexivity.
Qed.

End DecoderMore.

(* ------------------------------------------------------------------ *)
(** ** More on resolving a reference *)

Section ResolverMore.
Context {P : Platform}.
Variable index : Index.

Ltac run_all :=
  unfold run, byHashLink, ltHashFormat, bareHashFormat, lookup,
    mainnetThenTestnet, bind, tryCatch, setFormats, getFormats, pushFormat,
    waitForRateLimit, fetchTransactions, first, toBigInt, addressParse,
    addressParseRaw, bufferFrom, fault, throw, ret;
  cbn [trace triedFormats fst snd app].

Ltac branch_all :=
  match goal with
  | |- context [match ?x with _ => _ end] =>
      lazymatch x with
      | index _ _ _ => destruct x as [[|? ?]|[?|]] eqn:?
      | BigInt _ => destruct x eqn:?
      | Address_parseRaw _ => destruct x eqn:?
      | Address_parse _ => destruct x eqn:?
      | URL_searchParam _ _ => destruct x as [[?|]|] eqn:?
      | nth_error _ _ => destruct x eqn:?
      | negb _ => destruct x eqn:?
      | _ => is_var x; destruct x
      end
  end;
  cbn [trace triedFormats fst snd app length Nat.eqb].

(** The trace of a call on a link of a shape that carries the whole
    locator. *)
Lemma full_links_trace (txLink : str) (forcedTestnet : option bool) :
  startsWith txLink (lit "https://ton.cx/tx/") = true
  \/ startsWith txLink (lit "https://testnet.ton.cx/tx/") = true
  \/ startsWith txLink (lit "https://explorer.toncoin.org/transaction") = true
  \/ startsWith txLink (lit "https://test-explorer.toncoin.org/transaction") = true ->
  fst (run (linkToTx index txLink forcedTestnet)) = [].
Proof.
  intros H. unfold linkToTx.
  destruct H as [H | [H | [H | H]]].
  - rewrite H. cbn [orb]. run_all. repeat branch_all; reflexivity.
  - rewrite H, orb_true_r. run_all. repeat branch_all; reflexivity.
  - pose proof (startsWith_split _ _ H) as E.
    revert H E. generalize (skipn (length (lit "https://explorer.toncoin.org/transaction")) txLink).
    intros r H E.
    replace (startsWith txLink (lit "https://ton.cx/tx/")) with false
      by (rewrite E; reflexivity).
    replace (startsWith txLink (lit "https://testnet.ton.cx/tx/")) with false
      by (rewrite E; reflexivity).
    replace (startsWith txLink (lit "https://tonviewer.com/")) with false
      by (rewrite E; reflexivity).
    replace (startsWith txLink (lit "https://testnet.tonviewer.com/")) with false
      by (rewrite E; reflexivity).
    replace (startsWith txLink (lit "https://tonscan.org/tx/")) with false
      by (rewrite E; reflexivity).
    replace (startsWith txLink (lit "https://testnet.tonscan.org/tx/")) with false
      by (rewrite E; reflexivity).
    rewrite H. cbn [orb]. run_all. repeat branch_all; reflexivity.
  - pose proof (startsWith_split _ _ H) as E.
    revert H E. generalize (skipn (length (lit "https://test-explorer.toncoin.org/transaction")) txLink).
    intros r H E.
    replace (startsWith txLink (lit "https://ton.cx/tx/")) with false
      by (rewrite E; reflexivity).
    replace (startsWith txLink (lit "https://testnet.ton.cx/tx/")) with false
      by (rewrite E; reflexivity).
    replace (startsWith txLink (lit "https://tonviewer.com/")) with false
      by (rewrite E; reflexivity).
    replace (startsWith txLink (lit "https://testnet.tonviewer.com/")) with false
      by (rewrite E; reflexivity).
    replace (startsWith txLink (lit "https://tonscan.org/tx/")) with false
      by (rewrite E; reflexivity).
    replace (startsWith txLink (lit "https://testnet.tonscan.org/tx/")) with false
      by (rewrite E; reflexivity).
    rewrite H, orb_true_r. cbn [orb]. run_all. repeat branch_all; reflexivity.
Qed.

(** X5: the two shapes that carry the whole locator, ton.cx and
    explorer.toncoin.org, are resolved without any call leaving the
    program, whatever the outcome. *)
Theorem full_links_are_offline (txLink : str) (forcedTestnet : option bool) :
  startsWith txLink (lit "https://ton.cx/tx/") = true
  \/ startsWith txLink (lit "https://testnet.ton.cx/tx/") = true
  \/ startsWith txLink (lit "https://explorer.toncoin.org/transaction") = true
  \/ startsWith txLink (lit "https://test-explorer.toncoin.org/transaction") = true ->
  fst (run (linkToTx index txLink forcedTestnet)) = [].
Proof. apply full_links_trace. Qed.

(** Among the explorer prefixes the one a link starts with decides the
    branch: the tests on the other prefixes fail. *)
Ltac only_prefix H :=
  let E := fresh "E" in
  pose proof (startsWith_split _ _ H) as E;
  repeat match goal with
         | |- context [startsWith ?l (lit ?q)] =>
             lazymatch type of H with
             | startsWith l (lit q) = true => fail
             | _ => idtac
             end;
             replace (startsWith l (lit q)) with false
               by (rewrite E; reflexivity)
         end;
  rewrite H; clear E.

Lemma byHashLink_oneRequest (txLink : str) (forcedTestnet : option bool)
    (cutTest cutMain : nat) (decode : str -> list byte) :
  linkToTx index txLink forcedTestnet
  = byHashLink index txLink forcedTestnet (lit "testnet.") cutTest cutMain
      decode ->
  oneRequest index txLink forcedTestnet cutTest cutMain decode.
Proof.
  intros E. unfold oneRequest. rewrite E. clear E. unfold byHashLink.
  generalize (orElse forcedTestnet (includes txLink (lit "testnet."))) as net.
  intros net. cbv zeta.
  destruct net;
    [generalize (skipn cutTest txLink) as infoPart
    |generalize (skipn cutMain txLink) as infoPart];
    intros infoPart; run_all;
    (split; [repeat branch_all; reflexivity|]); split;
    try (intros H; rewrite H; reflexivity);
    intros t ts n a H Ha Hn; rewrite H;
    cbn [trace triedFormats fst snd app]; rewrite Ha, Hn; reflexivity.
Qed.

(** The requests of a call on a link of a hash-only shape. *)
Lemma hash_links_requests (txLink : str) (forcedTestnet : option bool) :
  (startsWith txLink (lit "https://tonviewer.com/") = true
   \/ startsWith txLink (lit "https://testnet.tonviewer.com/") = true ->
   oneRequest index txLink forcedTestnet 42 34 Buffer_from_hex)
  /\ (startsWith txLink (lit "https://tonscan.org/tx/") = true
      \/ startsWith txLink (lit "https://testnet.tonscan.org/tx/") = true ->
      oneRequest index txLink forcedTestnet 31 23 Buffer_from_base64)
  /\ (startsWith txLink (lit "https://dton.io/tx") = true
      \/ startsWith txLink (lit "https://testnet.dton.io/tx") = true ->
      oneRequest index txLink forcedTestnet 27 19 Buffer_from_hex).
Proof.
  split; [|split]; intros [H | H]; apply byHashLink_oneRequest;
    unfold linkToTx; only_prefix H; rewrite ?orb_true_r; reflexivity.
Qed.

(** The network a well-formed hash-only link names is the one of its
    host, for a hash text without a dot. *)
Lemma hashLink_network (testnet : bool) (h : str) :
  ~ In "."%char h ->
  includes (hashLink testnet "tonviewer.com/transaction/" h) (lit "testnet.")
  = testnet
  /\ includes (hashLink testnet "tonscan.org/tx/" h) (lit "testnet.") = testnet
  /\ includes (hashLink testnet "dton.io/tx/" h) (lit "testnet.") = testnet.
Proof.
  intros Hdot.
  assert (Hh : includes h (lit "testnet.") = false).
  { apply (without_char "."%char); [|exact Hdot].
    do 7 right. left. reflexivity. }
  destruct testnet.
  - repeat split; apply (includes_app (lit "https://") (lit "testnet.")).
  - assert (E1 : forall r, includes (lit "https://tonviewer.com/transaction/" ++ r)
                             (lit "testnet.")
                           = includes r (lit "testnet.")) by reflexivity.
    assert (E2 : forall r, includes (lit "https://tonscan.org/tx/" ++ r)
                             (lit "testnet.")
                           = includes r (lit "testnet.")) by reflexivity.
    assert (E3 : forall r, includes (lit "https://dton.io/tx/" ++ r)
                             (lit "testnet.")
                           = includes r (lit "testnet.")) by reflexivity.
    split; [|split].
    + exact (eq_trans (E1 h) Hh).
    + exact (eq_trans (E2 h) Hh).
    + exact (eq_trans (E3 h) Hh).
Qed.

(** X6: a link of one of the three hash-only shapes (tonviewer, tonscan,
    dton) costs exactly one request, with no wait and no second attempt; an
    empty answer ends the call on its missing first transaction.  The
    network is testnet when the hint says so or the link contains
    "testnet.", and the request is for the link without its first 42, 31
    or 27 characters on testnet and 34, 23 or 19 on mainnet, whatever the
    link holds there.  So for a link made of the host of a network, the
    site with its path and a hash text, with a hint that does not
    contradict the host, the request is for the hash text on the network of
    the host; and with the testnet hint on a link with the mainnet host
    the request goes to testnet for the hash text without its first 8
    characters. *)
Theorem hash_links_one_request (h : str) (testnet : bool)
    (forcedTestnet : option bool) :
  ~ In "."%char h ->
  (orElse forcedTestnet testnet = testnet ->
   oneLookup index (hashLink testnet "tonviewer.com/transaction/" h)
     forcedTestnet h testnet Buffer_from_hex
   /\ oneLookup index (hashLink testnet "tonscan.org/tx/" h)
        forcedTestnet h testnet Buffer_from_base64
   /\ oneLookup index (hashLink testnet "dton.io/tx/" h)
        forcedTestnet h testnet Buffer_from_hex)
  /\ (oneLookup index (hashLink false "tonviewer.com/transaction/" h)
        (Some true) (skipn 8 h) true Buffer_from_hex
      /\ oneLookup index (hashLink false "tonscan.org/tx/" h)
           (Some true) (skipn 8 h) true Buffer_from_base64
      /\ oneLookup index (hashLink false "dton.io/tx/" h)
           (Some true) (skipn 8 h) true Buffer_from_hex)
  /\ (forall txLink,
        (startsWith txLink (lit "https://tonviewer.com/") = true
         \/ startsWith txLink (lit "https://testnet.tonviewer.com/") = true ->
         oneRequest index txLink forcedTestnet 42 34 Buffer_from_hex)
        /\ (startsWith txLink (lit "https://tonscan.org/tx/") = true
            \/ startsWith txLink (lit "https://testnet.tonscan.org/tx/") = true ->
            oneRequest index txLink forcedTestnet 31 23 Buffer_from_base64)
        /\ (startsWith txLink (lit "https://dton.io/tx") = true
            \/ startsWith txLink (lit "https://testnet.dton.io/tx") = true ->
            oneRequest index txLink forcedTestnet 27 19 Buffer_from_hex)).
Proof.
  intros Hdot.
  destruct (hashLink_network testnet h Hdot) as (I1 & I2 & I3).
  split; [|split].
  - intros Hf.
    pose proof (hash_links_requests
                  (hashLink testnet "tonviewer.com/transaction/" h)
                  forcedTestnet) as (K1 & _ & _).
    pose proof (hash_links_requests
                  (hashLink testnet "tonscan.org/tx/" h)
                  forcedTestnet) as (_ & K2 & _).
    pose proof (hash_links_requests
                  (hashLink testnet "dton.io/tx/" h)
                  forcedTestnet) as (_ & _ & K3).
    unfold oneRequest in K1, K2, K3. cbv zeta in K1, K2, K3.
    rewrite I1, Hf in K1. rewrite I2, Hf in K2. rewrite I3, Hf in K3.
    unfold oneLookup. cbv zeta.
    destruct testnet.
    + split; [|split];
        [exact (K1 (or_intror eq_refl)) | exact (K2 (or_intror eq_refl))
        | exact (K3 (or_intror eq_refl))].
    + split; [|split];
        [exact (K1 (or_introl eq_refl)) | exact (K2 (or_introl eq_refl))
        | exact (K3 (or_introl eq_refl))].
  - pose proof (hash_links_requests
                  (hashLink false "tonviewer.com/transaction/" h)
                  (Some true)) as (K1 & _ & _).
    pose proof (hash_links_requests
                  (hashLink false "tonscan.org/tx/" h)
                  (Some true)) as (_ & K2 & _).
    pose proof (hash_links_requests
                  (hashLink false "dton.io/tx/" h)
                  (Some true)) as (_ & _ & K3).
    split; [|split];
      [exact (K1 (or_introl eq_refl)) | exact (K2 (or_introl eq_refl))
      | exact (K3 (or_introl eq_refl))].
  - intros txLink. apply hash_links_requests.
Qed.

(** X7: with the testnet hint a bare hash is looked up on testnet only:
    one wait, one request, and mainnet is never asked.  An empty answer
    ends the call with the list of the five explorer formats and the
    engine's error on the missing first transaction. *)
Theorem forced_testnet_skips_mainnet (txLink : str) :
  isExplorerLink txLink = false ->
  ~ In ":"%char txLink ->
  length (hashText txLink) = 64 ->
  let h := hashText txLink in
  let out := run (linkToTx index txLink (Some true)) in
  fst out = [RateLimitWait; Fetch h true]
  /\ (forall t ts n a,
        index [RateLimitWait] h true = Found (t :: ts) ->
        BigInt (Indexed.lt t) = Some n ->
        Address_parseRaw (Indexed.account t) = Some a ->
        snd out
        = Ok {| tx := {| lt := n;
                         hash := Buffer_from_base64 (Indexed.hash t);
                         addr := a |};
                testnet := true |})
  /\ (index [RateLimitWait] h true = Found [] ->
      snd out
      = Throw (Error (formatsError ++ lit ". "
                      ++ (if str_eqb (faultMessage UndefinedProperty) (lit "nope")
                          then []
                          else lit "Got strange error: "
                               ++ faultMessage UndefinedProperty)))).
Proof.
  intros He Hc L h out. subst out h.
  rewrite linkToTx_bare_hash by assumption.
  run_all. rewrite L. cbn [Nat.eqb negb trace triedFormats fst snd app].
  split; [repeat branch_all; reflexivity|]. split.
  - intros t ts n a H Hn Ha. rewrite H.
    cbn [trace triedFormats fst snd app]. rewrite Hn, Ha. reflexivity.
  - intros H. rewrite H. cbn [trace triedFormats fst snd app].
    destruct (str_eqb (faultMessage UndefinedProperty) (lit "nope"));
      reflexivity.
Qed.

Lemma split_loop_cut (c : ascii) (x r : str) :
  ~ In c x ->
  forall cur,
    split_loop [c] (x ++ c :: r) 0 cur
    = (rev cur ++ x) :: split_loop [c] r 0 [].
Proof.
  induction x as [|d x IH]; intros H cur.
  - cbn [app split_loop startsWith]. rewrite Ascii.eqb_refl.
    cbn [andb length Nat.sub]. rewrite app_nil_r. reflexivity.
  - cbn [app split_loop startsWith].
    destruct (Ascii.eqb_spec c d) as [->|N].
    + exfalso; apply H; left; reflexivity.
    + cbn [andb]. rewrite IH by (intros I; apply H; right; exact I).
      cbn [rev]. rewrite <- app_assoc. reflexivity.
Qed.

(** X8: a reference [<lt>:<hash>] asks mainnet for the hash first, with no
    wait before it, and testnet, after a wait, only when mainnet gave no
    transaction.  The locator takes its logical time and its hash from the
    reference itself and only the address from the index.  When both
    answers are empty the call ends with the list of formats, these two
    attempts included. *)
Theorem lt_hash_reference (ltStr hashStr : str) (n : Z)
    (forcedTestnet : option bool) :
  let txLink := ltStr ++ lit ":" ++ hashStr in
  isExplorerLink txLink = false ->
  ~ In ":"%char ltStr -> ~ In ":"%char hashStr ->
  BigInt ltStr = Some n ->
  forcedTestnet <> Some true ->
  let r1 := index [] hashStr false in
  let r2 := index [Fetch hashStr false; RateLimitWait] hashStr true in
  let out := run (linkToTx index txLink forcedTestnet) in
  (forall t ts a,
      r1 = Found (t :: ts) ->
      Address_parseRaw (Indexed.account t) = Some a ->
      out = ([Fetch hashStr false],
             Ok {| tx := {| lt := n; hash := Buffer_from_hex hashStr;
                            addr := a |};
                   testnet := false |}))
  /\ (forall t ts a,
        r1 = Found [] \/ (exists e, r1 = Failed e) ->
        r2 = Found (t :: ts) ->
        Address_parseRaw (Indexed.account t) = Some a ->
        out = ([Fetch hashStr false; RateLimitWait; Fetch hashStr true],
               Ok {| tx := {| lt := n; hash := Buffer_from_hex hashStr;
                              addr := a |};
                     testnet := true |}))
  /\ (r1 = Found [] -> r2 = Found [] ->
      endsWith txLink (lit "=") = false -> length txLink <> 64 ->
      out = ([Fetch hashStr false; RateLimitWait; Fetch hashStr true],
             Throw (Error (formatsError
                           ++ lit ", lt:hash mainnet, lt:hash testnet. Got strange error: "
                           ++ lengthError)))).
Proof.
  intros txLink He H1 H2 Hn Hf r1 r2 out. subst out r2 r1.
  rewrite linkToTx_bare by assumption.
  assert (Hs : split txLink (lit ":") = [ltStr; hashStr]).
  { unfold txLink, split. change (lit ":") with [":"%char]. cbn [app].
    rewrite split_loop_cut by assumption.
    rewrite split_loop_absent by assumption. reflexivity. }
  assert (Hforced : forcedTestnet = None \/ forcedTestnet = Some false).
  { destruct forcedTestnet as [[|]|]; [congruence | auto | auto]. }
  unfold ltHashFormat. rewrite Hs. cbn [nth nth_error].
  run_all. rewrite Hn. cbn [trace triedFormats fst snd app].
  split; [|split].
  - intros t ts a R1 Ha.
    destruct Hforced as [-> | ->];
      cbn [trace triedFormats fst snd app]; rewrite R1;
      cbn [trace triedFormats fst snd app length Nat.eqb];
      rewrite Ha; reflexivity.
  - intros t ts a R1 R2 Ha.
    destruct R1 as [R1 | [[m|] R1]];
      destruct Hforced as [-> | ->];
      cbn [trace triedFormats fst snd app]; rewrite R1;
      cbn [trace triedFormats fst snd app length Nat.eqb]; rewrite R2;
      cbn [trace triedFormats fst snd app length Nat.eqb];
      rewrite Ha; reflexivity.
  - intros R1 R2 Ee L.
    apply Nat.eqb_neq in L.
    destruct Hforced as [-> | ->];
      cbn [trace triedFormats fst snd app]; rewrite R1;
      cbn [trace triedFormats fst snd app length Nat.eqb]; rewrite R2;
      cbn [trace triedFormats fst snd app length Nat.eqb];
      unfold hashText; rewrite Ee, L; reflexivity.
Qed.

(** X9: whatever the reference and whatever the index answers, the last
    branch of [linkToTx] (no explorer prefix) either returns a locator or
    throws the one error that opens with the list of the explorer formats:
    no error of the index, of a conversion or of the engine leaves it
    unwrapped. *)
Theorem bare_reference_errors_are_wrapped (txLink : str)
    (forcedTestnet : option bool) :
  isExplorerLink txLink = false ->
  (exists res, snd (run (linkToTx index txLink forcedTestnet)) = Ok res)
  \/ (exists rest,
        snd (run (linkToTx index txLink forcedTestnet))
        = Throw (Error (formatsError ++ rest))).
Proof.
  intros He. rewrite linkToTx_bare by assumption.
  unfold ltHashFormat.
  generalize (split txLink (lit ":")) as pieces. intros pieces.
  generalize (nth 0 pieces []) as ltStr. intros ltStr.
  run_all. unfold hashText.
  generalize (if endsWith txLink (lit "=")
              then Buffer.toHex (Buffer_from_base64 txLink) else txLink)
    as h.
  intros h.
  generalize (negb (length h =? 64)) as wrongLength. intros wrongLength.
  repeat branch_all;
    solve [left; eexists; reflexivity
          | right; eexists; unfold formatsError; cbn; reflexivity].
Qed.

Lemma isExplorerLink_cases (txLink : str) :
  isExplorerLink txLink = true ->
  startsWith txLink (lit "https://ton.cx/tx/") = true
  \/ startsWith txLink (lit "https://testnet.ton.cx/tx/") = true
  \/ startsWith txLink (lit "https://tonviewer.com/") = true
  \/ startsWith txLink (lit "https://testnet.tonviewer.com/") = true
  \/ startsWith txLink (lit "https://tonscan.org/tx/") = true
  \/ startsWith txLink (lit "https://testnet.tonscan.org/tx/") = true
  \/ startsWith txLink (lit "https://explorer.toncoin.org/transaction") = true
  \/ startsWith txLink (lit "https://test-explorer.toncoin.org/transaction") = true
  \/ startsWith txLink (lit "https://dton.io/tx") = true
  \/ startsWith txLink (lit "https://testnet.dton.io/tx") = true.
Proof.
  unfold isExplorerLink. rewrite !orb_true_iff.
  intros [[[[[H|H]|[H|H]]|[H|H]]|[H|H]]|[H|H]];
    [ left | do 1 right; left | do 2 right; left | do 3 right; left
    | do 4 right; left | do 5 right; left | do 6 right; left
    | do 7 right; left | do 8 right; left | do 9 right ]; exact H.
Qed.

(** X10: one call of [linkToTx] makes at most four requests to the index
    (mainnet and testnet for the [lt:hash] format, then for the bare hash),
    and at most one for an explorer link. *)
Theorem requests_are_bounded (txLink : str) (forcedTestnet : option bool) :
  length (filter isFetch (fst (run (linkToTx index txLink forcedTestnet)))) <= 4
  /\ (isExplorerLink txLink = true ->
      length (filter isFetch (fst (run (linkToTx index txLink forcedTestnet))))
      <= 1).
Proof.
  assert (Hx : isExplorerLink txLink = true ->
               length (filter isFetch
                         (fst (run (linkToTx index txLink forcedTestnet))))
               <= 1).
  { intros H. apply isExplorerLink_cases in H.
    pose proof (hash_links_requests txLink forcedTestnet) as (K1 & K2 & K3).
    unfold oneRequest in K1, K2, K3. cbv zeta in K1, K2, K3.
    assert (F : forall l n, l = [Fetch (skipn n txLink)
                                   (orElse forcedTestnet
                                      (includes txLink (lit "testnet.")))] ->
                        length (filter isFetch l) <= 1).
    { intros l n ->. cbn [filter isFetch length]. lia. }
    destruct H as [H | [H | [H | [H | [H | [H | [H | [H | [H | H]]]]]]]]].
    - rewrite (full_links_trace txLink forcedTestnet (or_introl H)).
      cbn [filter length]. lia.
    - rewrite (full_links_trace txLink forcedTestnet
                 (or_intror (or_introl H))).
      cbn [filter length]. lia.
    - destruct (K1 (or_introl H)) as [T _]. eapply F, T.
    - destruct (K1 (or_intror H)) as [T _]. eapply F, T.
    - destruct (K2 (or_introl H)) as [T _]. eapply F, T.
    - destruct (K2 (or_intror H)) as [T _]. eapply F, T.
    - rewrite (full_links_trace txLink forcedTestnet
                 (or_intror (or_intror (or_introl H)))).
      cbn [filter length]. lia.
    - rewrite (full_links_trace txLink forcedTestnet
                 (or_intror (or_intror (or_intror H)))).
      cbn [filter length]. lia.
    - destruct (K3 (or_introl H)) as [T _]. eapply F, T.
    - destruct (K3 (or_intror H)) as [T _]. eapply F, T. }
  split; [|exact Hx].
  destruct (isExplorerLink txLink) eqn:He; [specialize (Hx eq_refl); lia|].
  rewrite linkToTx_bare by assumption.
  unfold ltHashFormat.
  generalize (split txLink (lit ":")) as pieces. intros pieces.
  generalize (nth 0 pieces []) as ltStr. intros ltStr.
  run_all. unfold hashText.
  generalize (if endsWith txLink (lit "=")
              then Buffer.toHex (Buffer_from_base64 txLink) else txLink)
    as h.
  intros h.
  generalize (negb (length h =? 64)) as wrongLength. intros wrongLength.
  repeat branch_all; cbn [filter isFetch length]; lia.
Qed.

Lemma toBase64_chars (buf : list byte) (c : ascii) :
  In c (Buffer.toBase64 buf) -> Buffer.b64Val c <> None \/ c = "="%char.
Proof.
  induction buf as [|x|x y|x y z buf IH] using list_ind3;
    cbn [Buffer.toBase64 In].
  - tauto.
  - pose proof (Byte.to_nat_bounded x) as Bx.
    destruct (sextet_bounds (Byte.to_nat x) 0 Bx ltac:(lia))
      as (B1 & _ & _ & _ & B2 & _).
    intros [<- | [<- | [<- | [<- | []]]]]; auto;
      left; rewrite b64Val_b64Char by assumption; discriminate.
  - pose proof (Byte.to_nat_bounded x) as Bx.
    pose proof (Byte.to_nat_bounded y) as By.
    destruct (sextet_bounds (Byte.to_nat x) (Byte.to_nat y) Bx By)
      as (B1 & B2 & _).
    destruct (sextet_bounds (Byte.to_nat y) 0 By ltac:(lia))
      as (_ & _ & _ & _ & _ & B3).
    intros [<- | [<- | [<- | [<- | []]]]]; auto;
      left; rewrite b64Val_b64Char by assumption; discriminate.
  - pose proof (Byte.to_nat_bounded x) as Bx.
    pose proof (Byte.to_nat_bounded y) as By.
    pose proof (Byte.to_nat_bounded z) as Bz.
    destruct (sextet_bounds (Byte.to_nat x) (Byte.to_nat y) Bx By)
      as (B1 & B2 & _).
    destruct (sextet_bounds (Byte.to_nat y) (Byte.to_nat z) By Bz)
      as (_ & _ & B3 & _).
    destruct (sextet_bounds (Byte.to_nat z) 0 Bz ltac:(lia))
      as (_ & _ & _ & B4 & _).
    intros [<- | [<- | [<- | [<- | H]]]]; auto;
      left; rewrite b64Val_b64Char by assumption; discriminate.
Qed.

Lemma toBase64_without (buf : list byte) (c : ascii) :
  Buffer.b64Val c = None -> c <> "="%char -> ~ In c (Buffer.toBase64 buf).
Proof. intros H1 H2 I. apply toBase64_chars in I. tauto. Qed.

(** X11: the ton.cx link made by [txToLinks] resolves back to the locator it
    was made from, with the same network flag and without any call, on a
    platform whose base64 decoder and address parser read back what the
    encoders wrote, for an address text without colon or dot, and with a
    hint that does not force testnet on a mainnet link. *)
Theorem toncx_link_round_trip (opts : BaseTxInfo) (testnet : bool)
    (forcedTestnet : option bool) :
  Buffer_from_base64 (Buffer.toBase64 (hash opts)) = hash opts ->
  Address_parse (Address_toString (addr opts)) = Some (addr opts) ->
  ~ In ":"%char (Address_toString (addr opts)) ->
  ~ In "."%char (Address_toString (addr opts)) ->
  orElse forcedTestnet testnet = testnet ->
  run (linkToTx index (toncx (txToLinks opts testnet)) forcedTestnet)
  = ([], Ok {| tx := opts; testnet := testnet |}).
Proof.
  intros Hb Ha Hcolon Hdot Hf.
  destruct opts as [n h a]. cbn [lt hash addr] in *.
  set (R := BigInt_toString n ++ lit ":" ++ Buffer.toBase64 h ++ lit ":"
            ++ Address_toString a).
  assert (Hs : split R (lit ":")
               = [BigInt_toString n; Buffer.toBase64 h; Address_toString a]).
  { unfold R, split. change (lit ":") with [":"%char]. cbn [app].
    rewrite split_loop_cut
      by (apply BigInt_toString_without; reflexivity).
    rewrite split_loop_cut
      by (apply toBase64_without; [reflexivity | discriminate]).
    rewrite split_loop_absent by assumption. reflexivity. }
  assert (Hd : includes R (lit "testnet.") = false).
  { destruct (includes R (lit "testnet.")) eqn:E; [exfalso|reflexivity].
    apply includes_chars with (c := "."%char) in E; [|cbn; tauto].
    unfold R in E.
    apply in_app_or in E as [E | E];
      [exact (BigInt_toString_without "." n eq_refl E)|].
    cbn [lit list_ascii_of_string app] in E.
    destruct E as [E | E]; [discriminate E|].
    apply in_app_or in E as [E | E];
      [exact (toBase64_without h "." eq_refl ltac:(discriminate) E)|].
    destruct E as [E | E]; [discriminate E | exact (Hdot E)]. }
  destruct testnet.
  - change (toncx (txToLinks {| lt := n; hash := h; addr := a |} true))
      with (lit "https://testnet.ton.cx/tx/" ++ R).
    unfold linkToTx.
    change (startsWith (lit "https://testnet.ton.cx/tx/" ++ R)
              (lit "https://ton.cx/tx/")) with false.
    rewrite startsWith_app. cbn [orb].
    replace (includes (lit "https://testnet.ton.cx/tx/" ++ R) (lit "testnet."))
      with true
      by (symmetry;
          apply (includes_app (lit "https://") (lit "testnet.")
                   (lit "ton.cx/tx/" ++ R))).
    replace (orElse forcedTestnet true) with true
      by (destruct forcedTestnet as [[|]|]; reflexivity).
    change (skipn 26 (lit "https://testnet.ton.cx/tx/" ++ R)) with R.
    rewrite Hs. cbn [nth nth_error]. run_all.
    rewrite BigInt_of_toString. cbn [trace triedFormats fst snd app].
    rewrite Ha, Hb. reflexivity.
  - change (toncx (txToLinks {| lt := n; hash := h; addr := a |} false))
      with (lit "https://ton.cx/tx/" ++ R).
    unfold linkToTx. rewrite startsWith_app. cbn [orb].
    change (includes (lit "https://ton.cx/tx/" ++ R) (lit "testnet."))
      with (includes R (lit "testnet.")).
    rewrite Hd.
    replace (orElse forcedTestnet false) with false by (symmetry; exact Hf).
    change (skipn 18 (lit "https://ton.cx/tx/" ++ R)) with R.
    rewrite Hs. cbn [nth nth_error]. run_all.
    rewrite BigInt_of_toString. cbn [trace triedFormats fst snd app].
    rewrite Ha, Hb. reflexivity.
Qed.

End ResolverMore.

(* ------------------------------------------------------------------ *)
(** ** The links of a locator *)

Lemma hexChar_digit (n : nat) :
  n < 16 -> In (hexChar n) (lit "0123456789abcdef").
Proof.
  intros H.
  do 16 (destruct n as [|n]; [cbn; tauto|]). lia.
Qed.

Lemma toHex_chars (buf : list byte) (c : ascii) :
  In c (toHex buf) -> In c (lit "0123456789abcdef").
Proof.
  induction buf as [|b buf IH]; cbn [toHex]; [intros []|].
  pose proof (Byte.to_nat_bounded b) as Hb.
  intros [<- | [<- | I]].
  - apply hexChar_digit. apply Nat.Div0.div_lt_upper_bound. lia.
  - apply hexChar_digit. apply Nat.mod_upper_bound. discriminate.
  - apply IH, I.
Qed.

Lemma toHex_without (buf : list byte) (c : ascii) :
  existsb (Ascii.eqb c) (lit "0123456789abcdef") = false ->
  ~ In c (toHex buf).
Proof.
  intros H I. apply (not_In_by_eval _ _ H). apply (toHex_chars buf c I).
Qed.

(** A cut at a character takes the text after its last occurrence as the
    last piece. *)
Lemma split_loop_last (c : ascii) (x y : str) :
  ~ In c y ->
  forall cur,
    split_loop [c] (x ++ c :: y) 0 cur = split_loop [c] x 0 cur ++ [y].
Proof.
  intros Hy. induction x as [|d x IH]; intros cur.
  - cbn [app split_loop startsWith]. rewrite Ascii.eqb_refl.
    cbn [andb length Nat.sub]. rewrite split_loop_absent by exact Hy.
    reflexivity.
  - cbn [app split_loop startsWith].
    destruct (Ascii.eqb c d); cbn [andb length Nat.sub].
    + rewrite IH. reflexivity.
    + apply IH.
Qed.

Lemma endsWith_app (x p : str) : endsWith (x ++ p) p = true.
Proof. unfold endsWith. rewrite rev_app_distr. apply startsWith_app. Qed.

Section LinkFacts.
Context {P : Platform}.

Lemma toncoin_cut (a b : BaseTxInfo) (testnet : bool) :
  toncoin (txToLinks a testnet) = toncoin (txToLinks b testnet) ->
  Buffer.toHex (hash a) = Buffer.toHex (hash b)
  /\ Address_toString (addr a) = Address_toString (addr b)
  /\ BigInt_toString (lt a) = BigInt_toString (lt b).
Proof.
  cbn [toncoin txToLinks]. intros E.
  do 3 apply app_inv_head in E.
  change (lit "&hash=") with (lit "&hash" ++ ["="%char]) in E.
  rewrite !app_assoc in E.
  rewrite <- !(app_assoc _ ["="%char]) in E. cbn [app] in E.
  apply cut_at_last in E; try (apply toHex_without; reflexivity).
  destruct E as [E Eh].
  apply app_inv_tail in E.
  rewrite <- !app_assoc in E.
  change (lit "&lt=") with (lit "&lt" ++ ["="%char]) in E.
  rewrite <- !app_assoc in E. rewrite !app_assoc in E.
  rewrite <- !(app_assoc _ ["="%char]) in E. cbn [app] in E.
  apply cut_at_last in E;
    try (apply BigInt_toString_without; reflexivity).
  destruct E as [Ea Elt]. apply app_inv_tail in Ea.
  auto.
Qed.

(** C1, as the code has it.  Read the way [linkToTx] cuts them, the links of
    a locator give its data back: the ton.cx link, after its prefix and cut
    at ":", has the decimal text of the logical time, then the base64 text
    of the hash, and ends with the address text; the tonviewer link after
    its prefix is the hexadecimal text of the hash, the tonscan link after
    its prefix its base64 text; the explorer.toncoin.org link has the
    address text after "account=" and, as its last two fields, the decimal
    logical time and the hexadecimal hash.  Each text decodes to the same
    bytes or number.  So, with one testnet flag, equal links of these four
    shapes come from equal hashes (and, for the two full shapes, equal
    address texts and logical times), whatever the lengths of the
    hashes. *)
Theorem C1_links_carry_the_locator (a b : BaseTxInfo) (testnet : bool) :
  let la := txToLinks a testnet in
  let lb := txToLinks b testnet in
  let pieces :=
    split (skipn (if testnet then 26 else 18) (toncx la)) (lit ":") in
  let fields := rev (split (toncoin la) (lit "&")) in
  (BigInt (nth 0 pieces []) = Some (lt a)
   /\ Buffer.ofBase64 (nth 1 pieces []) = Some (hash a)
   /\ endsWith (toncx la) (lit ":" ++ Address_toString (addr a)) = true)
  /\ Buffer.ofHex (skipn (if testnet then 42 else 34) (tonviewer la))
     = Some (hash a)
  /\ Buffer.ofBase64 (skipn (if testnet then 31 else 23) (tonscan la))
     = Some (hash a)
  /\ (startsWith (skipn (if testnet then 54 else 49) (toncoin la))
        (Address_toString (addr a) ++ lit "&lt=") = true
      /\ BigInt (skipn 3 (nth 1 fields [])) = Some (lt a)
      /\ Buffer.ofHex (skipn 5 (nth 0 fields [])) = Some (hash a))
  /\ (toncx la = toncx lb ->
        hash a = hash b
        /\ Address_toString (addr a) = Address_toString (addr b)
        /\ lt a = lt b)
  /\ (tonviewer la = tonviewer lb -> hash a = hash b)
  /\ (tonscan la = tonscan lb -> hash a = hash b)
  /\ (toncoin la = toncoin lb ->
        hash a = hash b
        /\ Address_toString (addr a) = Address_toString (addr b)
        /\ lt a = lt b).
Proof.
  cbv zeta.
  assert (Colon : forall h, ~ In ":"%char (Buffer.toBase64 h))
    by (intros h; apply toBase64_without; [reflexivity | discriminate]).
  assert (ColonLt : forall n, ~ In ":"%char (BigInt_toString n))
    by (intros n; apply BigInt_toString_without; reflexivity).
  assert (EqHex : forall h, ~ In "="%char (Buffer.toHex h))
    by (intros h; apply toHex_without; reflexivity).
  assert (AmpHex : forall h, ~ In "&"%char (Buffer.toHex h))
    by (intros h; apply toHex_without; reflexivity).
  assert (AmpLt : forall n, ~ In "&"%char (BigInt_toString n))
    by (intros n; apply BigInt_toString_without; reflexivity).
  repeat apply conj.
  - (* ton.cx, logical time *)
    replace (skipn (if testnet then 26 else 18) (toncx (txToLinks a testnet)))
      with (BigInt_toString (lt a) ++ ":"%char
            :: (Buffer.toBase64 (hash a) ++ ":"%char
                :: Address_toString (addr a)))
      by (destruct testnet; reflexivity).
    unfold split. change (lit ":") with [":"%char].
    rewrite split_loop_cut by apply ColonLt.
    cbn [nth rev app]. apply BigInt_of_toString.
  - (* ton.cx, hash *)
    replace (skipn (if testnet then 26 else 18) (toncx (txToLinks a testnet)))
      with (BigInt_toString (lt a) ++ ":"%char
            :: (Buffer.toBase64 (hash a) ++ ":"%char
                :: Address_toString (addr a)))
      by (destruct testnet; reflexivity).
    unfold split. change (lit ":") with [":"%char].
    rewrite split_loop_cut by apply ColonLt.
    rewrite split_loop_cut by apply Colon.
    cbn [nth rev app]. apply ofBase64_toBase64.
  - (* ton.cx, address *)
    replace (toncx (txToLinks a testnet))
      with ((lit "https://" ++ host testnet "testnet." ++ lit "ton.cx/tx/"
             ++ BigInt_toString (lt a) ++ lit ":"
             ++ Buffer.toBase64 (hash a))
            ++ (lit ":" ++ Address_toString (addr a)))
      by (cbn [toncx txToLinks]; rewrite <- !app_assoc; reflexivity).
    apply endsWith_app.
  - (* tonviewer *)
    replace (skipn (if testnet then 42 else 34)
               (tonviewer (txToLinks a testnet)))
      with (Buffer.toHex (hash a)) by (destruct testnet; reflexivity).
    apply ofHex_toHex.
  - (* tonscan *)
    replace (skipn (if testnet then 31 else 23)
               (tonscan (txToLinks a testnet)))
      with (Buffer.toBase64 (hash a)) by (destruct testnet; reflexivity).
    apply ofBase64_toBase64.
  - (* toncoin, address *)
    replace (skipn (if testnet then 54 else 49)
               (toncoin (txToLinks a testnet)))
      with ((Address_toString (addr a) ++ lit "&lt=")
            ++ BigInt_toString (lt a) ++ lit "&hash="
            ++ Buffer.toHex (hash a))
      by (destruct testnet; cbn [toncoin txToLinks host];
          rewrite <- !app_assoc; reflexivity).
    apply startsWith_app.
  - (* toncoin, logical time *)
    cbn [toncoin txToLinks].
    set (pre := lit "https://" ++ host testnet "test-"
                ++ lit "explorer.toncoin.org/transaction?account="
                ++ Address_toString (addr a)).
    replace (lit "https://" ++ host testnet "test-"
             ++ lit "explorer.toncoin.org/transaction?account="
             ++ Address_toString (addr a) ++ lit "&lt="
             ++ BigInt_toString (lt a) ++ lit "&hash="
             ++ Buffer.toHex (hash a))
      with ((pre ++ "&"%char :: (lit "lt=" ++ BigInt_toString (lt a)))
            ++ "&"%char :: (lit "hash=" ++ Buffer.toHex (hash a)))
      by (unfold pre; rewrite <- ?app_assoc;
          cbn [app lit list_ascii_of_string];
          rewrite <- ?app_assoc; reflexivity).
    unfold split. change (lit "&") with ["&"%char].
    rewrite split_loop_last
      by (intros [I | [I | [I | [I | [I | I]]]]]; try discriminate I;
          exact (AmpHex _ I)).
    rewrite split_loop_last
      by (intros [I | [I | [I | I]]]; try discriminate I;
          exact (AmpLt _ I)).
    rewrite !rev_app_distr. cbn [rev app nth].
    apply BigInt_of_toString.
  - (* toncoin, hash *)
    cbn [toncoin txToLinks].
    set (pre := lit "https://" ++ host testnet "test-"
                ++ lit "explorer.toncoin.org/transaction?account="
                ++ Address_toString (addr a) ++ lit "&lt="
                ++ BigInt_toString (lt a)).
    replace (lit "https://" ++ host testnet "test-"
             ++ lit "explorer.toncoin.org/transaction?account="
             ++ Address_toString (addr a) ++ lit "&lt="
             ++ BigInt_toString (lt a) ++ lit "&hash="
             ++ Buffer.toHex (hash a))
      with (pre ++ "&"%char :: (lit "hash=" ++ Buffer.toHex (hash a)))
      by (unfold pre; rewrite <- ?app_assoc; reflexivity).
    unfold split. change (lit "&") with ["&"%char].
    rewrite split_loop_last
      by (intros [I | [I | [I | [I | [I | I]]]]]; try discriminate I;
          exact (AmpHex _ I)).
    rewrite rev_app_distr. cbn [rev app nth].
    apply ofHex_toHex.
  - intros H. cbn [toncx txToLinks] in H. do 3 apply app_inv_head in H.
    apply cut_at_first in H; try apply ColonLt.
    destruct H as [Hl H].
    apply cut_at_first in H; try apply Colon.
    destruct H as [Hh Ha].
    auto using toBase64_inj, BigInt_toString_inj.
  - intros H. cbn [tonviewer txToLinks] in H.
    do 3 apply app_inv_head in H. apply toHex_inj, H.
  - intros H. cbn [tonscan txToLinks] in H.
    do 3 apply app_inv_head in H. apply toBase64_inj, H.
  - intros H. apply toncoin_cut in H. destruct H as (Hh & Ha & Hl).
    auto using toHex_inj, BigInt_toString_inj.
Qed.

End LinkFacts.

Example links_of_sample_locator :
  toncx (txToLinks Sample.locator false)
  = lit "https://ton.cx/tx/47670702000009:Pl9JeY3iOdpdj4C03DACBNN2E+QgOj97h3wEqIyBhWs=:EQDa4VOnTYlLvDJ0gZjNYm5PXfSmmtL6Vs6A_CZEtXCNICq_"
  /\ tonviewer (txToLinks Sample.locator true)
     = lit "https://testnet.tonviewer.com/transaction/3e5f49798de239da5d8f80b4dc300204d37613e4203a3f7b877c04a88c81856b"
  /\ tonscan (txToLinks Sample.locator false)
     = lit "https://tonscan.org/tx/Pl9JeY3iOdpdj4C03DACBNN2E+QgOj97h3wEqIyBhWs="
  /\ toncoin (txToLinks Sample.locator true)
     = lit "https://test-explorer.toncoin.org/transaction?account=EQDa4VOnTYlLvDJ0gZjNYm5PXfSmmtL6Vs6A_CZEtXCNICq_&lt=47670702000009&hash=3e5f49798de239da5d8f80b4dc300204d37613e4203a3f7b877c04a88c81856b".
Proof. split; [|split; [|split]]; vm_compute; reflexivity. Qed.

Lemma C1_links_carry_the_locator_witness :
  hash Sample.locator = hash Sample.otherAddress
  /\ Buffer.ofHex (skipn 34 (tonviewer (txToLinks Sample.locator false)))
     = Some (hash Sample.locator)
  /\ Buffer.ofBase64 (skipn 23 (tonscan (txToLinks Sample.locator false)))
     = Some (hash Sample.locator).
Proof.
  pose proof (C1_links_carry_the_locator (P := Sample.platform)
                Sample.locator Sample.otherAddress false) as H.
  cbv zeta in H.
  destruct H as (_ & Hv & Hs & _ & _ & Hinj & _).
  split; [apply Hinj; vm_compute; reflexivity|].
  split; [exact Hv | exact Hs].
Defined.

(** C1 as stated fails: the dton link is the same for two locators with
    different hashes, and the tonviewer link is the same for two locators
    with different addresses. *)
Lemma C1_links_counterexample :
  hash Sample.locator <> hash Sample.otherHash
  /\ dton (txToLinks Sample.locator false)
     = dton (txToLinks Sample.otherHash false)
  /\ Address_toString (addr Sample.locator)
     <> Address_toString (addr Sample.otherAddress)
  /\ tonviewer (txToLinks Sample.locator false)
     = tonviewer (txToLinks Sample.otherAddress false).
Proof.
  split; [vm_compute; discriminate|].
  split; [vm_compute; reflexivity|].
  split; [vm_compute; discriminate | vm_compute; reflexivity].
Qed.



(* ------------------------------------------------------------------ *)
(** ** More on the opcode classifier *)

Lemma filter_head_In (A : Type) (f : A -> bool) (l : list A) (a : A)
    (r : list A) :
  filter f l = a :: r -> In a l /\ f a = true.
Proof.
  intros H. apply filter_In. rewrite H. left; reflexivity.
Qed.

Lemma laterTiers_In (opcodes : list Opcode) (commandName : str) (op : Opcode) :
  laterTiers opcodes commandName = Some op -> In op opcodes.
Proof.
  unfold laterTiers.
  destruct (find (templateMatches commandName) opcodes) eqn:F.
  - intros [= <-]. apply find_some in F. tauto.
  - destruct (filter _ opcodes) eqn:D.
    + destruct (filter _ opcodes) eqn:N in |- *; [discriminate|].
      intros [= <-]. apply filter_head_In in N. tauto.
    + intros [= <-]. apply filter_head_In in D. tauto.
Qed.

Lemma xchgTier_In (opcodes : list Opcode) (parts : list str) (op : Opcode) :
  xchgTier opcodes parts = Some (Some op) -> In op opcodes.
Proof.
  unfold xchgTier, findByName.
  repeat match goal with
         | |- context [if ?c then _ else _] => destruct c
         | |- context [match ?x with _ => _ end] => destruct x
         end;
    intros [= H]; apply find_some in H; tauto.
Qed.

Lemma findOpcodeInfo_member (opcodes : list Opcode) (opcodeStr : str)
    (op : Opcode) :
  findOpcodeInfo opcodes opcodeStr = Some op -> In op opcodes.
Proof.
  unfold findOpcodeInfo.
  destruct (isEmpty opcodeStr || (length opcodes =? 0)); [discriminate|].
  destruct (find _ opcodes) eqn:F.
  - intros [= <-]. apply find_some in F. tauto.
  - destruct (str_eqb (commandNameOf opcodeStr) (lit "XCHG")).
    + destruct (xchgTier opcodes (partsOf opcodeStr)) as [[o|]|] eqn:X.
      * intros [= <-]. apply xchgTier_In in X. exact X.
      * discriminate.
      * apply laterTiers_In.
    + apply laterTiers_In.
Qed.

(** X12: the classifier never makes a record up: whatever tier decides, a
    record it returns is one of the catalog. *)
Theorem findOpcodeInfo_in_catalog (opcodes : list Opcode) (opcodeStr : str)
    (op : Opcode) :
  findOpcodeInfo opcodes opcodeStr = Some op -> In op opcodes.
Proof. apply findOpcodeInfo_member. Qed.

(** X13: except for the command XCHG the operands play no part: two texts
    with the same command name get the same record. *)
Theorem findOpcodeInfo_ignores_operands (opcodes : list Opcode)
    (text1 text2 : str) :
  text1 <> [] -> text2 <> [] ->
  commandNameOf text1 = commandNameOf text2 ->
  commandNameOf text1 <> lit "XCHG" ->
  findOpcodeInfo opcodes text1 = findOpcodeInfo opcodes text2.
Proof.
  intros H1 H2 E N. unfold findOpcodeInfo.
  rewrite (isEmpty_false _ H1), (isEmpty_false _ H2), <- E.
  assert (X : str_eqb (commandNameOf text1) (lit "XCHG") = false).
  { destruct (str_eqb (commandNameOf text1) (lit "XCHG")) eqn:S;
      [apply str_eqb_eq in S; congruence | reflexivity]. }
  rewrite X. reflexivity.
Qed.

Lemma is_digit_isDigitIn (c : ascii) : is_digit c = true -> isDigitIn 10 c = true.
Proof.
  intros H. apply is_digit_cases in H. cbn in H.
  repeat (destruct H as [<- | H]; [reflexivity|]). destruct H.
Qed.

Lemma takeWhile_digits (t : str) :
  forallb is_digit t = true -> takeWhile (isDigitIn 10) t = t.
Proof.
  intros H. apply takeWhile_all.
  rewrite forallb_forall in *. intros c I. apply is_digit_isDigitIn, H, I.
Qed.

(** On a non-empty text of decimal digits [parseInt] reads the whole
    numeral in radix 10. *)
Lemma parseInt_digits (t : str) :
  t <> [] -> forallb is_digit t = true ->
  parseInt t = digits 10 t 0
  /\ parseInt ("-"%char :: t) = option_map Z.opp (digits 10 t 0).
Proof.
  intros Hne Hd.
  pose proof (takeWhile_digits t Hd) as Ht.
  destruct t as [|c1 t]; [congruence|].
  pose proof Hd as Hd0.
  cbn [forallb] in Hd. apply andb_true_iff in Hd as [H1 Hd].
  pose proof (is_digit_not_space c1 H1) as S1.
  unfold parseInt.
  rewrite (dropWhile_head is_space c1 t S1).
  change (dropWhile is_space ("-"%char :: c1 :: t)) with ("-"%char :: c1 :: t).
  apply is_digit_cases in H1. cbn in H1.
  destruct t as [|c2 t].
  - repeat (destruct H1 as [<- | H1]; [split; reflexivity|]). destruct H1.
  - pose proof Hd as Hd1.
    cbn [forallb] in Hd. apply andb_true_iff in Hd as [H2 Hd].
    apply is_digit_cases in H2. cbn in H2.
    destruct H1 as [<- | H1].
    + repeat (destruct H2 as [<- | H2];
              [cbv beta iota zeta; rewrite Ht; unfold numeral;
               cbn [isEmpty];
               split; [destruct (digits _ _ _); reflexivity | reflexivity]|]).
      destruct H2.
    + repeat (destruct H1 as [<- | H1];
              [cbv beta iota zeta; rewrite Ht; unfold numeral;
               cbn [isEmpty];
               split; [destruct (digits _ _ _); reflexivity | reflexivity]|]).
      destruct H1.
Qed.

(** [parseInt] reads the decimal text of an integer back. *)
Lemma parseInt_of_toString (n : Z) : parseInt (BigInt_toString n) = Some n.
Proof.
  unfold BigInt_toString.
  destruct n as [|p|p]; cbn [Z.to_int NilZero.string_of_int].
  - reflexivity.
  - pose proof (DecimalPos.Unsigned.to_uint_nonnil p) as Hn.
    replace (NilZero.string_of_uint (Pos.to_uint p))
      with (NilEmpty.string_of_uint (Pos.to_uint p))
      by (destruct (Pos.to_uint p); [congruence | reflexivity ..]).
    rewrite (proj1 (parseInt_digits _ (uint_text_nonempty _ Hn)
                      (uint_digits_only _))).
    rewrite digits_uint.
    change (Pos.of_uint (Pos.to_uint p)) with (N.of_uint (N.to_uint (Npos p))).
    rewrite DecimalN.Unsigned.of_to. reflexivity.
  - pose proof (DecimalPos.Unsigned.to_uint_nonnil p) as Hn.
    replace (NilZero.string_of_uint (Pos.to_uint p))
      with (NilEmpty.string_of_uint (Pos.to_uint p))
      by (destruct (Pos.to_uint p); [congruence | reflexivity ..]).
    cbn [lit list_ascii_of_string].
    change (list_ascii_of_string (NilEmpty.string_of_uint (Pos.to_uint p)))
      with (lit (NilEmpty.string_of_uint (Pos.to_uint p))).
    rewrite (proj2 (parseInt_digits _ (uint_text_nonempty _ Hn)
                      (uint_digits_only _))).
    rewrite digits_uint.
    change (Pos.of_uint (Pos.to_uint p)) with (N.of_uint (N.to_uint (Npos p))).
    rewrite DecimalN.Unsigned.of_to. reflexivity.
Qed.

Lemma trim_nonspace_ends (c d : ascii) (m : str) :
  is_space c = false -> is_space d = false ->
  trim (c :: m ++ [d]) = c :: m ++ [d].
Proof.
  intros Hc Hd. unfold trim.
  rewrite dropWhile_head by exact Hc.
  change (c :: m ++ [d]) with ((c :: m) ++ [d]).
  generalize (c :: m); intros l.
  rewrite rev_app_distr. cbn [rev app].
  rewrite dropWhile_head by exact Hd.
  cbn [rev]. rewrite rev_involutive; reflexivity.
Qed.

Lemma trim_frame (c : ascii) (m x : str) :
  is_space c = false -> x <> [] ->
  (forall d, In d x -> is_space d = false) ->
  trim (c :: m ++ x) = c :: m ++ x.
Proof.
  intros Hc Hx Hs.
  destruct (exists_last Hx) as (x' & d & ->).
  rewrite app_assoc. apply trim_nonspace_ends; [exact Hc|].
  apply Hs, in_or_app. right. left. reflexivity.
Qed.

Lemma BigInt_toString_nonempty (n : Z) : BigInt_toString n <> [].
Proof.
  unfold BigInt_toString, lit. intros E.
  destruct (to_int_proper n) as [H1 H2].
  destruct (Z.to_int n) as [[]|[]]; try discriminate E; congruence.
Qed.

(** A character that separates no part: neither white space nor comma. *)
Lemma numeral_no_separator (n : Z) (c : ascii) :
  In c (BigInt_toString n) -> is_space c = false /\ c <> ","%char.
Proof.
  intros I. pose proof (BigInt_toString_chars n) as H.
  rewrite forallb_forall in H. apply H in I.
  unfold isNumeralChar in I. apply orb_true_iff in I as [I | I].
  - split; [apply is_digit_not_space, I|]. intros ->. discriminate I.
  - apply Ascii.eqb_eq in I. subst c. split; [reflexivity | discriminate].
Qed.

Lemma splitRe_loop_end (x : str) :
  (forall c, In c x -> is_space c = false /\ c <> ","%char) ->
  forall inws cur, splitRe_loop true x inws cur = [rev cur ++ x].
Proof.
  induction x as [|d x IH]; intros H inws cur.
  - cbn. rewrite app_nil_r. reflexivity.
  - destruct (H d (or_introl eq_refl)) as [Hs Hc].
    cbn [splitRe_loop]. rewrite Hs.
    apply Ascii.eqb_neq in Hc. rewrite Hc. cbn [andb].
    rewrite IH by (intros c I; apply H; right; exact I).
    cbn [rev]. rewrite <- app_assoc. reflexivity.
Qed.

Lemma splitRe_loop_comma (x r : str) :
  (forall c, In c x -> is_space c = false /\ c <> ","%char) ->
  forall inws cur,
    splitRe_loop true (x ++ ","%char :: r) inws cur
    = (rev cur ++ x) :: splitRe_loop true r false [].
Proof.
  induction x as [|d x IH]; intros H inws cur.
  - cbn. rewrite app_nil_r. reflexivity.
  - destruct (H d (or_introl eq_refl)) as [Hs Hc].
    cbn [app splitRe_loop]. rewrite Hs.
    apply Ascii.eqb_neq in Hc. rewrite Hc. cbn [andb].
    rewrite IH by (intros c I; apply H; right; exact I).
    cbn [rev]. rewrite <- app_assoc. reflexivity.
Qed.

(** The lookups the text of an exchange of two stack slots ends in. *)
Lemma xchg_text_lookup (opcodes : list Opcode) (i j : Z) :
  opcodes <> [] ->
  find (fun op => str_eqb (toUpperCase (name op)) (lit "XCHG")) opcodes = None ->
  findOpcodeInfo opcodes
    (lit "XCHG s" ++ BigInt_toString i ++ lit ",s" ++ BigInt_toString j)
  = if (i =? 0)%Z then findByName opcodes (lit "XCHG_0I")
    else if (i =? 1)%Z then
      if (2 <=? j)%Z then findByName opcodes (lit "XCHG_1I")
      else laterTiers opcodes (lit "XCHG")
    else if (2 <=? i)%Z && (i <? j)%Z && (j <=? 15)%Z
      then findByName opcodes (lit "XCHG_IJ")
      else laterTiers opcodes (lit "XCHG").
Proof.
  intros Hcat Hexact.
  set (text := lit "XCHG s" ++ BigInt_toString i ++ lit ",s" ++ BigInt_toString j).
  assert (Hparts : partsOf text
                   = [lit "XCHG"; lit "s" ++ BigInt_toString i;
                      lit "s" ++ BigInt_toString j]).
  { unfold partsOf, normalize.
    assert (Ht : trim text = text).
    { unfold text. cbn [lit list_ascii_of_string app].
      change ("C"%char :: "H"%char :: "G"%char :: " "%char :: "s"%char
              :: BigInt_toString i
              ++ ","%char :: "s"%char :: BigInt_toString j)
        with (lit "CHG s" ++ BigInt_toString i
              ++ lit ",s" ++ BigInt_toString j).
      rewrite !app_assoc.
      apply trim_frame; [reflexivity | apply BigInt_toString_nonempty|].
      intros d I. apply (numeral_no_separator j d I). }
    rewrite Ht.
    replace (startsWith text (lit "implicit ")) with false by reflexivity.
    unfold splitWsComma, text.
    assert (Hhead : forall r,
               splitRe_loop true (lit "XCHG s" ++ r) false []
               = lit "XCHG" :: splitRe_loop true r false ["s"%char])
      by (intros r; reflexivity).
    rewrite Hhead.
    change (lit ",s" ++ BigInt_toString j)
      with (","%char :: lit "s" ++ BigInt_toString j).
    rewrite splitRe_loop_comma by (apply numeral_no_separator).
    assert (Hs : forall r,
               splitRe_loop true (lit "s" ++ r) false []
               = splitRe_loop true r false ["s"%char])
      by (intros r; reflexivity).
    rewrite Hs.
    rewrite splitRe_loop_end by (apply numeral_no_separator).
    reflexivity. }
  assert (Hne : text <> []) by discriminate.
  assert (Hcmd : commandNameOf text = lit "XCHG")
    by (unfold commandNameOf; rewrite Hparts; reflexivity).
  rewrite (findOpcodeInfo_XCHG opcodes text Hne Hcat Hcmd Hexact).
  rewrite (xchgTier_indices opcodes text
             (lit "s" ++ BigInt_toString i) (lit "s" ++ BigInt_toString j)
             [] i j).
  - destruct (Z.eqb_spec i 0); [reflexivity|].
    destruct (Z.eqb_spec i 1) as [Hi|Hi]; [destruct (2 <=? j)%Z; reflexivity|].
    replace (1 <=? i)%Z with (2 <=? i)%Z; [|].
    + destruct ((2 <=? i)%Z && (i <? j)%Z && (j <=? 15)%Z); reflexivity.
    + destruct (Z.leb_spec 2 i), (Z.leb_spec 1 i); try reflexivity; lia.
  - rewrite Hparts. reflexivity.
  - apply parseInt_of_toString.
  - apply parseInt_of_toString.
Qed.

(** X14: the text of an exchange of two stack slots, "XCHG s<i>,s<j>" with
    any integers i and j, on a catalog without a record named XCHG: the
    result is the catalog record named XCHG_0I for i = 0 whatever j, the
    one named XCHG_1I for i = 1 and j >= 2, the one named XCHG_IJ for
    2 <= i < j <= 15 (the first record of that name, nothing when the
    catalog has none), and in every other case what the later tiers find
    for XCHG. *)
Theorem findOpcodeInfo_xchg_text (opcodes : list Opcode) (i j : Z) :
  opcodes <> [] ->
  find (fun op => str_eqb (toUpperCase (name op)) (lit "XCHG")) opcodes = None ->
  let result :=
    findOpcodeInfo opcodes
      (lit "XCHG s" ++ BigInt_toString i ++ lit ",s" ++ BigInt_toString j) in
  (i = 0%Z -> selects opcodes result (lit "XCHG_0I"))
  /\ (i = 1%Z -> (2 <= j)%Z -> selects opcodes result (lit "XCHG_1I"))
  /\ ((2 <= i)%Z -> (i < j)%Z -> (j <= 15)%Z ->
      selects opcodes result (lit "XCHG_IJ"))
  /\ ((i = 1%Z /\ (j < 2)%Z) \/ (i < 0)%Z \/ ((2 <= i)%Z /\ (j <= i \/ 15 < j)%Z) ->
      result = laterTiers opcodes (lit "XCHG")).
Proof.
  intros Hcat Hexact result. unfold result.
  rewrite (xchg_text_lookup opcodes i j Hcat Hexact).
  split; [|split; [|split]].
  - intros ->. apply findByName_selects.
  - intros -> Hj. cbn [Z.eqb].
    replace (2 <=? j)%Z with true by (symmetry; apply Z.leb_le, Hj).
    apply findByName_selects.
  - intros Hi Hij Hj.
    replace (i =? 0)%Z with false by (symmetry; apply Z.eqb_neq; lia).
    replace (i =? 1)%Z with false by (symmetry; apply Z.eqb_neq; lia).
    replace (2 <=? i)%Z with true by (symmetry; apply Z.leb_le, Hi).
    replace (i <? j)%Z with true by (symmetry; apply Z.ltb_lt, Hij).
    replace (j <=? 15)%Z with true by (symmetry; apply Z.leb_le, Hj).
    apply findByName_selects.
  - intros [[-> Hj] | [Hi | [Hi Hj]]].
    + cbn [Z.eqb].
      replace (2 <=? j)%Z with false by (symmetry; apply Z.leb_gt, Hj).
      reflexivity.
    + replace (i =? 0)%Z with false by (symmetry; apply Z.eqb_neq; lia).
      replace (i =? 1)%Z with false by (symmetry; apply Z.eqb_neq; lia).
      replace (2 <=? i)%Z with false by (symmetry; apply Z.leb_gt; lia).
      reflexivity.
    + replace (i =? 0)%Z with false by (symmetry; apply Z.eqb_neq; lia).
      replace (i =? 1)%Z with false by (symmetry; apply Z.eqb_neq; lia).
      replace (2 <=? i)%Z with true by (symmetry; apply Z.leb_le, Hi).
      destruct Hj as [Hj | Hj].
      * replace (i <? j)%Z with false by (symmetry; apply Z.ltb_ge, Hj).
        reflexivity.
      * replace (j <=? 15)%Z with false by (symmetry; apply Z.leb_gt, Hj).
        rewrite andb_false_r. reflexivity.
Qed.

(* ------------------------------------------------------------------ *)
(** ** Stack-effect notation, further *)

Lemma includes_tail (c : ascii) (s p : str) :
  includes (c :: s) p = false ->
  startsWith (c :: s) p = false /\ includes s p = false.
Proof. cbn [includes]. intros H. apply orb_false_iff in H. exact H. Qed.

Lemma includes_left (a b p : str) :
  includes (a ++ b) p = false -> includes b p = false.
Proof.
  induction a as [|c a IH]; intros H; [exact H|].
  apply IH. apply (includes_tail c (a ++ b) p H).
Qed.

Lemma includes_factor (s p : str) :
  includes s p = true -> exists a b, s = a ++ p ++ b.
Proof.
  induction s as [|c s IH]; cbn [includes]; intros H.
  - rewrite orb_false_r in H. apply startsWith_split in H.
    exists [], (skipn (length p) []). exact H.
  - apply orb_true_iff in H as [H | H].
    + apply startsWith_split in H. exists [], (skipn (length p) (c :: s)). exact H.
    + destruct (IH H) as (a & b & ->). exists (c :: a), b. reflexivity.
Qed.

Lemma includes_right (a b p : str) :
  includes (a ++ b) p = false -> includes a p = false.
Proof.
  intros H. destruct (includes a p) eqn:E; [|reflexivity].
  destruct (includes_factor a p E) as (x & y & ->).
  rewrite <- !app_assoc in H. rewrite includes_app in H. discriminate H.
Qed.

(** A text without the separator stays in one piece. *)
Lemma split_loop_none (sep s : str) :
  includes s sep = false ->
  forall cur, split_loop sep s 0 cur = [rev cur ++ s].
Proof.
  induction s as [|c s IH]; intros H cur.
  - cbn. rewrite app_nil_r. reflexivity.
  - destruct (includes_tail c s sep H) as [H1 H2].
    cbn [split_loop]. rewrite H1, (IH H2).
    cbn [rev]. rewrite <- app_assoc. reflexivity.
Qed.

Lemma split_loop_dash (before after : str) :
  ~ In "-"%char before ->
  forall cur,
    split_loop (lit " - ") (before ++ lit " - " ++ after) 0 cur
    = (rev cur ++ before) :: split_loop (lit " - ") after 0 [].
Proof.
  induction before as [|c x IH]; intros H cur.
  - rewrite app_nil_r. reflexivity.
  - assert (Hx : ~ In "-"%char x) by (intros I; apply H; right; exact I).
    assert (S : startsWith ((c :: x) ++ lit " - " ++ after) (lit " - ") = false).
    { cbn [app lit list_ascii_of_string startsWith].
      destruct x as [|d x'].
      - cbn [app startsWith]. apply andb_false_r.
      - cbn [app startsWith].
        destruct (Ascii.eqb_spec "-"%char d) as [<-|N].
        + exfalso. apply H. right. left. reflexivity.
        + cbn [andb]. apply andb_false_r. }
    change ((c :: x) ++ lit " - " ++ after)
      with (c :: (x ++ lit " - " ++ after)) in S |- *.
    cbn [split_loop]. rewrite S, (IH Hx).
    cbn [rev]. rewrite <- app_assoc. reflexivity.
Qed.

(** X15: a signature "<before> - <after>" whose two sides hold no dash and
    that no indeterminate rule covers parses to the item counts of its two
    sides. *)
Theorem parseOpcodeStackDiff_two_sides (before after : str) :
  ~ In "-"%char before -> ~ In "-"%char after ->
  includes (before ++ lit " - " ++ after) (lit "or")
    && negb (includes (before ++ lit " - " ++ after) (lit "xor")) = false ->
  includes (before ++ lit " - " ++ after) (lit "...") = false ->
  parseOpcodeStackDiff (before ++ lit " - " ++ after)
  = Some (countStackItems before, countStackItems after).
Proof.
  intros Hb Ha Hor Hdots. unfold parseOpcodeStackDiff.
  rewrite Hor, Hdots.
  assert (L : (length (before ++ lit " - " ++ after) =? 0) = false).
  { rewrite length_app. cbn [lit list_ascii_of_string app length].
    apply Nat.eqb_neq. lia. }
  assert (E : str_eqb (before ++ lit " - " ++ after) (lit "-") = false).
  { destruct (str_eqb _ _) eqn:E; [|reflexivity].
    apply str_eqb_eq in E. apply (f_equal (@length ascii)) in E.
    rewrite length_app in E. cbn in E. lia. }
  assert (S1 : startsWith (before ++ lit " - " ++ after) (lit "- ") = false).
  { destruct before as [|c x]; [reflexivity|].
    cbn [app lit list_ascii_of_string startsWith].
    destruct (Ascii.eqb_spec "-"%char c) as [<-|N]; [|reflexivity].
    exfalso. apply Hb. left. reflexivity. }
  assert (S2 : endsWith (before ++ lit " - " ++ after) (lit " -") = false).
  { unfold endsWith. rewrite !rev_app_distr.
    destruct (rev after) as [|c x] eqn:R; [reflexivity|].
    cbn [app rev lit list_ascii_of_string startsWith].
    destruct (Ascii.eqb_spec "-"%char c) as [<-|N]; [|reflexivity].
    exfalso. apply Ha. apply in_rev. rewrite R. left. reflexivity. }
  rewrite L, E, S1, S2. unfold split.
  rewrite split_loop_dash by exact Hb.
  rewrite split_loop_none
    by (apply (without_char "-"%char); [right; left; reflexivity | exact Ha]).
  reflexivity.
Qed.

Lemma parseOpcodeStackDiff_two_sides_witness :
  parseOpcodeStackDiff (lit "x y - x mod y")
  = Some (countStackItems (lit "x y"), countStackItems (lit "x mod y")).
Proof.
  apply (parseOpcodeStackDiff_two_sides (lit "x y") (lit "x mod y")).
  - apply not_In_by_eval; reflexivity.
  - apply not_In_by_eval; reflexivity.
  - reflexivity.
  - reflexivity.
Defined.

(** X16: a signature that parses to a pair of counts holds a dash: without
    one the result is always indeterminate. *)
Theorem parseOpcodeStackDiff_needs_dash (text : str) (r : nat * nat) :
  parseOpcodeStackDiff text = Some r -> In "-"%char text.
Proof.
  unfold parseOpcodeStackDiff. intros H.
  destruct (in_dec ascii_dec "-"%char text) as [I | N]; [exact I | exfalso].
  destruct (length text =? 0); [discriminate H|].
  destruct (str_eqb text (lit "-")); [discriminate H|].
  destruct (includes text (lit "or") && negb (includes text (lit "xor")));
    [discriminate H|].
  destruct (includes text (lit "...")); [discriminate H|].
  destruct (startsWith text (lit "- ")) eqn:S1.
  { apply startsWith_split in S1. apply N. rewrite S1. left. reflexivity. }
  destruct (endsWith text (lit " -")) eqn:S2.
  { unfold endsWith in S2. apply startsWith_split in S2.
    apply N, in_rev. rewrite S2. left. reflexivity. }
  unfold split in H.
  rewrite split_loop_none in H
    by (apply (without_char "-"%char); [right; left; reflexivity | exact N]).
  discriminate H.
Qed.

Lemma parseOpcodeStackDiff_needs_dash_witness :
  In "-"%char (lit "c c' - c''").
Proof.
  apply (parseOpcodeStackDiff_needs_dash (lit "c c' - c''") (2, 1)).
  reflexivity.
Defined.

Lemma dropWhile_cut (p : ascii -> bool) (s : str) :
  s = takeWhile p s ++ dropWhile p s.
Proof.
  induction s as [|c s IH]; [reflexivity|].
  cbn. destruct (p c); [cbn; f_equal; exact IH | reflexivity].
Qed.

Lemma matchCompound_includes (kw s : str) (n : nat) :
  matchCompound kw s = Some n -> includes s kw = true.
Proof.
  unfold matchCompound. intros H.
  destruct (startsWith (dropWhile is_space (dropWhile is_word s)) kw) eqn:S.
  - apply startsWith_split in S.
    rewrite (dropWhile_cut is_word s).
    rewrite (dropWhile_cut is_space (dropWhile is_word s)).
    rewrite S. rewrite app_assoc. apply includes_app.
  - cbn [negb] in H. rewrite !orb_true_r in H. cbn [orb] in H.
    discriminate H.
Qed.

(** A text without the key word holds no compound to collapse. *)
Lemma replaceCompound_id (kw s : str) :
  includes s kw = false -> replaceCompound kw s = s.
Proof.
  unfold replaceCompound.
  induction s as [|c s IH]; intros H; [reflexivity|].
  cbn [replaceCompound_loop].
  destruct (matchCompound kw (c :: s)) as [n|] eqn:M.
  - apply matchCompound_includes in M. congruence.
  - f_equal. apply IH. apply (includes_tail c s kw H).
Qed.

Lemma trim_fixed (s : str) :
  dropWhile is_space s = s -> dropWhile is_space (rev s) = rev s ->
  trim s = s.
Proof.
  intros H1 H2. unfold trim. rewrite H1, H2. apply rev_involutive.
Qed.

Lemma isToken_spec (w : str) :
  isToken w = true ->
  w <> [] /\ forall c, In c w -> is_space c = false.
Proof.
  unfold isToken. intros H. apply andb_true_iff in H as [H1 H2].
  split; [destruct w; [discriminate H1 | discriminate]|].
  intros c I. rewrite forallb_forall in H2. specialize (H2 c I).
  destruct (is_space c); [discriminate H2 | reflexivity].
Qed.

Lemma join_cons (sep x : str) (a : list str) :
  a <> [] -> join sep (x :: a) = x ++ sep ++ join sep a.
Proof. destruct a; [congruence | reflexivity]. Qed.

Lemma join_last (sep x : str) (a : list str) :
  a <> [] -> join sep (a ++ [x]) = join sep a ++ sep ++ x.
Proof.
  induction a as [|y a IH]; intros H; [congruence|].
  destruct a as [|z a]; [reflexivity|].
  change ((y :: z :: a) ++ [x]) with (y :: ((z :: a) ++ [x])).
  rewrite join_cons by discriminate.
  rewrite IH by discriminate.
  rewrite (join_cons sep y (z :: a)) by discriminate.
  rewrite <- !app_assoc. reflexivity.
Qed.

Lemma join_spaces (tokens : list str) :
  forallb isToken tokens = true ->
  count_occ ascii_dec (join (lit " ") tokens) " "%char = length tokens - 1.
Proof.
  assert (T : forall w, isToken w = true -> count_occ ascii_dec w " "%char = 0).
  { intros w H. apply count_occ_not_In. intros I.
    apply isToken_spec in H as [_ H]. specialize (H _ I). discriminate H. }
  induction tokens as [|x a IH]; intros H; [reflexivity|].
  cbn [forallb] in H. apply andb_true_iff in H as [Hx Ha].
  destruct a as [|y a]; [cbn [join length]; rewrite (T x Hx); reflexivity|].
  rewrite join_cons by discriminate.
  rewrite !count_occ_app, (T x Hx), (IH Ha).
  cbn [length lit list_ascii_of_string count_occ].
  destruct (ascii_dec " "%char " "%char); [cbn; lia | congruence].
Qed.

Lemma join_trimmed (tokens : list str) :
  tokens <> [] -> forallb isToken tokens = true ->
  join (lit " ") tokens <> [] /\ trim (join (lit " ") tokens) = join (lit " ") tokens.
Proof.
  intros Hne H.
  assert (Hhead : exists c r, join (lit " ") tokens = c :: r /\ is_space c = false).
  { destruct tokens as [|x a]; [congruence|].
    cbn [forallb] in H. apply andb_true_iff in H as [Hx _].
    apply isToken_spec in Hx as [Nx Sx].
    destruct x as [|c x]; [congruence|].
    destruct a as [|y a].
    - exists c, x. split; [reflexivity | apply Sx; left; reflexivity].
    - rewrite join_cons by discriminate.
      exists c, (x ++ lit " " ++ join (lit " ") (y :: a)).
      split; [reflexivity | apply Sx; left; reflexivity]. }
  assert (Hlast : exists r d, join (lit " ") tokens = r ++ [d] /\ is_space d = false).
  { destruct (exists_last Hne) as (a & x & ->).
    rewrite forallb_app in H. apply andb_true_iff in H as [_ Hx].
    cbn [forallb] in Hx. rewrite andb_true_r in Hx.
    apply isToken_spec in Hx as [Nx Sx].
    destruct (exists_last Nx) as (x' & d & ->).
    assert (Sd : is_space d = false)
      by (apply Sx, in_or_app; right; left; reflexivity).
    destruct a as [|y a].
    - exists x', d. split; [reflexivity | exact Sd].
    - rewrite join_last by discriminate.
      exists (join (lit " ") (y :: a) ++ lit " " ++ x'), d.
      split; [rewrite <- !app_assoc; reflexivity | exact Sd]. }
  destruct Hhead as (c & r & E1 & Sc).
  destruct Hlast as (r' & d & E2 & Sd).
  split; [rewrite E1; discriminate|].
  apply trim_fixed.
  - rewrite E1. apply dropWhile_head, Sc.
  - rewrite E2, rev_app_distr. apply dropWhile_head, Sd.
Qed.

(** X17: for one or more tokens, each free of white space, joined by single
    spaces into a side that holds neither "mod" nor "xor", the count of
    stack items is the number of tokens. *)
Theorem countStackItems_tokens (tokens : list str) :
  tokens <> [] ->
  forallb isToken tokens = true ->
  includes (join (lit " ") tokens) (lit "mod") = false ->
  includes (join (lit " ") tokens) (lit "xor") = false ->
  countStackItems (join (lit " ") tokens) = length tokens.
Proof.
  intros Hne Ht Hmod Hxor. unfold countStackItems.
  destruct (join_trimmed tokens Hne Ht) as [N T].
  rewrite (replaceCompound_id _ _ Hmod), (replaceCompound_id _ _ Hxor), T.
  destruct (join (lit " ") tokens) as [|c r] eqn:E; [congruence|].
  cbn [isEmpty]. rewrite <- E.
  change (lit " ") with [" "%char].
  rewrite split_char_length, join_spaces by exact Ht.
  destruct tokens; [congruence | cbn [length]; lia].
Qed.

Lemma countStackItems_tokens_witness :
  countStackItems (lit "c c' c''") = 3.
Proof.
  apply (countStackItems_tokens [lit "c"; lit "c'"; lit "c''"]);
    [discriminate | reflexivity | reflexivity | reflexivity].
Defined.

(* ------------------------------------------------------------------ *)
(** ** Compounds on a side of a stack effect *)

Lemma word_cases (v : str) :
  forallb is_word v = true
  \/ exists p c q, v = p ++ c :: q
                   /\ forallb is_word p = true /\ is_word c = false.
Proof.
  induction v as [|d v IH]; [left; reflexivity|].
  destruct (is_word d) eqn:E.
  - destruct IH as [IH | (p & c & q & -> & Hp & Hc)].
    + left. cbn [forallb]. rewrite E, IH. reflexivity.
    + right. exists (d :: p), c, q.
      split; [reflexivity|]. split; [|exact Hc].
      cbn [forallb]. rewrite E, Hp. reflexivity.
  - right. exists [], d, v.
    split; [reflexivity|]. split; [reflexivity | exact E].
Qed.

Lemma matchCompound_no_word (kw s : str) :
  takeWhile is_word s = [] -> matchCompound kw s = None.
Proof. unfold matchCompound. intros ->. reflexivity. Qed.

Lemma matchCompound_no_space (kw s : str) :
  takeWhile is_space (dropWhile is_word s) = [] -> matchCompound kw s = None.
Proof.
  unfold matchCompound. intros ->. cbn [isEmpty].
  rewrite orb_true_r. reflexivity.
Qed.

Lemma matchCompound_not_ahead (kw s : str) :
  kwAhead kw (dropWhile is_space (dropWhile is_word s)) = false ->
  matchCompound kw s = None.
Proof.
  unfold matchCompound, kwAhead. intros H.
  apply andb_false_iff in H as [H | H].
  - rewrite H. cbn [negb]. rewrite orb_true_r. reflexivity.
  - apply negb_false_iff in H. rewrite H.
    rewrite orb_true_r. reflexivity.
Qed.

(** No match starts inside a word that is followed by a safe tail. *)
Lemma match_in_word (kw v r : str) :
  v <> [] -> (forall c, In c v -> is_space c = false) -> safeTail kw r ->
  matchCompound kw (v ++ r) = None.
Proof.
  intros Hv Hs Hr.
  destruct (word_cases v) as [W | (p & c & q & -> & Wp & Wc)].
  - destruct Hr as [-> | (c & t & -> & Sc & K)].
    + apply matchCompound_no_space.
      rewrite dropWhile_app by exact W. reflexivity.
    + apply matchCompound_not_ahead.
      rewrite dropWhile_app by exact W.
      rewrite (dropWhile_head is_word " "%char (c :: t)) by reflexivity.
      cbn [dropWhile]. change (is_space " "%char) with true. cbv iota.
      rewrite Sc. exact K.
  - apply matchCompound_no_space.
    rewrite <- app_assoc. rewrite dropWhile_app by exact Wp.
    cbn [app dropWhile]. rewrite Wc. cbn [takeWhile].
    rewrite (Hs c) by (apply in_or_app; right; left; reflexivity).
    reflexivity.
Qed.

Lemma loop_word (kw w r : str) :
  (forall c, In c w -> is_space c = false) -> safeTail kw r ->
  replaceCompound_loop kw (w ++ r) 0 = w ++ replaceCompound_loop kw r 0.
Proof.
  intros Hs Hr. induction w as [|c w IH]; [reflexivity|].
  pose proof (match_in_word kw (c :: w) r ltac:(discriminate) Hs Hr) as M.
  cbn [app] in M |- *. cbn [replaceCompound_loop]. rewrite M.
  f_equal. apply IH. intros d I. apply Hs. right. exact I.
Qed.

Lemma loop_skip_app (kw a r : str) :
  replaceCompound_loop kw (a ++ r) (length a) = replaceCompound_loop kw r 0.
Proof.
  induction a as [|c a IH]; [destruct r; reflexivity|].
  cbn [app length replaceCompound_loop]. exact IH.
Qed.

Lemma isToken_head (w : str) :
  isToken w = true -> exists c w', w = c :: w' /\ is_space c = false.
Proof.
  intros H. apply isToken_spec in H as [N S].
  destruct w as [|c w']; [congruence|].
  exists c, w'. split; [reflexivity | apply S; left; reflexivity].
Qed.

Lemma words_spaceless (w : str) :
  forallb is_word w = true -> forall c, In c w -> is_space c = false.
Proof.
  intros H c I. rewrite forallb_forall in H.
  apply is_word_not_space, H, I.
Qed.

(** The pattern takes the whole of a pair of operands around the key
    word, up to the text after it. *)
Lemma match_pair (kw x y r : str) :
  isToken kw = true -> x <> [] -> y <> [] ->
  forallb is_word x = true -> forallb is_word y = true ->
  takeWhile is_word r = [] ->
  matchCompound kw (x ++ lit " " ++ kw ++ lit " " ++ y ++ r)
  = Some (length (x ++ lit " " ++ kw ++ lit " " ++ y)).
Proof.
  intros Hk Hx Hy Wx Wy Hr.
  destruct (isToken_head kw Hk) as (k & kw' & Ek & Sk).
  destruct y as [|d y']; [congruence|].
  assert (Sd : is_space d = false)
    by (apply (words_spaceless _ Wy); left; reflexivity).
  set (rest := kw ++ lit " " ++ (d :: y') ++ r).
  assert (R0 : rest = k :: kw' ++ lit " " ++ (d :: y') ++ r)
    by (unfold rest; rewrite Ek; reflexivity).
  assert (E1 : takeWhile is_word (x ++ lit " " ++ rest) = x).
  { rewrite takeWhile_app by exact Wx. cbn. apply app_nil_r. }
  assert (E2 : dropWhile is_word (x ++ lit " " ++ rest) = " "%char :: rest).
  { rewrite dropWhile_app by exact Wx. reflexivity. }
  assert (E3 : takeWhile is_space (" "%char :: rest) = lit " ").
  { rewrite R0. cbn [takeWhile]. change (is_space " "%char) with true.
    cbv iota. rewrite Sk. reflexivity. }
  assert (E4 : dropWhile is_space (" "%char :: rest) = rest).
  { rewrite R0. cbn [dropWhile]. change (is_space " "%char) with true.
    cbv iota. rewrite Sk. reflexivity. }
  assert (E5 : startsWith rest kw = true) by apply startsWith_app.
  assert (E6 : skipn (length kw) rest = " "%char :: d :: y' ++ r)
    by apply skipn_prefix.
  assert (E7 : takeWhile is_space (" "%char :: d :: y' ++ r) = lit " ").
  { cbn [takeWhile]. change (is_space " "%char) with true.
    cbv iota. rewrite Sd. reflexivity. }
  assert (E8 : dropWhile is_space (" "%char :: d :: y' ++ r) = (d :: y') ++ r).
  { cbn [dropWhile]. change (is_space " "%char) with true.
    cbv iota. rewrite Sd. reflexivity. }
  assert (E9 : takeWhile is_word ((d :: y') ++ r) = d :: y').
  { rewrite takeWhile_app by exact Wy. rewrite Hr. apply app_nil_r. }
  unfold matchCompound. fold rest.
  rewrite E1, E2, E3, E4, E5, E6, E7, E8, E9.
  destruct x as [|c x]; [congruence|].
  cbn [isEmpty orb negb lit list_ascii_of_string].
  f_equal. unfold rest. rewrite !length_app. cbn [length lit list_ascii_of_string].
  lia.
Qed.

Lemma kwAhead_token (kw : str) :
  (forall c, In c kw -> is_space c = false) ->
  forall u r,
    (forall c, In c u -> is_space c = false) -> u <> kw ->
    (r = [] \/ exists r', r = " "%char :: r') ->
    kwAhead kw (u ++ r) = false.
Proof.
  induction kw as [|k kw IH]; intros Hk u r Hu N Hr.
  - destruct u as [|c u]; [congruence|].
    unfold kwAhead. cbn [length skipn app takeWhile].
    rewrite (Hu c) by (left; reflexivity). apply andb_false_r.
  - assert (Sk : is_space k = false) by (apply Hk; left; reflexivity).
    destruct u as [|c u].
    + destruct Hr as [-> | (r' & ->)]; [reflexivity|].
      unfold kwAhead. cbn [app startsWith].
      destruct (Ascii.eqb_spec k " "%char) as [E | E]; [|reflexivity].
      rewrite E in Sk. discriminate Sk.
    + unfold kwAhead. cbn [app startsWith length skipn].
      destruct (Ascii.eqb_spec k c) as [E | E]; [|reflexivity].
      cbn [andb]. apply (IH (fun d I => Hk d (or_intror I)) u r).
      * intros d I. apply Hu. right. exact I.
      * intros Q. apply N. rewrite E, Q. reflexivity.
      * exact Hr.
Qed.

Lemma join_head (sep w : str) (ws : list str) :
  join sep (w :: ws)
  = w ++ match ws with [] => [] | _ :: _ => sep ++ join sep ws end.
Proof. destruct ws; [symmetry; apply app_nil_r | reflexivity]. Qed.

Lemma join_app (sep : str) (a b : list str) :
  a <> [] ->
  join sep (a ++ b)
  = join sep a ++ match b with [] => [] | _ :: _ => sep ++ join sep b end.
Proof.
  induction a as [|x a IH]; intros N; [congruence|].
  destruct a as [|y a].
  - cbn [app]. apply join_head.
  - change ((x :: y :: a) ++ b) with (x :: ((y :: a) ++ b)).
    rewrite join_cons by discriminate.
    rewrite IH by discriminate.
    rewrite (join_cons sep x (y :: a)) by discriminate.
    rewrite <- !app_assoc. reflexivity.
Qed.

Lemma text_cons (kw : str) (u : Unit) (us : list Unit) :
  join (lit " ") (flat_map (unitWords kw) (u :: us))
  = join (lit " ") (unitWords kw u) ++ tailOf kw us.
Proof.
  cbn [flat_map]. rewrite join_app by (destruct u; discriminate).
  destruct us as [|v us]; [reflexivity|].
  cbn [flat_map tailOf].
  destruct (unitWords kw v ++ flat_map (unitWords kw) us) eqn:E;
    [|reflexivity].
  destruct v; discriminate E.
Qed.

Lemma out_cons (u : Unit) (us : list Unit) :
  join (lit " ") (map unitToken (u :: us)) = unitToken u ++ tailOut us.
Proof. cbn [map]. rewrite join_head. destruct us; reflexivity. Qed.

Lemma unitOk_first (kw : str) (u : Unit) :
  unitOk kw u = true ->
  exists fw more,
    unitWords kw u = fw :: more
    /\ isToken fw = true /\ fw <> kw.
Proof.
  destruct u as [w | x y]; cbn [unitOk unitWords]; intros H.
  - apply andb_true_iff in H as [H1 H2].
    exists w, []. split; [reflexivity|]. split; [exact H1|].
    intros ->. rewrite (proj2 (str_eqb_eq kw kw) eq_refl) in H2.
    discriminate H2.
  - repeat (apply andb_true_iff in H as [H ?]).
    exists x, [kw; y]. split; [reflexivity|]. split.
    + unfold isToken. rewrite H. cbn [andb].
      apply forallb_forall. intros c I.
      rewrite (words_spaceless x) by assumption. reflexivity.
    + intros ->. rewrite (proj2 (str_eqb_eq kw kw) eq_refl) in *.
      discriminate.
Qed.

Lemma tailOf_shape (kw : str) (us : list Unit) :
  tailOf kw us = [] \/ exists r', tailOf kw us = " "%char :: r'.
Proof. destruct us; [left | right; eexists]; reflexivity. Qed.

Lemma tailOf_safe (kw : str) (us : list Unit) :
  isToken kw = true -> forallb (unitOk kw) us = true ->
  safeTail kw (tailOf kw us).
Proof.
  intros Hk H. destruct us as [|u us]; [left; reflexivity|].
  cbn [forallb] in H. apply andb_true_iff in H as [Hu _].
  destruct (unitOk_first kw u Hu) as (fw & more & E & Tf & Nf).
  destruct (isToken_head fw Tf) as (c & fw' & -> & Sc).
  right. exists c, (fw' ++ match more ++ flat_map (unitWords kw) us with
                           | [] => []
                           | _ :: _ => lit " " ++ join (lit " ")
                                         (more ++ flat_map (unitWords kw) us)
                           end).
  split; [|split; [exact Sc|]].
  - cbn [tailOf flat_map]. rewrite E. cbn [app].
    rewrite join_head. reflexivity.
  - rewrite app_comm_cons.
    apply kwAhead_token.
    + apply isToken_spec in Hk. apply Hk.
    + apply isToken_spec in Tf. apply Tf.
    + exact Nf.
    + destruct (more ++ flat_map (unitWords kw) us);
        [left | right; eexists]; reflexivity.
Qed.

(** One replacement on a side made of words and pairs: every pair becomes
    the token "X" and every word stays. *)
Lemma pass_units (kw : str) (us : list Unit) :
  isToken kw = true -> forallb (unitOk kw) us = true ->
  replaceCompound kw (join (lit " ") (flat_map (unitWords kw) us))
  = join (lit " ") (map unitToken us).
Proof.
  intros Hk. unfold replaceCompound.
  induction us as [|u us IH]; intros H; [reflexivity|].
  cbn [forallb] in H. apply andb_true_iff in H as [Hu Hus].
  specialize (IH Hus).
  assert (Tail : replaceCompound_loop kw (tailOf kw us) 0 = tailOut us).
  { destruct us as [|v us]; [reflexivity|].
    cbn [tailOf tailOut lit list_ascii_of_string app].
    cbn [replaceCompound_loop].
    rewrite matchCompound_no_word by reflexivity.
    f_equal. exact IH. }
  rewrite text_cons, out_cons.
  destruct u as [w | x y]; cbn [unitWords unitToken unitOk] in *.
  - apply andb_true_iff in Hu as [Tw _].
    change (join (lit " ") [w]) with w.
    rewrite loop_word;
      [rewrite Tail; reflexivity
      | apply isToken_spec in Tw; apply Tw
      | apply tailOf_safe; assumption].
  - repeat (apply andb_true_iff in Hu as [Hu ?]).
    assert (Nx : x <> []) by (destruct x; [discriminate | discriminate]).
    assert (Ny : y <> []) by (destruct y; [discriminate | discriminate]).
    change (join (lit " ") [x; kw; y])
      with (x ++ lit " " ++ kw ++ lit " " ++ y).
    assert (M : matchCompound kw
                  (x ++ lit " " ++ kw ++ lit " " ++ y ++ tailOf kw us)
                = Some (length (x ++ lit " " ++ kw ++ lit " " ++ y))).
    { apply match_pair; try assumption.
      destruct us; reflexivity. }
    replace ((x ++ lit " " ++ kw ++ lit " " ++ y) ++ tailOf kw us)
      with (x ++ lit " " ++ kw ++ lit " " ++ y ++ tailOf kw us)
      by (rewrite <- !app_assoc; reflexivity).
    destruct x as [|c x]; [congruence|].
    cbn [app] in M |- *. cbn [replaceCompound_loop]. rewrite M.
    cbn [length Nat.sub]. rewrite Nat.sub_0_r.
    replace (x ++ lit " " ++ kw ++ lit " " ++ y ++ tailOf kw us)
      with ((x ++ lit " " ++ kw ++ lit " " ++ y) ++ tailOf kw us)
      by (rewrite <- !app_assoc; reflexivity).
    rewrite loop_skip_app, Tail. reflexivity.
Qed.

Lemma isKeyword_cases (k : str) :
  isKeyword k = true -> k = lit "mod" \/ k = lit "xor".
Proof.
  unfold isKeyword. intros H. apply orb_true_iff in H as [H | H];
    apply str_eqb_eq in H; auto.
Qed.

Lemma isName_spec (w : str) :
  isName w = true ->
  isEmpty w = false /\ forallb is_word w = true
  /\ str_eqb w (lit "mod") = false /\ str_eqb w (lit "xor") = false
  /\ isToken w = true.
Proof.
  unfold isName, isKeyword. intros H.
  apply andb_true_iff in H as [H K]. apply andb_true_iff in H as [E W].
  apply negb_true_iff in E, K. apply orb_false_iff in K as [K1 K2].
  repeat (split; [assumption|]).
  unfold isToken. rewrite E. cbn [negb andb].
  apply forallb_forall. intros c I.
  rewrite (words_spaceless w W c I). reflexivity.
Qed.

Section Sides.
Variable items : list SideItem.
Hypothesis items_ok : forallb itemOk items = true.

Lemma item_ok (i : SideItem) : In i items -> itemOk i = true.
Proof. rewrite forallb_forall in items_ok. apply items_ok. Qed.

Lemma flat_map_ext_in' (A B : Type) (f g : A -> list B) (l : list A) :
  (forall a, In a l -> f a = g a) -> flat_map f l = flat_map g l.
Proof.
  induction l as [|a l IH]; intros H; [reflexivity|].
  cbn [flat_map]. rewrite (H a (or_introl eq_refl)), IH; [reflexivity|].
  intros b I. apply H. right. exact I.
Qed.

Lemma flat_map_twice (A B C : Type) (f : A -> list B) (g : B -> list C)
    (l : list A) :
  flat_map g (flat_map f l) = flat_map (fun a => flat_map g (f a)) l.
Proof.
  induction l as [|a l IH]; [reflexivity|].
  cbn [flat_map]. rewrite flat_map_app, IH. reflexivity.
Qed.

Lemma map_flat_map (A B C : Type) (f : A -> list B) (h : B -> C)
    (l : list A) :
  map h (flat_map f l) = flat_map (fun a => map h (f a)) l.
Proof.
  induction l as [|a l IH]; [reflexivity|].
  cbn [flat_map]. rewrite map_app, IH. reflexivity.
Qed.

Lemma words_units_mod :
  flat_map (unitWords (lit "mod")) (flat_map unitsMod items)
  = flat_map itemWords items.
Proof.
  rewrite flat_map_twice.
  apply flat_map_ext_in'. intros [w | x k y] I; [reflexivity|].
  cbn [unitsMod]. destruct (str_eqb k (lit "mod")) eqn:E; [|reflexivity].
  apply str_eqb_eq in E. subst k. reflexivity.
Qed.

Lemma tokens_units_mod :
  map unitToken (flat_map unitsMod items)
  = flat_map (unitWords (lit "xor")) (flat_map unitsXor items).
Proof.
  rewrite flat_map_twice, map_flat_map.
  apply flat_map_ext_in'. intros [w | x k y] I; [reflexivity|].
  pose proof (item_ok _ I) as Ok. cbn [itemOk] in Ok.
  apply andb_true_iff in Ok as [Ok _]. apply andb_true_iff in Ok as [Kk _].
  cbn [unitsMod unitsXor].
  destruct (str_eqb k (lit "mod")) eqn:E; [reflexivity|].
  destruct (isKeyword_cases k Kk) as [-> | ->]; [discriminate E | reflexivity].
Qed.

Lemma tokens_units_xor :
  map unitToken (flat_map unitsXor items) = map itemToken items.
Proof.
  clear items_ok. induction items as [|[w | x k y] l IH]; [reflexivity| |];
    cbn [flat_map map app unitsXor itemToken].
  - cbn [unitToken]. rewrite IH. reflexivity.
  - destruct (str_eqb k (lit "mod")); cbn [app map unitToken];
      rewrite IH; reflexivity.
Qed.

Lemma forallb_flat_map (A B : Type) (p : B -> bool) (f : A -> list B)
    (l : list A) :
  (forall a, In a l -> forallb p (f a) = true) ->
  forallb p (flat_map f l) = true.
Proof.
  induction l as [|a l IH]; intros H; [reflexivity|].
  cbn [flat_map]. rewrite forallb_app, (H a (or_introl eq_refl)), IH;
    [reflexivity|].
  intros b I. apply H. right. exact I.
Qed.

Lemma ok_units_mod :
  forallb (unitOk (lit "mod")) (flat_map unitsMod items) = true.
Proof.
  apply forallb_flat_map. intros [w | x k y] I;
    pose proof (item_ok _ I) as Ok; cbn [itemOk] in Ok.
  - apply andb_true_iff in Ok as [T K].
    apply negb_true_iff in K. unfold isKeyword in K.
    apply orb_false_iff in K as [K _].
    cbn [unitsMod forallb unitOk]. rewrite T, K. reflexivity.
  - apply andb_true_iff in Ok as [Ok Hy]. apply andb_true_iff in Ok as [Kk Hx].
    apply isName_spec in Hx as (Ex & Wx & Mx & _ & Tx).
    apply isName_spec in Hy as (Ey & Wy & My & _ & Ty).
    cbn [unitsMod].
    destruct (str_eqb k (lit "mod")) eqn:E; cbn [forallb unitOk].
    + rewrite Ex, Wx, Mx, Ey, Wy. reflexivity.
    + rewrite Tx, Mx, Ty, My, E. cbn [negb andb].
      destruct (isKeyword_cases k Kk) as [-> | ->];
        [discriminate E | reflexivity].
Qed.

Lemma ok_units_xor :
  forallb (unitOk (lit "xor")) (flat_map unitsXor items) = true.
Proof.
  apply forallb_flat_map. intros [w | x k y] I;
    pose proof (item_ok _ I) as Ok; cbn [itemOk] in Ok.
  - apply andb_true_iff in Ok as [T K].
    apply negb_true_iff in K. unfold isKeyword in K.
    apply orb_false_iff in K as [_ K].
    cbn [unitsXor forallb unitOk]. rewrite T, K. reflexivity.
  - apply andb_true_iff in Ok as [Ok Hy]. apply andb_true_iff in Ok as [Kk Hx].
    apply isName_spec in Hx as (Ex & Wx & _ & Xx & Tx).
    apply isName_spec in Hy as (Ey & Wy & _ & Xy & Ty).
    cbn [unitsXor].
    destruct (str_eqb k (lit "mod")) eqn:E; cbn [forallb unitOk].
    + reflexivity.
    + rewrite Ex, Wx, Xx, Ey, Wy. reflexivity.
Qed.

Lemma itemTokens_ok : forallb isToken (map itemToken items) = true.
Proof.
  apply forallb_forall. intros t I. apply in_map_iff in I as (i & <- & I).
  pose proof (item_ok _ I) as Ok. destruct i as [w | x k y]; cbn [itemOk] in Ok.
  - apply andb_true_iff in Ok as [T _]. exact T.
  - reflexivity.
Qed.

Lemma itemWords_ok : forallb isToken (flat_map itemWords items) = true.
Proof.
  apply forallb_flat_map. intros [w | x k y] I;
    pose proof (item_ok _ I) as Ok; cbn [itemOk] in Ok.
  - apply andb_true_iff in Ok as [T _]. cbn [itemWords forallb].
    rewrite T. reflexivity.
  - apply andb_true_iff in Ok as [Ok Hy]. apply andb_true_iff in Ok as [Kk Hx].
    apply isName_spec in Hx as (_ & _ & _ & _ & Tx).
    apply isName_spec in Hy as (_ & _ & _ & _ & Ty).
    cbn [itemWords forallb]. rewrite Tx, Ty.
    destruct (isKeyword_cases k Kk) as [-> | ->]; reflexivity.
Qed.

(** The two replacements turn a side into its tokens, every compound
    being the one token "X". *)
Lemma side_collapsed :
  replaceCompound (lit "xor") (replaceCompound (lit "mod") (sideText items))
  = join (lit " ") (map itemToken items).
Proof.
  unfold sideText.
  rewrite <- words_units_mod.
  rewrite pass_units by (reflexivity || apply ok_units_mod).
  rewrite tokens_units_mod.
  rewrite pass_units by (reflexivity || apply ok_units_xor).
  rewrite tokens_units_xor. reflexivity.
Qed.

Lemma side_count :
  items <> [] -> countStackItems (sideText items) = length items.
Proof.
  intros N. unfold countStackItems. rewrite side_collapsed.
  assert (Nw : flat_map itemWords items <> []).
  { destruct items as [|[w | x k y] l]; [congruence | discriminate..]. }
  destruct (join_trimmed _ Nw itemWords_ok) as [Nt Tt].
  unfold sideText. rewrite Tt.
  destruct (join (lit " ") (flat_map itemWords items)); [congruence|].
  cbn [isEmpty].
  assert (Nm : map itemToken items <> [])
    by (destruct items; [congruence | discriminate]).
  destruct (join_trimmed _ Nm itemTokens_ok) as [_ ->].
  change (lit " ") with [" "%char].
  rewrite split_char_length, join_spaces by apply itemTokens_ok.
  rewrite length_map. destruct items; [congruence | cbn [length]; lia].
Qed.

End Sides.

(** C8, as the code has it: for a signature "- <after>" that no
    indeterminate rule covers, consumed is 0 and produced is
    [countStackItems after]: 0 when <after> is white space only, otherwise
    the number of pieces of the trimmed text, compounds collapsed, cut at
    every single space character, that is one more than the number of its
    space characters.  On a side written as items separated by single
    spaces, an item being a token free of white space or a compound
    "<x> mod <y>" or "<x> xor <y>" of two operands, no token and no
    operand being one of the two key words, the two replacements turn
    every compound into the one token "X" and leave the tokens alone, and
    the count is the number of items: a compound counts once. *)
Theorem C8_leading_dash (after : str) :
  includes (lit "- " ++ after) (lit "or")
    && negb (includes (lit "- " ++ after) (lit "xor")) = false ->
  includes (lit "- " ++ after) (lit "...") = false ->
  parseOpcodeStackDiff (lit "- " ++ after) = Some (0, countStackItems after)
  /\ countStackItems after =
       (if isEmpty (trim after) then 0
        else S (count_occ ascii_dec
                  (trim (replaceCompound (lit "xor")
                           (replaceCompound (lit "mod") after)))
                  " "%char))
  /\ (forall x y, x <> [] -> y <> [] ->
        forallb is_word x = true -> forallb is_word y = true ->
        after = x ++ lit " mod " ++ y -> countStackItems after = 1)
  /\ (forall items, items <> [] -> forallb itemOk items = true ->
        after = sideText items ->
        replaceCompound (lit "xor") (replaceCompound (lit "mod") after)
        = join (lit " ") (map itemToken items)
        /\ countStackItems after = length items
        /\ parseOpcodeStackDiff (lit "- " ++ after) = Some (0, length items)).
Proof.
  intros Hor Hdots.
  assert (First : parseOpcodeStackDiff (lit "- " ++ after)
                  = Some (0, countStackItems after)).
  { unfold parseOpcodeStackDiff. rewrite Hor, Hdots.
    change (lit "- " ++ after) with ("-"%char :: " "%char :: after).
    reflexivity. }
  split; [exact First|]. split; [|split].
  - unfold countStackItems.
    destruct (isEmpty (trim after)); [reflexivity|].
    apply split_char_length.
  - intros x y Hx Hy Wx Wy ->. unfold countStackItems.
    rewrite replaceCompound_mod by assumption.
    destruct x as [|c x]; [congruence|].
    destruct (exists_last Hy) as (y' & d & ->).
    assert (Wd : is_word d = true).
    { rewrite forallb_app in Wy. apply andb_true_iff in Wy as [_ Wy].
      simpl in Wy. rewrite andb_true_r in Wy. exact Wy. }
    assert (Wc : is_word c = true)
      by (simpl in Wx; apply andb_true_iff in Wx; tauto).
    replace ((c :: x) ++ lit " mod " ++ y' ++ [d])
      with (c :: (x ++ lit " mod " ++ y') ++ [d])
      by (simpl; rewrite <- !app_assoc; reflexivity).
    rewrite trim_word_ends by assumption.
    reflexivity.
  - intros items N Ok E. rewrite First. subst after.
    rewrite (side_count items Ok N).
    split; [apply side_collapsed, Ok|]. split; reflexivity.
Qed.

Lemma C8_leading_dash_witness :
  parseOpcodeStackDiff (lit "- q r") = Some (0, 2)
  /\ parseOpcodeStackDiff (lit "- a b mod c d xor e") = Some (0, 3).
Proof.
  split.
  - exact (proj1 (C8_leading_dash (lit "q r") eq_refl eq_refl)).
  - exact (proj2 (proj2 (proj2 (proj2 (proj2
             (C8_leading_dash (lit "a b mod c d xor e") eq_refl eq_refl)))
             [Plain (lit "a"); Compound (lit "b") (lit "mod") (lit "c");
              Compound (lit "d") (lit "xor") (lit "e")]
             ltac:(discriminate) eq_refl eq_refl))).
Defined.

(** C8 as stated fails: with two spaces between the tokens the side
    "a  b" has two white-space tokens, and the parser produces 3. *)
Lemma C8_double_space_counterexample :
  length (filter (fun w => negb (isEmpty w)) (splitWs (lit "a  b"))) = 2
  /\ parseOpcodeStackDiff (lit "- a  b") = Some (0, 3).
Proof. split; reflexivity. Qed.

(* ------------------------------------------------------------------ *)
(** ** The viewer *)

Import Viewer.

Lemma upper_space (c : ascii) : is_space (upper c) = is_space c.
Proof.
  destruct c as [[] [] [] [] [] [] [] []]; vm_compute; reflexivity.
Qed.

Lemma upper_comma (c : ascii) :
  Ascii.eqb (upper c) ","%char = Ascii.eqb c ","%char.
Proof.
  destruct c as [[] [] [] [] [] [] [] []]; vm_compute; reflexivity.
Qed.

Lemma splitRe_loop_upper (comma : bool) (s : str) :
  forall inws cur,
    splitRe_loop comma (toUpperCase s) inws (toUpperCase cur)
    = map toUpperCase (splitRe_loop comma s inws cur).
Proof.
  unfold toUpperCase.
  induction s as [|c s IH]; intros inws cur.
  - cbn. rewrite map_rev. reflexivity.
  - cbn [map splitRe_loop]. rewrite upper_space, upper_comma.
    destruct (is_space c).
    + destruct inws; [apply (IH true [])|].
      cbn [map]. rewrite map_rev. f_equal. apply (IH true []).
    + destruct (comma && Ascii.eqb c ","%char).
      * cbn [map]. rewrite map_rev. f_equal. apply (IH false []).
      * apply (IH false (c :: cur)).
Qed.

Lemma splitRe_loop_nonempty (comma : bool) (s : str) :
  forall inws cur, splitRe_loop comma s inws cur <> [].
Proof.
  induction s as [|c s IH]; intros inws cur; cbn [splitRe_loop];
    [discriminate|].
  destruct (is_space c); [destruct inws; [apply IH | discriminate]|].
  destruct (comma && Ascii.eqb c ","%char); [discriminate | apply IH].
Qed.

Lemma first_part_In (comma : bool) (s : str) :
  In (nth 0 (splitRe_loop comma s false []) []) (splitRe_loop comma s false []).
Proof.
  pose proof (splitRe_loop_nonempty comma s false []) as N.
  destruct (splitRe_loop comma s false []); [congruence | left; reflexivity].
Qed.

(** The command name of [findRelatedOpcodes] is that of [findOpcodeInfo]
    on a text without the prefix "implicit ". *)
Lemma related_command (s : str) :
  startsWith (trim s) (lit "implicit ") = false ->
  nth 0 (splitWsComma (toUpperCase (trim s))) [] = commandNameOf s.
Proof.
  intros H. unfold commandNameOf, partsOf, normalize, splitWsComma.
  rewrite H.
  pose proof (splitRe_loop_upper true (trim s) false []) as E.
  change (toUpperCase []) with (@nil ascii) in E. rewrite E.
  apply (map_nth toUpperCase _ []).
Qed.

Lemma startsWith_refl (s : str) : startsWith s s = true.
Proof.
  rewrite <- (app_nil_r s) at 1. apply startsWith_app.
Qed.

Lemma xchgTier_names (opcodes : list Opcode) (parts : list str) (op : Opcode) :
  xchgTier opcodes parts = Some (Some op) ->
  name op = lit "XCHG_0I" \/ name op = lit "XCHG_1I" \/ name op = lit "XCHG_IJ".
Proof.
  unfold xchgTier, findByName.
  repeat match goal with
         | |- context [if ?c then _ else _] => destruct c
         | |- context [match ?x with _ => _ end] => destruct x
         end;
    intros [= H]; apply find_some in H; destruct H as [_ H];
    apply str_eqb_eq in H; rewrite H;
    [left | right; left | right; right]; reflexivity.
Qed.

Lemma template_includes (commandName : str) (op : Opcode) :
  templateMatches commandName op = true ->
  includes (toUpperCase (doc_fift op)) commandName = true.
Proof.
  unfold templateMatches. intros H.
  apply andb_true_iff in H as [_ H].
  apply andb_true_iff in H as [H _].
  apply str_eqb_eq in H. subst commandName.
  apply splitWs_includes. unfold splitWs.
  pose proof (splitRe_loop_upper false (doc_fift op) false []) as E.
  change (toUpperCase []) with (@nil ascii) in E. rewrite E.
  apply in_map. apply first_part_In.
Qed.

(** X18: the record the classifier selects for a text without the prefix
    "implicit " passes the test of the related records, unless it was
    selected for its description; the list of related records is then not
    empty, and it holds the selected record or is cut at five. *)
Theorem selected_record_is_related (opcodes : list Opcode) (opcodeStr : str)
    (op : Opcode) :
  startsWith (trim opcodeStr) (lit "implicit ") = false ->
  findOpcodeInfo opcodes opcodeStr = Some op ->
  includes (toUpperCase (doc_description op)) (commandNameOf opcodeStr) = false ->
  related (commandNameOf opcodeStr) op = true
  /\ findRelatedOpcodes opcodeStr opcodes <> []
  /\ (In op (findRelatedOpcodes opcodeStr opcodes)
      \/ length (findRelatedOpcodes opcodeStr opcodes) = 5).
Proof.
  intros Himp Hsel Hdesc.
  assert (R : related (commandNameOf opcodeStr) op = true).
  { revert Hsel. unfold findOpcodeInfo, related.
    destruct (isEmpty opcodeStr || (length opcodes =? 0)); [discriminate|].
    assert (Later : laterTiers opcodes (commandNameOf opcodeStr) = Some op ->
                    includes (toUpperCase (name op)) (commandNameOf opcodeStr)
                    || negb (isEmpty (alias_of op))
                       && includes (toUpperCase (alias_of op))
                            (commandNameOf opcodeStr)
                    || includes (toUpperCase (doc_fift op))
                         (commandNameOf opcodeStr) = true).
    { unfold laterTiers.
      destruct (find (templateMatches _) opcodes) eqn:F.
      - intros [= <-]. apply find_some in F as [_ F].
        rewrite (template_includes _ _ F). apply orb_true_r.
      - destruct (filter _ opcodes) eqn:D.
        + destruct (filter _ opcodes) eqn:N in |- *; [discriminate|].
          intros [= <-]. apply filter_head_In in N as [_ N].
          rewrite N. reflexivity.
        + intros [= <-]. apply filter_head_In in D as [_ D]. congruence. }
    destruct (find _ opcodes) eqn:F.
    - intros [= <-]. apply find_some in F as [_ F].
      apply str_eqb_eq in F. rewrite F.
      rewrite (includes_startsWith _ _ (startsWith_refl _)). reflexivity.
    - destruct (str_eqb (commandNameOf opcodeStr) (lit "XCHG")) eqn:X;
        [|exact Later].
      apply str_eqb_eq in X.
      destruct (xchgTier opcodes (partsOf opcodeStr)) as [[o|]|] eqn:T;
        [|discriminate|exact Later].
      intros [= <-]. rewrite X.
      destruct (xchgTier_names _ _ _ T) as [-> | [-> | ->]]; reflexivity. }
  assert (I : In op (filter (related (commandNameOf opcodeStr)) opcodes)).
  { apply filter_In. split; [|exact R].
    apply (findOpcodeInfo_member opcodes opcodeStr op Hsel). }
  unfold findRelatedOpcodes. rewrite (related_command _ Himp).
  set (l := filter (related (commandNameOf opcodeStr)) opcodes) in *.
  split; [exact R|]. split.
  - destruct l; [destruct I | discriminate].
  - destruct (Nat.le_gt_cases (length l) 5) as [L | L].
    + left. rewrite firstn_all2 by exact L. exact I.
    + right. rewrite length_firstn. lia.
Qed.

Lemma dropWhile_stop (p : ascii -> bool) (x : str) (c : ascii) (y : str) :
  p c = false -> dropWhile p (x ++ c :: y) = dropWhile p x ++ c :: y.
Proof.
  intros H. induction x as [|d x IH]; cbn [app dropWhile].
  - rewrite H. reflexivity.
  - destruct (p d); [exact IH | reflexivity].
Qed.

Lemma dropWhile_head_false (p : ascii -> bool) (l : str) (c : ascii) (r : str) :
  dropWhile p l = c :: r -> p c = false.
Proof.
  induction l as [|d l IH]; cbn [dropWhile]; [discriminate|].
  destruct (p d) eqn:E; [exact IH|].
  intros [= -> _]. exact E.
Qed.

Lemma takeWhile_forallb (p : ascii -> bool) (l : str) :
  forallb p (takeWhile p l) = true.
Proof.
  induction l as [|d l IH]; [reflexivity|].
  cbn [takeWhile]. destruct (p d) eqn:E; [|reflexivity].
  cbn [forallb]. rewrite E, IH. reflexivity.
Qed.

Lemma forallb_rev (p : ascii -> bool) (l : str) :
  forallb p l = true -> forallb p (rev l) = true.
Proof.
  rewrite !forallb_forall. intros H c I. apply H, in_rev, I.
Qed.

(** A text is its trimmed text between two runs of white space. *)
Lemma trim_decompose (x : str) :
  exists a b, x = a ++ trim x ++ b
              /\ forallb is_space a = true /\ forallb is_space b = true.
Proof.
  exists (takeWhile is_space x),
         (rev (takeWhile is_space (rev (dropWhile is_space x)))).
  split; [|split].
  - unfold trim. rewrite <- rev_app_distr, <- dropWhile_cut, rev_involutive.
    apply dropWhile_cut.
  - apply takeWhile_forallb.
  - apply forallb_rev, takeWhile_forallb.
Qed.

(** A trimmed text that is not empty starts and ends outside white
    space. *)
Lemma trim_ends (x : str) :
  trim x <> [] ->
  dropWhile is_space (trim x) = trim x
  /\ dropWhile is_space (rev (trim x)) = rev (trim x).
Proof.
  intros N. split.
  - destruct (trim x) as [|c m] eqn:E; [congruence|].
    apply dropWhile_head.
    destruct (trim_decompose x) as (a & b & D & Ha & _).
    pose proof (dropWhile_app is_space a (trim x ++ b) Ha) as Q.
    rewrite <- D, E in Q. cbn [app] in Q.
    unfold trim in E.
    destruct (dropWhile is_space x) as [|d y] eqn:Y; [discriminate E|].
    pose proof (dropWhile_head_false _ _ _ _ Y) as Sd.
    pose proof (dropWhile_cut is_space (rev (d :: y))) as C.
    apply (f_equal (@rev ascii)) in C.
    rewrite rev_involutive, rev_app_distr, E in C.
    cbn [app] in C. injection C as -> _. exact Sd.
  - unfold trim. rewrite rev_involutive.
    destruct (dropWhile is_space (rev (dropWhile is_space x))) as [|c r] eqn:E;
      [reflexivity|].
    apply dropWhile_head. apply (dropWhile_head_false _ _ _ _ E).
Qed.

Lemma trim_padded (a m b : str) :
  forallb is_space a = true -> forallb is_space b = true ->
  m <> [] -> dropWhile is_space m = m ->
  dropWhile is_space (rev m) = rev m ->
  trim (a ++ m ++ b) = m.
Proof.
  intros Ha Hb N H1 H2. unfold trim.
  rewrite dropWhile_app by exact Ha.
  destruct m as [|c m']; [congruence|].
  pose proof (dropWhile_head_false _ _ _ _ H1) as Sc.
  change ((c :: m') ++ b) with (c :: (m' ++ b)).
  rewrite dropWhile_head by exact Sc.
  change (c :: (m' ++ b)) with ((c :: m') ++ b).
  rewrite rev_app_distr.
  rewrite dropWhile_app by (apply forallb_rev, Hb).
  rewrite H2. apply rev_involutive.
Qed.

(** The trimmed text of "implicit " followed by anything is "implicit"
    followed by nothing or by a white-space character. *)
Lemma trim_implicit (rest : str) :
  exists e, trim (lit "implicit " ++ rest) = lit "implicit" ++ e
            /\ (e = [] \/ exists e', e = " "%char :: e').
Proof.
  exists (rev (dropWhile is_space (rev (" "%char :: rest)))).
  split.
  - unfold trim.
    change (dropWhile is_space (lit "implicit " ++ rest))
      with (lit "implici" ++ "t"%char :: " "%char :: rest).
    rewrite rev_app_distr.
    change (rev ("t"%char :: " "%char :: rest))
      with (rev (" "%char :: rest) ++ ["t"%char]).
    rewrite <- app_assoc.
    change (["t"%char] ++ rev (lit "implici"))
      with ("t"%char :: rev (lit "implici")).
    rewrite dropWhile_stop by reflexivity.
    rewrite rev_app_distr.
    change (rev ("t"%char :: rev (lit "implici"))) with (lit "implicit").
    reflexivity.
  - pose proof (dropWhile_cut is_space (rev (" "%char :: rest))) as C.
    apply (f_equal (@rev ascii)) in C.
    rewrite rev_involutive, rev_app_distr in C.
    destruct (rev (dropWhile is_space (rev (" "%char :: rest)))) as [|d e'];
      [left; reflexivity|].
    right. exists e'. cbn [app] in C. injection C as <- _. reflexivity.
Qed.

(** X19: for a text that starts with "implicit " the related records are
    searched under the command name IMPLICIT, whatever follows the
    prefix. *)
Theorem findRelatedOpcodes_implicit (rest : str) (opcodes : list Opcode) :
  findRelatedOpcodes (lit "implicit " ++ rest) opcodes
  = firstn 5 (filter (related (lit "IMPLICIT")) opcodes).
Proof.
  unfold findRelatedOpcodes.
  destruct (trim_implicit rest) as (e & -> & He).
  assert (C : nth 0 (splitWsComma (toUpperCase (lit "implicit" ++ e))) []
              = lit "IMPLICIT").
  { unfold toUpperCase. rewrite map_app.
    change (map upper (lit "implicit")) with (lit "IMPLICIT").
    unfold splitWsComma.
    destruct He as [-> | (e' & ->)]; [reflexivity|].
    cbn [map].
    change (upper " "%char) with " "%char.
    change (lit "IMPLICIT" ++ " "%char :: map upper e')
      with (lit "IMPLICIT " ++ map upper e').
    assert (H : forall r,
               splitRe_loop true (lit "IMPLICIT " ++ r) false []
               = lit "IMPLICIT" :: splitRe_loop true r true [])
      by (intros r; reflexivity).
    rewrite H. reflexivity. }
  rewrite C. reflexivity.
Qed.

(** X20: the classifier drops the prefix "implicit ": the text after it,
    when it is not white space only and does not start with the prefix
    again, gets the same record with and without the prefix. *)
Theorem findOpcodeInfo_implicit (opcodes : list Opcode) (rest : str) :
  trim rest <> [] ->
  startsWith (trim rest) (lit "implicit ") = false ->
  findOpcodeInfo opcodes (lit "implicit " ++ rest)
  = findOpcodeInfo opcodes rest.
Proof.
  intros N Hnot.
  destruct (trim_decompose rest) as (a & b & D & Ha & Hb).
  destruct (trim_ends rest N) as [H1 H2].
  set (m := trim rest) in *.
  assert (T : trim (lit "implicit " ++ rest) = lit "implicit " ++ a ++ m).
  { rewrite D.
    replace (lit "implicit " ++ a ++ m ++ b)
      with ([] ++ (lit "implicit " ++ a ++ m) ++ b)
      by (cbn [app]; rewrite <- !app_assoc; reflexivity).
    apply trim_padded; [reflexivity | exact Hb | discriminate | reflexivity |].
    rewrite !rev_app_distr, <- app_assoc.
    destruct (rev m) as [|c r] eqn:R.
    - exfalso. apply N. rewrite <- (rev_involutive m), R. reflexivity.
    - cbn [app]. apply dropWhile_head.
      apply (dropWhile_head_false _ _ _ _ H2). }
  assert (E : normalize (lit "implicit " ++ rest) = normalize rest).
  { unfold normalize. rewrite T. fold m. rewrite Hnot.
    replace (startsWith (lit "implicit " ++ a ++ m) (lit "implicit "))
      with true by (symmetry; apply startsWith_app).
    change (skipn 9 (lit "implicit " ++ a ++ m)) with (a ++ m).
    rewrite <- (app_nil_r (a ++ m)), <- app_assoc.
    apply trim_padded; [exact Ha | reflexivity | exact N | exact H1 | exact H2]. }
  unfold findOpcodeInfo, commandNameOf, partsOf. rewrite E.
  assert (R : isEmpty rest = false).
  { destruct rest; [|reflexivity]. exfalso. apply N. reflexivity. }
  rewrite R. reflexivity.
Qed.

Section ViewerFacts.
Context {Item : Type}.

Lemma handleOpcodeClick_keeps (hexCode : str) (v : View Item) :
  emulationResult (handleOpcodeClick hexCode v) = emulationResult v
  /\ selectedStep (handleOpcodeClick hexCode v) = selectedStep v
  /\ opcodes (handleOpcodeClick hexCode v) = opcodes v
  /\ isHoveringStack (handleOpcodeClick hexCode v) = isHoveringStack v.
Proof.
  unfold handleOpcodeClick, loadOpcodesJson.
  destruct (length (opcodes v) =? 0); [destruct (0 <? length (opcodes v))|];
    repeat split; reflexivity.
Qed.

Lemma loadCompleted_keeps (response : option (list Opcode)) (v : View Item) :
  emulationResult (loadCompleted response v) = emulationResult v
  /\ selectedStep (loadCompleted response v) = selectedStep v
  /\ (opcodes (loadCompleted response v) = opcodes v
      \/ exists data, response = Some data
                      /\ opcodes (loadCompleted response v) = data).
Proof.
  unfold loadCompleted. destruct (loadsInFlight v); cbn.
  - repeat split. left. reflexivity.
  - repeat split. destruct response as [data|];
      [right; exists data; split; reflexivity | left; reflexivity].
Qed.

Lemma press_in_range (k : Key) (v : View Item)
    (logs : list (ComputeLog Item)) :
  emulationResult v = Some logs -> selectedStep v < length logs ->
  exists v', press k v = Some v'
             /\ emulationResult v' = Some logs
             /\ selectedStep v' < length logs
             /\ opcodes v' = opcodes v.
Proof.
  intros E R. destruct k; cbn [press]; unfold prevStep, nextStep; rewrite E.
  - destruct (Nat.ltb_spec 0 (selectedStep v)) as [L | L].
    + destruct (nth_error logs (selectedStep v - 1)) as [log|] eqn:N.
      * eexists. split; [reflexivity|].
        destruct (handleOpcodeClick_keeps (instruction log)
                    (setSelectedStep (selectedStep v - 1) v))
          as (-> & -> & -> & _).
        cbn. repeat split; [exact E | lia].
      * apply nth_error_None in N. lia.
    + exists v. repeat split; assumption.
  - destruct (Nat.ltb_spec (selectedStep v) (length logs - 1)) as [L | L].
    + destruct (nth_error logs (selectedStep v + 1)) as [log|] eqn:N.
      * eexists. split; [reflexivity|].
        destruct (handleOpcodeClick_keeps (instruction log)
                    (setSelectedStep (selectedStep v + 1) v))
          as (-> & -> & -> & _).
        cbn. repeat split; [exact E | lia].
      * apply nth_error_None in N. lia.
    + exists v. repeat split; assumption.
Qed.

(** X21: from a selected step inside the log, no sequence of releases of
    the two arrow keys and of completions of requests for the catalog ends
    in a TypeError or takes the selected step outside the log; the result
    is left as it is, and the catalog is the one of the start or the data
    of one of the answers that completed. *)
Theorem arrow_keys_stay_in_range (ins : list Input) (v : View Item)
    (logs : list (ComputeLog Item)) :
  emulationResult v = Some logs -> selectedStep v < length logs ->
  exists v', stepAll ins v = Some v'
             /\ emulationResult v' = Some logs
             /\ selectedStep v' < length logs
             /\ (opcodes v' = opcodes v
                 \/ exists data, In (OpcodesResponse (Some data)) ins
                                 /\ opcodes v' = data).
Proof.
  revert v. induction ins as [|i ins IH]; intros v E R.
  - exists v. split; [reflexivity|]. split; [exact E|]. split; [exact R|].
    left. reflexivity.
  - assert (S1 : exists v1, step i v = Some v1
                            /\ emulationResult v1 = Some logs
                            /\ selectedStep v1 < length logs
                            /\ (opcodes v1 = opcodes v
                                \/ exists data, i = OpcodesResponse (Some data)
                                                /\ opcodes v1 = data)).
    { destruct i as [k | response]; cbn [step].
      - destruct (press_in_range k v logs E R) as (v1 & P1 & E1 & R1 & O1).
        exists v1. split; [exact P1|]. split; [exact E1|].
        split; [exact R1 | left; exact O1].
      - destruct (loadCompleted_keeps response v) as (E1 & R1 & O1).
        eexists. split; [reflexivity|].
        split; [rewrite E1; exact E|]. split; [rewrite R1; exact R|].
        destruct O1 as [O1 | (data & -> & O1)];
          [left; exact O1 | right; exists data; split; [reflexivity | exact O1]]. }
    destruct S1 as (v1 & P1 & E1 & R1 & O1).
    destruct (IH v1 E1 R1) as (v' & P' & E' & R' & O').
    exists v'. cbn [stepAll]. rewrite P1.
    split; [exact P'|]. split; [exact E'|]. split; [exact R'|].
    destruct O' as [O' | (data & I & O')].
    + destruct O1 as [O1 | (data & -> & O1)].
      * left. congruence.
      * right. exists data. split; [left; reflexivity | congruence].
    + right. exists data. split; [right; exact I | exact O'].
Qed.

(** X22: an arrow key that moves the selected step moves it by one, and
    with a loaded catalog the selection becomes what the classifier, the
    related records and the stack-effect parser give for the instruction
    of the new step; with an empty catalog the selection stays what it
    was. *)
Theorem arrow_key_selects (k : Key) (v v' : View Item)
    (logs : list (ComputeLog Item)) :
  emulationResult v = Some logs ->
  press k v = Some v' ->
  selectedStep v' <> selectedStep v ->
  selectedStep v' = match k with
                    | ArrowLeft => selectedStep v - 1
                    | ArrowRight => selectedStep v + 1
                    end
  /\ exists log,
       nth_error logs (selectedStep v') = Some log
       /\ match opcodes v with
          | [] => selectedOpcode v' = selectedOpcode v
                  /\ matchingOpcodes v' = matchingOpcodes v
                  /\ selectedOpcodeStackDiff v' = selectedOpcodeStackDiff v
          | _ :: _ =>
              selectedOpcode v' = findOpcodeInfo (opcodes v) (instruction log)
              /\ matchingOpcodes v'
                 = findRelatedOpcodes (instruction log) (opcodes v)
              /\ selectedOpcodeStackDiff v'
                 = parseOpcodeStackDiff
                     (match findOpcodeInfo (opcodes v) (instruction log) with
                      | Some op => doc_stack op
                      | None => []
                      end)
          end.
Proof.
  intros E P M.
  assert (G : forall i log,
             v' = handleOpcodeClick (instruction log) (setSelectedStep i v) ->
             nth_error logs i = Some log ->
             selectedStep v' = i
             /\ exists log0,
                  nth_error logs (selectedStep v') = Some log0
                  /\ match opcodes v with
                     | [] => selectedOpcode v' = selectedOpcode v
                             /\ matchingOpcodes v' = matchingOpcodes v
                             /\ selectedOpcodeStackDiff v'
                                = selectedOpcodeStackDiff v
                     | _ :: _ =>
                         selectedOpcode v'
                         = findOpcodeInfo (opcodes v) (instruction log0)
                         /\ matchingOpcodes v'
                            = findRelatedOpcodes (instruction log0) (opcodes v)
                         /\ selectedOpcodeStackDiff v'
                            = parseOpcodeStackDiff
                                (match findOpcodeInfo (opcodes v)
                                         (instruction log0) with
                                 | Some op => doc_stack op
                                 | None => []
                                 end)
                     end).
  { intros i log -> N.
    destruct (handleOpcodeClick_keeps (instruction log) (setSelectedStep i v))
      as (_ & S & _ & _).
    rewrite S. cbn [setSelectedStep selectedStep].
    split; [reflexivity|]. exists log. split; [exact N|].
    unfold handleOpcodeClick, loadOpcodesJson. cbn [setSelectedStep opcodes].
    destruct (opcodes v) as [|o os]; cbn; repeat split. }
  destruct k; cbn [press] in P; unfold prevStep, nextStep in P;
    rewrite E in P.
  - destruct (0 <? selectedStep v); [|injection P as <-; congruence].
    destruct (nth_error logs (selectedStep v - 1)) as [log|] eqn:N;
      [|discriminate P].
    injection P as P. symmetry in P. apply (G _ log P N).
  - destruct (selectedStep v <? length logs - 1);
      [|injection P as <-; congruence].
    destruct (nth_error logs (selectedStep v + 1)) as [log|] eqn:N;
      [|discriminate P].
    injection P as P. symmetry in P. apply (G _ log P N).
Qed.

Lemma highlight_test (i n : nat) :
  existsb (Nat.eqb i) (seq 0 n) = (i <? n).
Proof.
  destruct (Nat.ltb_spec i n) as [L | L].
  - apply existsb_exists. exists i. split; [|apply Nat.eqb_refl].
    apply in_seq. lia.
  - destruct (existsb (Nat.eqb i) (seq 0 n)) eqn:E; [|reflexivity].
    apply existsb_exists in E as (x & I & Q).
    apply Nat.eqb_eq in Q. apply in_seq in I. lia.
Qed.

Lemma rowsFrom_items (i : nat) (els : list nat) (sb : bool)
    (items : list Item) :
  map item (rowsFrom i els sb items) = items.
Proof.
  revert i. induction items as [|x items IH]; intros i; [reflexivity|].
  cbn [rowsFrom map item]. rewrite IH. reflexivity.
Qed.

Lemma rowsFrom_flags (els : list nat) (sb : bool) (items : list Item)
    (r : Row) :
  forall i, In r (rowsFrom i els sb items) ->
            isHighlighted r = existsb (Nat.eqb (position r)) els
            /\ isStackBefore r = sb.
Proof.
  induction items as [|x items IH]; intros i I; [destruct I|].
  cbn [rowsFrom] in I. destruct I as [<- | I]; [split; reflexivity|].
  apply (IH (S i) I).
Qed.

Lemma rowsFrom_highlighted (n : nat) (sb : bool) (items : list Item) :
  forall i,
    map item (filter isHighlighted (rowsFrom i (seq 0 n) sb items))
    = firstn (n - i) items.
Proof.
  induction items as [|x items IH]; intros i.
  - rewrite firstn_nil. reflexivity.
  - cbn [rowsFrom filter isHighlighted]. rewrite highlight_test.
    destruct (Nat.ltb_spec i n) as [L | L].
    + replace (n - i) with (S (n - S i)) by lia.
      cbn [map item firstn]. rewrite IH. reflexivity.
    + replace (n - i) with 0 by lia. rewrite IH.
      replace (n - S i) with 0 by lia. reflexivity.
Qed.

(** X23: the stack table shows the entries of the stack of the selected
    step, or of the step before it while the pointer is over the table and
    the step is not the first, last entry first; the highlighted rows are
    the first n of them, that is the n entries at the end of the stack, n
    being the consumed count of the selected stack effect in the second
    case, the produced count in the first, and 0 without a stack effect. *)
Theorem stack_rows_highlight_the_top (v : View Item) (rows : list Row) :
  stackRows v = Some rows ->
  let showBefore := isHoveringStack v && (0 <? selectedStep v) in
  let n := match selectedOpcodeStackDiff v with
           | None => 0
           | Some (consumed, produced) =>
               if showBefore then consumed else produced
           end in
  exists logs log,
    emulationResult v = Some logs
    /\ nth_error logs (if showBefore then selectedStep v - 1
                       else selectedStep v) = Some log
    /\ map item rows = rev (stackAfter log)
    /\ (forall r, In r rows ->
          isHighlighted r = (position r <? n) /\ isStackBefore r = showBefore)
    /\ map item (filter isHighlighted rows)
       = rev (skipn (length (stackAfter log) - n) (stackAfter log)).
Proof.
  intros H showBefore n. unfold stackRows in H.
  destruct (emulationResult v) as [logs|]; [|discriminate H].
  fold showBefore in H.
  destruct (nth_error logs _) as [log|] eqn:N; [|discriminate H].
  injection H as <-.
  assert (D : determineStackHighlightElements
                (selectedOpcodeStackDiff v) showBefore = seq 0 n).
  { unfold determineStackHighlightElements, n.
    destruct (selectedOpcodeStackDiff v) as [[c p]|]; [|reflexivity].
    destruct showBefore; reflexivity. }
  rewrite D.
  exists logs, log. split; [reflexivity|]. split; [exact N|].
  split; [apply rowsFrom_items|]. split.
  - intros r I. apply rowsFrom_flags in I as [-> ->].
    rewrite highlight_test. split; reflexivity.
  - rewrite rowsFrom_highlighted, Nat.sub_0_r. apply firstn_rev.
Qed.

End ViewerFacts.

(** X24: a step text of more than 24 characters is shown in 27: its first
    19, three dots and its last 5; a shorter one is shown as it is.  So no
    shown text is longer than 27 characters, and one of 25 or 26 characters
    is shown longer than it is. *)
Theorem shortStep_shape (step : str) :
  length (shortStep step) = (if 24 <? length step then 27 else length step)
  /\ length (shortStep step) <= 27
  /\ firstn 19 (shortStep step) = firstn 19 step
  /\ skipn (length (shortStep step) - 5) (shortStep step)
     = skipn (length step - 5) step.
Proof.
  unfold shortStep.
  destruct (Nat.ltb_spec 24 (length step)) as [L | L].
  - assert (L1 : length (firstn 19 step) = 19)
      by (rewrite length_firstn; lia).
    assert (L2 : length (skipn (length step - 5) step) = 5)
      by (rewrite length_skipn; lia).
    assert (Len : length (firstn 19 step ++ lit "..."
                          ++ skipn (length step - 5) step) = 27).
    { rewrite !length_app, L1, L2. reflexivity. }
    rewrite Len.
    set (a := firstn 19 step) in *.
    set (b := skipn (length step - 5) step) in *.
    repeat split; [lia | |].
    + rewrite firstn_app, L1, Nat.sub_diag, firstn_O, app_nil_r.
      apply firstn_all2. lia.
    + rewrite app_assoc.
      assert (L3 : length (a ++ lit "...") = 22)
        by (rewrite length_app, L1; reflexivity).
      rewrite skipn_app, L3.
      rewrite skipn_all2 by lia.
      reflexivity.
  - repeat split; lia.
Qed.

Lemma matchSpan_startsWith (delim : str) (c : ascii) (s : str)
    (m : str * nat) :
  matchSpan delim c s = Some m -> startsWith s delim = true.
Proof.
  unfold matchSpan. destruct (startsWith s delim); [reflexivity | discriminate].
Qed.

(** A text without the delimiter holds no span to replace. *)
Lemma replaceSpan_id (delim : str) (c : ascii) (open close s : str) :
  includes s delim = false -> replaceSpan delim c open close s = s.
Proof.
  unfold replaceSpan.
  induction s as [|ch s IH]; intros H; [reflexivity|].
  destruct (includes_tail ch s delim H) as [H1 H2].
  cbn [replaceSpan_loop].
  destruct (matchSpan delim c (ch :: s)) as [[body n]|] eqn:M.
  - apply matchSpan_startsWith in M. congruence.
  - f_equal. apply IH, H2.
Qed.

Lemma replaceSpan_loop_skip (delim : str) (c : ascii) (open close s : str)
    (k : nat) :
  length s <= k -> replaceSpan_loop delim c open close s k = [].
Proof.
  revert k; induction s as [|ch s IH]; intros k H; [reflexivity|].
  simpl in H. destruct k as [|k]; [lia|].
  simpl. apply IH; lia.
Qed.

(** A text that is one span is replaced as a whole. *)
Lemma replaceSpan_whole (delim' : str) (c : ascii) (open close body : str) :
  body <> [] -> ~ In c body ->
  replaceSpan (c :: delim') c open close
    ((c :: delim') ++ body ++ (c :: delim'))
  = open ++ body ++ close.
Proof.
  intros N H.
  assert (B : forallb (fun x => negb (Ascii.eqb x c)) body = true).
  { apply forallb_forall. intros x I.
    destruct (Ascii.eqb_spec x c) as [->|]; [contradiction | reflexivity]. }
  assert (T : takeWhile (fun x => negb (Ascii.eqb x c)) (body ++ c :: delim')
              = body).
  { rewrite takeWhile_app by exact B. cbn [takeWhile].
    rewrite Ascii.eqb_refl. apply app_nil_r. }
  assert (D : dropWhile (fun x => negb (Ascii.eqb x c)) (body ++ c :: delim')
              = c :: delim').
  { rewrite dropWhile_app by exact B. cbn [dropWhile].
    rewrite Ascii.eqb_refl. reflexivity. }
  assert (M : matchSpan (c :: delim') c
                ((c :: delim') ++ body ++ c :: delim')
              = Some (body, length ((c :: delim') ++ body ++ c :: delim'))).
  { unfold matchSpan. rewrite startsWith_app, skipn_prefix, T, D.
    rewrite startsWith_refl.
    destruct body; [congruence|]. cbn [isEmpty negb andb].
    rewrite !length_app. f_equal. f_equal. lia. }
  unfold replaceSpan.
  destruct ((c :: delim') ++ body ++ c :: delim') as [|ch s] eqn:E;
    [discriminate E|].
  cbn [replaceSpan_loop]. rewrite M.
  rewrite replaceSpan_loop_skip by (cbn [length]; lia).
  rewrite !app_nil_r. reflexivity.
Qed.

Lemma markupFree_spec (s : str) :
  markupFree s = true ->
  ~ In "`"%char s /\ ~ In "*"%char s /\ ~ In "_"%char s.
Proof.
  unfold markupFree. rewrite forallb_forall. intros H.
  repeat split; intros I; specialize (H _ I); discriminate H.
Qed.

Lemma markupFree_app (a b : str) :
  markupFree a = true -> markupFree b = true -> markupFree (a ++ b) = true.
Proof.
  unfold markupFree. intros Ha Hb. rewrite forallb_app, Ha, Hb. reflexivity.
Qed.

(** The four replacements leave a text without markers as it is. *)
Lemma passes_plain (s : str) :
  markupFree s = true ->
  replaceSpan (lit "`") "`" (lit "<code>") (lit "</code>") s = s
  /\ replaceSpan (lit "**") "*" (lit "<strong>") (lit "</strong>") s = s
  /\ replaceSpan (lit "_") "_" (lit "<em>") (lit "</em>") s = s
  /\ replaceSpan (lit "*") "*" (lit "<em>") (lit "</em>") s = s.
Proof.
  intros H. destruct (markupFree_spec s H) as (H1 & H2 & H3).
  repeat split; apply replaceSpan_id.
  - apply (without_char "`"%char); [left; reflexivity | exact H1].
  - apply (without_char "*"%char); [left; reflexivity | exact H2].
  - apply (without_char "_"%char); [left; reflexivity | exact H3].
  - apply (without_char "*"%char); [left; reflexivity | exact H2].
Qed.

(** X25: a text that holds no backquote, no asterisk and no underscore comes
    out of [parseMarkdown] as it went in. *)
Theorem parseMarkdown_plain (text : str) :
  markupFree text = true -> parseMarkdown text = text.
Proof.
  intros H. unfold parseMarkdown.
  destruct text as [|c text]; [reflexivity|]. cbn [isEmpty].
  destruct (passes_plain _ H) as (E1 & E2 & E3 & E4).
  rewrite E1, E2, E3, E4. reflexivity.
Qed.

Lemma parseMarkdown_plain_witness :
  parseMarkdown (lit "Pushes a <b>null</b> value") = lit "Pushes a <b>null</b> value".
Proof.
  apply (parseMarkdown_plain (lit "Pushes a <b>null</b> value")).
  reflexivity.
Defined.

Lemma includes_pair (c : ascii) (body : str) :
  ~ In c body -> includes (body ++ [c]) [c; c] = false.
Proof.
  induction body as [|d body IH]; intros H.
  - cbn. rewrite Ascii.eqb_refl. reflexivity.
  - cbn [app includes startsWith].
    destruct (Ascii.eqb_spec c d) as [->|N].
    + exfalso. apply H. left. reflexivity.
    + cbn [andb orb]. apply IH. intros I. apply H. right. exact I.
Qed.

Lemma span_without (c : ascii) (a body b : str) :
  existsb (Ascii.eqb c) a = false -> ~ In c body ->
  existsb (Ascii.eqb c) b = false ->
  forall p, In c p -> includes (a ++ body ++ b) p = false.
Proof.
  intros Ha Hb Hc p Ip. apply (without_char c); [exact Ip|].
  intros I. apply in_app_or in I as [I | I];
    [exact (not_In_by_eval _ _ Ha I)|].
  apply in_app_or in I as [I | I];
    [exact (Hb I) | exact (not_In_by_eval _ _ Hc I)].
Qed.

(** X26: a text that is one span around a body without markers becomes the
    body inside the element of the span: code for backquotes, strong for
    double asterisks, em for underscores and for single asterisks. *)
Theorem parseMarkdown_spans (body : str) :
  body <> [] -> markupFree body = true ->
  parseMarkdown (lit "`" ++ body ++ lit "`")
  = lit "<code>" ++ body ++ lit "</code>"
  /\ parseMarkdown (lit "**" ++ body ++ lit "**")
     = lit "<strong>" ++ body ++ lit "</strong>"
  /\ parseMarkdown (lit "_" ++ body ++ lit "_")
     = lit "<em>" ++ body ++ lit "</em>"
  /\ parseMarkdown (lit "*" ++ body ++ lit "*")
     = lit "<em>" ++ body ++ lit "</em>".
Proof.
  intros N H. destruct (markupFree_spec body H) as (H1 & H2 & H3).
  assert (Tag : forall open close,
             markupFree open = true -> markupFree close = true ->
             markupFree (open ++ body ++ close) = true).
  { intros open close Ho Hc. repeat apply markupFree_app; assumption. }
  assert (W1 : replaceSpan (lit "`") "`" (lit "<code>") (lit "</code>")
                 (lit "`" ++ body ++ lit "`")
               = lit "<code>" ++ body ++ lit "</code>")
    by exact (replaceSpan_whole [] "`"%char _ _ body N H1).
  assert (W2 : replaceSpan (lit "**") "*" (lit "<strong>") (lit "</strong>")
                 (lit "**" ++ body ++ lit "**")
               = lit "<strong>" ++ body ++ lit "</strong>")
    by exact (replaceSpan_whole ["*"%char] "*"%char _ _ body N H2).
  assert (W3 : replaceSpan (lit "_") "_" (lit "<em>") (lit "</em>")
                 (lit "_" ++ body ++ lit "_")
               = lit "<em>" ++ body ++ lit "</em>")
    by exact (replaceSpan_whole [] "_"%char _ _ body N H3).
  assert (W4 : replaceSpan (lit "*") "*" (lit "<em>") (lit "</em>")
                 (lit "*" ++ body ++ lit "*")
               = lit "<em>" ++ body ++ lit "</em>")
    by exact (replaceSpan_whole [] "*"%char _ _ body N H2).
  assert (Pair : includes (lit "*" ++ body ++ lit "*") (lit "**") = false).
  { change (lit "*" ++ body ++ lit "*") with ("*"%char :: (body ++ ["*"%char])).
    change (lit "**") with ["*"%char; "*"%char].
    assert (U : forall c x p,
               includes (c :: x) p = startsWith (c :: x) p || includes x p)
      by reflexivity.
    rewrite U, (includes_pair "*"%char body H2), orb_false_r.
    destruct body as [|d body']; [congruence|].
    cbn [app startsWith].
    destruct (Ascii.eqb_spec "*"%char d) as [<-|Nd]; [|reflexivity].
    exfalso. apply H2. left. reflexivity. }
  unfold parseMarkdown. repeat split.
  - replace (isEmpty (lit "`" ++ body ++ lit "`")) with false by reflexivity.
    rewrite W1.
    destruct (passes_plain (lit "<code>" ++ body ++ lit "</code>")
                (Tag (lit "<code>") (lit "</code>") eq_refl eq_refl))
      as (_ & E2 & E3 & E4).
    rewrite E2, E3, E4. reflexivity.
  - replace (isEmpty (lit "**" ++ body ++ lit "**")) with false by reflexivity.
    rewrite (replaceSpan_id (lit "`") "`"%char)
      by (apply (span_without "`"%char);
          [reflexivity | exact H1 | reflexivity | left; reflexivity]).
    rewrite W2.
    destruct (passes_plain (lit "<strong>" ++ body ++ lit "</strong>")
                (Tag (lit "<strong>") (lit "</strong>") eq_refl eq_refl))
      as (_ & _ & E3 & E4).
    rewrite E3, E4. reflexivity.
  - replace (isEmpty (lit "_" ++ body ++ lit "_")) with false by reflexivity.
    rewrite (replaceSpan_id (lit "`") "`"%char)
      by (apply (span_without "`"%char);
          [reflexivity | exact H1 | reflexivity | left; reflexivity]).
    rewrite (replaceSpan_id (lit "**") "*"%char)
      by (apply (span_without "*"%char);
          [reflexivity | exact H2 | reflexivity | left; reflexivity]).
    rewrite W3.
    destruct (passes_plain (lit "<em>" ++ body ++ lit "</em>")
                (Tag (lit "<em>") (lit "</em>") eq_refl eq_refl))
      as (_ & _ & _ & E4).
    rewrite E4. reflexivity.
  - replace (isEmpty (lit "*" ++ body ++ lit "*")) with false by reflexivity.
    rewrite (replaceSpan_id (lit "`") "`"%char)
      by (apply (span_without "`"%char);
          [reflexivity | exact H1 | reflexivity | left; reflexivity]).
    rewrite (replaceSpan_id (lit "**") "*"%char) by exact Pair.
    rewrite (replaceSpan_id (lit "_") "_"%char)
      by (apply (span_without "_"%char);
          [reflexivity | exact H3 | reflexivity | left; reflexivity]).
    exact W4.
Qed.

(* ------------------------------------------------------------------ *)
(** ** The masterchain block of a shard block *)

Import Masterchain.

Section GetterFacts.
Context {P : Platform}.
Variable blocksIndex : BlocksQuery -> BlocksResponse.

(** X27: [mcSeqnoByShard] returns a value only from the first block of the
    answer to the request it made, and only when the root hash of that
    block is the one it was given; every Error it throws starts with
    "Get blocks on Toncenter V3: ", a root hash that differs being one of
    them, and what it throws that is no Error is what the request threw. *)
Theorem mcSeqnoByShard_outcomes (s : ShardRef) (testnet : bool) :
  match mcSeqnoByShard blocksIndex s testnet with
  | Ok r =>
      exists q block rest,
        shardQuery s testnet = Some q
        /\ blocksIndex q = BlocksFound (block :: rest)
        /\ root_hash block = rootHash s
        /\ mcSeqno r = masterchain_block_ref_seqno block
        /\ randSeed r = Buffer_from_base64 (rand_seed block)
  | Throw (Error message) =>
      startsWith message (lit "Get blocks on Toncenter V3: ") = true
      /\ (forall q block rest,
            shardQuery s testnet = Some q ->
            blocksIndex q = BlocksFound (block :: rest) ->
            root_hash block <> rootHash s /\
            message = lit "Get blocks on Toncenter V3: rootHash mismatch in mc_seqno getter: "
                      ++ rootHash s ++ lit " != " ++ root_hash block)
  | Throw Foreign =>
      exists q, shardQuery s testnet = Some q
                /\ blocksIndex q = BlocksFailed Foreign
  end.
Proof.
  unfold mcSeqnoByShard, askBlock.
  destruct (shardQuery s testnet) as [q|].
  - destruct (blocksIndex q) as [[|block rest]|[message|]] eqn:B.
    + split; [apply startsWith_app|]. intros q' b' r' [= <-] E.
      rewrite B in E. discriminate E.
    + destruct (str_eqb (root_hash block) (rootHash s)) eqn:R; cbn [negb].
      * apply str_eqb_eq in R.
        exists q, block, rest. repeat split; [exact B | exact R].
      * split; [apply startsWith_app|]. intros q' b' r' [= <-] E.
        rewrite B in E. injection E as <- <-.
        split; [|reflexivity].
        intros Q. apply str_eqb_eq in Q. congruence.
    + split; [apply startsWith_app|]. intros q' b' r' [= <-] E.
      rewrite B in E. discriminate E.
    + exists q. split; [reflexivity | exact B].
  - split; [apply startsWith_app|]. intros q b r E. discriminate E.
Qed.

(** X28: the shard identifier is sent as an unsigned 64-bit number: for the
    decimal text of an integer n with -2^64 <= n < 2^64, every signed and
    every unsigned 64-bit number among them, the request carries "0x" and
    the hexadecimal numeral of n modulo 2^64, with the work chain, the
    sequence number and the network it was given. *)
Theorem shardQuery_unsigned (s : ShardRef) (testnet : bool) (n : Z) :
  shard s = BigInt_toString n ->
  (- two64 <= n < two64)%Z ->
  shardQuery s testnet
  = Some {| q_workchain := workchain s;
            q_shard := lit "0x" ++ BigInt_toString16 (n mod two64);
            q_seqno := seqno s;
            q_testnet := testnet |}
  /\ (0 <= n mod two64 < two64)%Z.
Proof.
  intros E R. unfold shardQuery. rewrite E, BigInt_of_toString.
  split; [|apply Z.mod_pos_bound; reflexivity].
  f_equal. f_equal. f_equal. f_equal.
  destruct (Z.ltb_spec n 0) as [L | L].
  - rewrite <- (Z.mod_small (n + two64) two64) by lia.
    rewrite <- (Z_mod_plus_full n 1 two64). f_equal; lia.
  - symmetry. apply Z.mod_small. lia.
Qed.

End GetterFacts.

(* ------------------------------------------------------------------ *)
(** ** The further properties on sample data *)

Lemma wordsOfLine_brackets_alone_witness :
  lit "12" = lit "[" \/ lit "12" = lit "]" \/ plain (lit "12").
Proof.
  apply (wordsOfLine_brackets_alone (lit "stack: [12 (3)]") (lit "12")).
  vm_compute. right; right; left; reflexivity.
Defined.

Lemma parseStackElement_parenthesised_witness :
  parseStackElement (P := Sample.platform) (lit "((7))")
  = ETuple [parseStackElement (lit "(7)")].
Proof.
  apply (parseStackElement_parenthesised (P := Sample.platform) (lit "(7)")).
  discriminate.
Defined.

Lemma parseStack_labels_only_witness :
  parseStack (P := Sample.platform) (lit "stack: ") = Returns None.
Proof.
  apply (parseStack_labels_only (P := Sample.platform) (lit "stack: ")
           (ISkip (lit "stack:") (ISkip [] INil))); reflexivity.
Defined.

Lemma full_links_are_offline_witness :
  fst (run (linkToTx (P := Sample.platform) Sample.emptyIndex
              (toncx (txToLinks Sample.locator false)) None)) = [].
Proof.
  apply (full_links_are_offline (P := Sample.platform) Sample.emptyIndex).
  left. vm_compute; reflexivity.
Defined.

Lemma hash_links_one_request_witness :
  let out := run (linkToTx (P := Sample.platform) Sample.mainnetKnows
                    (lit "https://tonviewer.com/transaction/"
                     ++ Sample.hashHex) None) in
  fst out = [Fetch Sample.hashHex false]
  /\ shown (snd out) = Ok (Sample.resolved false).
Proof.
  pose proof (proj1 (proj1 (hash_links_one_request (P := Sample.platform)
                       Sample.mainnetKnows Sample.hashHex false None
                       ltac:(apply not_In_by_eval; vm_compute; reflexivity))
                eq_refl)) as K.
  unfold oneLookup in K. cbv zeta in K |- *.
  destruct K as (K1 & _ & K3).
  specialize (K3 Sample.sampleTx [] 47670702000009%Z
                 (Indexed.account Sample.sampleTx)
                 ltac:(vm_compute; reflexivity)
                 ltac:(vm_compute; reflexivity)
                 ltac:(vm_compute; reflexivity)).
  split.
  - exact K1.
  - change (lit "https://tonviewer.com/transaction/" ++ Sample.hashHex)
      with (hashLink false "tonviewer.com/transaction/" Sample.hashHex).
    rewrite K3. vm_compute; reflexivity.
Defined.

Lemma forced_testnet_skips_mainnet_witness :
  let out := run (linkToTx (P := Sample.platform) Sample.mainnetDown
                    Sample.hashHex (Some true)) in
  fst out = [RateLimitWait; Fetch Sample.hashHex true]
  /\ shown (snd out) = Ok (Sample.resolved true).
Proof.
  pose proof (forced_testnet_skips_mainnet (P := Sample.platform)
                Sample.mainnetDown Sample.hashHex
                ltac:(vm_compute; reflexivity)
                ltac:(apply not_In_by_eval; vm_compute; reflexivity)
                ltac:(vm_compute; reflexivity)) as K.
  cbv zeta in K |- *. destruct K as (K1 & K2 & _).
  specialize (K2 Sample.sampleTx [] 47670702000009%Z
                 (Indexed.account Sample.sampleTx)
                 ltac:(vm_compute; reflexivity)
                 ltac:(vm_compute; reflexivity)
                 ltac:(vm_compute; reflexivity)).
  split.
  - rewrite K1. vm_compute; reflexivity.
  - rewrite K2. vm_compute; reflexivity.
Defined.

Lemma lt_hash_reference_witness :
  let out := run (linkToTx (P := Sample.platform) Sample.mainnetKnows
                    (lit "47670702000009" ++ lit ":" ++ Sample.hashHex)
                    None) in
  fst out = [Fetch Sample.hashHex false]
  /\ shown (snd out) = Ok (Sample.resolved false).
Proof.
  pose proof (lt_hash_reference (P := Sample.platform) Sample.mainnetKnows
                (lit "47670702000009") Sample.hashHex 47670702000009%Z None)
    as K.
  cbv zeta in K |- *.
  specialize (K ltac:(vm_compute; reflexivity)
                ltac:(apply not_In_by_eval; vm_compute; reflexivity)
                ltac:(apply not_In_by_eval; vm_compute; reflexivity)
                ltac:(vm_compute; reflexivity)
                ltac:(discriminate)).
  destruct K as (K & _ & _).
  specialize (K Sample.sampleTx [] (Indexed.account Sample.sampleTx)
                ltac:(vm_compute; reflexivity)
                ltac:(vm_compute; reflexivity)).
  rewrite K. split; [reflexivity | vm_compute; reflexivity].
Defined.

Lemma bare_reference_errors_are_wrapped_witness :
  (exists res,
      snd (run (linkToTx (P := Sample.platform) Sample.emptyIndex
                  (lit "3e5f4979") None)) = Ok res)
  \/ (exists rest,
        snd (run (linkToTx (P := Sample.platform) Sample.emptyIndex
                    (lit "3e5f4979") None))
        = Throw (Error (formatsError ++ rest))).
Proof.
  apply (bare_reference_errors_are_wrapped (P := Sample.platform)
           Sample.emptyIndex (lit "3e5f4979") None).
  vm_compute; reflexivity.
Defined.

Lemma toncx_link_round_trip_witness :
  run (linkToTx (P := Sample.platform) Sample.emptyIndex
         (toncx (txToLinks Sample.locator false)) None)
  = ([], Ok {| tx := Sample.locator; testnet := false |}).
Proof.
  apply (toncx_link_round_trip (P := Sample.platform) Sample.emptyIndex
           Sample.locator false None).
  - vm_compute; reflexivity.
  - reflexivity.
  - apply not_In_by_eval. vm_compute; reflexivity.
  - apply not_In_by_eval. vm_compute; reflexivity.
  - reflexivity.
Defined.

Lemma findOpcodeInfo_in_catalog_witness :
  In (Sample.opcode "NOP" "NOP" "-" "Does nothing.") Sample.catalog.
Proof.
  apply (findOpcodeInfo_in_catalog Sample.catalog (lit "NOP")).
  vm_compute; reflexivity.
Defined.

Lemma findOpcodeInfo_ignores_operands_witness :
  findOpcodeInfo Sample.catalog (lit "PUSHINT 4")
  = findOpcodeInfo Sample.catalog (lit "PUSHINT 7").
Proof.
  apply (findOpcodeInfo_ignores_operands Sample.catalog
           (lit "PUSHINT 4") (lit "PUSHINT 7"));
    [discriminate | discriminate | vm_compute; reflexivity
    | vm_compute; discriminate].
Defined.

Lemma findOpcodeInfo_xchg_text_witness :
  findOpcodeInfo Sample.catalog (lit "XCHG s2,s5")
  = Some (Sample.opcode "XCHG_IJ" "s[i] s[j] XCHG" "" "Interchanges s[i] with s[j].").
Proof.
  pose proof (findOpcodeInfo_xchg_text Sample.catalog 2 5
                ltac:(discriminate) ltac:(vm_compute; reflexivity)) as K.
  cbv zeta in K. destruct K as (_ & _ & K & _).
  exact (proj1 (K ltac:(lia) ltac:(lia) ltac:(lia)) _ sample_first_IJ).
Defined.

Lemma selected_record_is_related_witness :
  related (commandNameOf (lit "NOP"))
    (Sample.opcode "NOP" "NOP" "-" "Does nothing.") = true
  /\ findRelatedOpcodes (lit "NOP") Sample.catalog <> []
  /\ (In (Sample.opcode "NOP" "NOP" "-" "Does nothing.")
         (findRelatedOpcodes (lit "NOP") Sample.catalog)
      \/ length (findRelatedOpcodes (lit "NOP") Sample.catalog) = 5).
Proof.
  apply (selected_record_is_related Sample.catalog (lit "NOP")
           (Sample.opcode "NOP" "NOP" "-" "Does nothing."));
    vm_compute; reflexivity.
Defined.

Lemma findOpcodeInfo_implicit_witness :
  findOpcodeInfo Sample.catalog (lit "implicit " ++ lit "NOP")
  = findOpcodeInfo Sample.catalog (lit "NOP").
Proof.
  apply (findOpcodeInfo_implicit Sample.catalog (lit "NOP"));
    [vm_compute; discriminate | vm_compute; reflexivity].
Defined.

Lemma arrow_keys_stay_in_range_witness :
  exists v',
    stepAll [KeyUp ArrowRight; OpcodesResponse (Some Sample.catalog);
             KeyUp ArrowRight; KeyUp ArrowRight; KeyUp ArrowLeft]
      SampleView.early
    = Some v'
    /\ emulationResult v' = Some SampleView.logs
    /\ selectedStep v' < length SampleView.logs
    /\ (opcodes v' = opcodes SampleView.early
        \/ exists data,
             In (OpcodesResponse (Some data))
                [KeyUp ArrowRight; OpcodesResponse (Some Sample.catalog);
                 KeyUp ArrowRight; KeyUp ArrowRight; KeyUp ArrowLeft]
             /\ opcodes v' = data).
Proof.
  apply (arrow_keys_stay_in_range
           [KeyUp ArrowRight; OpcodesResponse (Some Sample.catalog);
            KeyUp ArrowRight; KeyUp ArrowRight; KeyUp ArrowLeft]
           SampleView.early SampleView.logs);
    [reflexivity | cbn; lia].
Defined.

Lemma arrow_key_selects_witness :
  selectedOpcode
    (handleOpcodeClick (lit "XCHG s0,s2") (setSelectedStep 1 SampleView.start))
  = findByName Sample.catalog (lit "XCHG_0I").
Proof.
  destruct (arrow_key_selects ArrowRight SampleView.start
              (handleOpcodeClick (lit "XCHG s0,s2")
                 (setSelectedStep 1 SampleView.start))
              SampleView.logs
              ltac:(reflexivity) ltac:(vm_compute; reflexivity)
              ltac:(vm_compute; discriminate))
    as (_ & log & N & K).
  vm_compute in N. injection N as <-.
  destruct K as (K & _). rewrite K. vm_compute; reflexivity.
Defined.

Lemma stack_rows_highlight_the_top_witness :
  exists rows,
    stackRows SampleView.hovering = Some rows
    /\ map item rows = [4; 8; 7]
    /\ map item (filter isHighlighted rows) = [4; 8].
Proof.
  destruct (stackRows SampleView.hovering) as [rows|] eqn:E;
    [|discriminate E].
  destruct (stack_rows_highlight_the_top SampleView.hovering rows E)
    as (logs & log & L & N & R & _ & H).
  injection L as <-. vm_compute in N. injection N as <-.
  exists rows. split; [reflexivity|]. split; [exact R | exact H].
Defined.

Lemma parseMarkdown_spans_witness :
  parseMarkdown (lit "`c4`") = lit "<code>c4</code>"
  /\ parseMarkdown (lit "**c4**") = lit "<strong>c4</strong>"
  /\ parseMarkdown (lit "_c4_") = lit "<em>c4</em>"
  /\ parseMarkdown (lit "*c4*") = lit "<em>c4</em>".
Proof.
  apply (parseMarkdown_spans (lit "c4")); [discriminate | reflexivity].
Defined.

Lemma shardQuery_unsigned_witness :
  shardQuery SampleView.shardRef false
  = Some {| q_workchain := 0;
            q_shard := lit "0x8000000000000000";
            q_seqno := 5;
            q_testnet := false |}.
Proof.
  pose proof (proj1 (shardQuery_unsigned SampleView.shardRef false
                       (-9223372036854775808)
                       ltac:(vm_compute; reflexivity)
                       ltac:(unfold two64; lia))) as K.
  vm_compute in K |- *. exact K.
Defined.
